(** * Column store and SQL query engine: a shallow embedding

    The development follows the two JavaScript classes of the repository:

    - [ColumnStore]: tables held column by column, dictionary coding of
      string columns, null bitmaps, running statistics, [scan] with a
      pushed-down predicate and [aggregate];
    - [QueryEngine]: the pattern-based SQL parser, the execution plan, the
      executor with ORDER BY and LIMIT, and the query history.

    The host language is modelled in [Js]: values, IEEE-754 doubles (the
    binary64 instance of [SpecFloat]), the comparison and arithmetic
    operators with their coercions, insertion-ordered [Map]s and a
    backtracking matcher for the regular expressions the parser uses.
    Strings are strings of 8-bit characters; letter case and white space
    are those of ASCII.  Readings of the wall clock are arguments.

    A row is a plain object: its own properties are a finite map, and a
    property it does not have is read from [Object.prototype].  Writes
    to a property named [__proto__], which would set the prototype, are
    outside the model. *)

From Stdlib Require Import ZArith List Ascii String Bool Lia SpecFloat.
From Stdlib Require Import DecimalString.
From Stdlib Require Import Sorted Permutation.
From stdpp Require Import gmap strings.

Local Open Scope string_scope.
Local Open Scope list_scope.
Local Open Scope Z_scope.

(** * The host language *)

Module Js.

(** ** Numbers: IEEE-754 binary64 *)

Definition number := spec_float.

Definition prec : Z := 53.
Definition emax : Z := 1024.

Definition NaN : number := S754_nan.
Definition Infinity : number := S754_infinity false.
Definition NegInfinity : number := S754_infinity true.

Definition num_of_Z (z : Z) : number := binary_normalize prec emax z 0 false.
Definition num_of_nat (n : nat) : number := num_of_Z (Z.of_nat n).

Definition num_add : number -> number -> number := SFadd prec emax.
Definition num_div : number -> number -> number := SFdiv prec emax.
Definition num_eqb : number -> number -> bool := SFeqb.
Definition num_ltb : number -> number -> bool := SFltb.
Definition num_leb : number -> number -> bool := SFleb.

Definition num_is_nan (x : number) : bool :=
  match x with S754_nan => true | _ => false end.

(** The least significant bit of a quotient and the rest tell where the
    exact value lies between two doubles; [binary_round_aux] rounds to
    nearest, ties to even.  [num_of_ratio p q] is the double nearest to
    [p / q] for positive [p] and [q]. *)
Definition num_of_ratio (neg : bool) (p q : Z) : number :=
  let '(m, e, l) := SFdiv_core_binary prec emax p 0 q 0 in
  binary_round_aux prec emax neg m e l.

(** The double nearest to [d * 10 ^ e], for [0 <= d]. *)
Definition num_of_decimal (neg : bool) (d e : Z) : number :=
  if d =? 0 then S754_zero neg
  else if 0 <=? e then binary_normalize prec emax ((if neg then - d else d) * 10 ^ e) 0 false
  else num_of_ratio neg d (10 ^ (- e)).

(** The exact value of a finite double as a fraction of two integers. *)
Definition num_fraction (x : number) : Z * Z :=
  match x with
  | S754_finite _ m e => if 0 <=? e then (Zpos m * 2 ^ e, 1) else (Zpos m, 2 ^ (- e))
  | _ => (0, 1)
  end.

Definition num_same (x y : number) : bool :=
  match x, y with
  | S754_zero a, S754_zero b | S754_infinity a, S754_infinity b => Bool.eqb a b
  | S754_nan, S754_nan => true
  | S754_finite a m e, S754_finite b m' e' => Bool.eqb a b && (m =? m')%positive && (e =? e')
  | _, _ => false
  end.

(** ** Characters and strings *)

Definition code (c : ascii) : N := N_of_ascii c.

Definition in_range (lo hi c : ascii) : bool :=
  (code lo <=? code c)%N && (code c <=? code hi)%N.

Definition is_digit (c : ascii) : bool := in_range "0" "9" c.
Definition is_lower (c : ascii) : bool := in_range "a" "z" c.
Definition is_word (c : ascii) : bool :=
  is_digit c || is_lower c || in_range "A" "Z" c || Ascii.eqb c "_".

(** [WhiteSpace] and [LineTerminator]: tab, line feed, vertical tab, form
    feed, carriage return and space. *)
Definition is_space (c : ascii) : bool :=
  ((9 <=? code c)%N && (code c <=? 13)%N) || (code c =? 32)%N.

Definition is_line_terminator (c : ascii) : bool :=
  (code c =? 10)%N || (code c =? 13)%N.

Definition upper (c : ascii) : ascii :=
  if is_lower c then ascii_of_N (code c - 32) else c.

Definition chars : string -> list ascii := list_ascii_of_string.
Definition str : list ascii -> string := string_of_list_ascii.

Definition toUpperCase (s : string) : string := str (map upper (chars s)).

Fixpoint trimStart_chars (cs : list ascii) : list ascii :=
  match cs with
  | c :: cs' => if is_space c then trimStart_chars cs' else cs
  | [] => []
  end.

Definition trim_chars (cs : list ascii) : list ascii :=
  rev (trimStart_chars (rev (trimStart_chars cs))).

Definition trim (s : string) : string := str (trim_chars (chars s)).

Definition startsWith (s p : string) : bool := String.prefix p s.

(** [s.split(c)] for a separator of one character: never empty. *)
Fixpoint split_chars (sep : ascii) (cs : list ascii) : list (list ascii) :=
  match cs with
  | [] => [[]]
  | c :: cs' =>
      if Ascii.eqb c sep then [] :: split_chars sep cs'
      else match split_chars sep cs' with
           | w :: ws => (c :: w) :: ws
           | [] => [[c]]
           end
  end.

Definition split (sep : ascii) (s : string) : list string :=
  map str (split_chars sep (chars s)).

(** [a.join(sep)] on strings. *)
Fixpoint join (sep : string) (l : list string) : string :=
  match l with
  | [] => ""
  | [x] => x
  | x :: l' => x +:+ sep +:+ join sep l'
  end.

(** ** Numeric literals *)

Fixpoint span_digits (cs : list ascii) : list ascii * list ascii :=
  match cs with
  | c :: cs' =>
      if is_digit c then let '(ds, r) := span_digits cs' in (c :: ds, r)
      else ([], cs)
  | [] => ([], [])
  end.

Definition digit_value (c : ascii) : Z := Z.of_N (code c) - 48.

Definition digits_to_Z (ds : list ascii) : Z :=
  fold_left (fun acc c => acc * 10 + digit_value c) ds 0.

Definition strip_prefix (p cs : list ascii) : option (list ascii) :=
  if String.prefix (str p) (str cs) then Some (skipn (length p) cs) else None.

(** The exponent part [e], [e+] or [e-] followed by digits, when there is
    one in front of [cs]. *)
Definition scan_exponent (cs : list ascii) : Z * list ascii :=
  match cs with
  | c :: r =>
      if Ascii.eqb c "e" || Ascii.eqb c "E" then
        let '(neg, r') :=
          match r with
          | s :: r' =>
              if Ascii.eqb s "+" then (false, r')
              else if Ascii.eqb s "-" then (true, r') else (false, r)
          | [] => (false, r)
          end in
        let '(ds, r'') := span_digits r' in
        match ds with
        | [] => (0, cs)
        | _ => ((if neg then - digits_to_Z ds else digits_to_Z ds), r'')
        end
      else (0, cs)
  | [] => (0, cs)
  end.

(** The longest prefix of [cs] that is a [StrUnsignedDecimalLiteral],
    as the number it denotes, and what follows it. *)
Definition scan_unsigned_decimal (neg : bool) (cs : list ascii)
  : option (number * list ascii) :=
  match strip_prefix (chars "Infinity") cs with
  | Some r => Some (S754_infinity neg, r)
  | None =>
      let '(ip, r1) := span_digits cs in
      let '(fp, r2) :=
        match r1 with
        | c :: r => if Ascii.eqb c "." then span_digits r else ([], r1)
        | [] => ([], r1)
        end in
      match ip ++ fp with
      | [] => None
      | ds =>
          let '(ex, r3) := scan_exponent r2 in
          Some (num_of_decimal neg (digits_to_Z ds) (ex - Z.of_nat (length fp)), r3)
      end
  end.

Definition scan_decimal (cs : list ascii) : option (number * list ascii) :=
  match cs with
  | c :: r =>
      if Ascii.eqb c "+" then scan_unsigned_decimal false r
      else if Ascii.eqb c "-" then scan_unsigned_decimal true r
      else scan_unsigned_decimal false cs
  | [] => None
  end.

Definition parseFloat (s : string) : number :=
  match scan_decimal (trimStart_chars (chars s)) with
  | Some (x, _) => x
  | None => NaN
  end.

Definition radix_digit_value (c : ascii) : Z :=
  if is_digit c then digit_value c
  else if in_range "a" "z" c then Z.of_N (code c) - 87
  else if in_range "A" "Z" c then Z.of_N (code c) - 55
  else 99.

Definition radix_literal (radix : Z) (ds : list ascii) : number :=
  match ds with
  | [] => NaN
  | _ =>
      if forallb (fun c => radix_digit_value c <? radix) ds
      then num_of_Z (fold_left (fun acc c => acc * radix + radix_digit_value c) ds 0)
      else NaN
  end.

(** [StringToNumber]: the whole string, white space trimmed, must be a
    numeric literal; the empty string is [+0]. *)
Definition StringToNumber (s : string) : number :=
  match trim_chars (chars s) with
  | [] => S754_zero false
  | cs =>
      match cs with
      | z :: x :: ds =>
          if Ascii.eqb z "0" && Ascii.eqb (upper x) "X" then radix_literal 16 ds
          else if Ascii.eqb z "0" && Ascii.eqb (upper x) "O" then radix_literal 8 ds
          else if Ascii.eqb z "0" && Ascii.eqb (upper x) "B" then radix_literal 2 ds
          else match scan_decimal cs with Some (n, []) => n | _ => NaN end
      | _ => match scan_decimal cs with Some (n, []) => n | _ => NaN end
      end
  end.

(** [parseInt(s)] without a radix. *)
Definition parseInt (s : string) : number :=
  let cs := trimStart_chars (chars s) in
  let '(neg, cs1) :=
    match cs with
    | c :: r =>
        if Ascii.eqb c "-" then (true, r)
        else if Ascii.eqb c "+" then (false, r) else (false, cs)
    | [] => (false, cs)
    end in
  let '(radix, cs2) :=
    match cs1 with
    | z :: x :: r =>
        if Ascii.eqb z "0" && Ascii.eqb (upper x) "X" then (16, r) else (10, cs1)
    | _ => (10, cs1)
    end in
  let fix take (l : list ascii) : list ascii :=
    match l with
    | c :: l' => if radix_digit_value c <? radix then c :: take l' else []
    | [] => []
    end in
  match take cs2 with
  | [] => NaN
  | ds =>
      let v := fold_left (fun acc c => acc * radix + radix_digit_value c) ds 0 in
      if v =? 0 then S754_zero neg else num_of_Z (if neg then - v else v)
  end.

(** ** Numbers to strings *)

Definition N_to_string (n : N) : string :=
  NilZero.string_of_uint (N.to_uint n).

Definition Z_to_string (z : Z) : string :=
  if z <? 0 then "-" +:+ N_to_string (Z.to_N (- z))
  else N_to_string (Z.to_N z).

Definition nat_to_string (n : nat) : string := N_to_string (N.of_nat n).

Fixpoint zeros (n : nat) : string :=
  match n with O => "" | S n' => "0" +:+ zeros n' end.

(** [p / q] scaled by [10 ^ - t], again as a fraction. *)
Definition scale10 (p q t : Z) : Z * Z :=
  if 0 <=? t then (p, q * 10 ^ t) else (p * 10 ^ (- t), q).

(** The least [n] from [n0] on with [p / q < 10 ^ n]. *)
Fixpoint decimal_exponent (fuel : nat) (p q n : Z) : Z :=
  match fuel with
  | O => n
  | S f =>
      let '(p', q') := scale10 p q n in
      if p' <? q' then n else decimal_exponent f p q (n + 1)
  end.

(** [Number::toString], step 5: the shortest digit string [s] of [k]
    digits and the exponent [n] with [s * 10 ^ (n - k)] read back as [x];
    of two such strings the one nearer to [x]. *)
Fixpoint shortest_digits (fuel : nat) (x : number) (p q n k : Z) : Z * Z * Z :=
  let t := n - k in
  let '(p', q') := scale10 p q t in
  let lo := p' / q' in
  let r := p' mod q' in
  let ok_lo := num_same (num_of_decimal false lo t) x in
  let ok_hi := num_same (num_of_decimal false (lo + 1) t) x in
  let pick_hi :=
    ok_hi && (negb ok_lo || (q' - r <? r) || ((q' - r =? r) && Z.odd lo)) in
  match fuel with
  | S f =>
      if ok_lo || ok_hi then
        if pick_hi then
          if lo + 1 =? 10 ^ k then (10 ^ (k - 1), k, n + 1) else (lo + 1, k, n)
        else (lo, k, n)
      else shortest_digits f x p q n (k + 1)
  | O => (lo, k, n)
  end.

Definition format_digits (ds : string) (k n : Z) : string :=
  if (k <=? n) && (n <=? 21) then ds +:+ zeros (Z.to_nat (n - k))
  else if (0 <? n) && (n <=? 21) then
    substring 0 (Z.to_nat n) ds +:+ "." +:+ substring (Z.to_nat n) (Z.to_nat (k - n)) ds
  else if (-6 <? n) && (n <=? 0) then "0." +:+ zeros (Z.to_nat (- n)) +:+ ds
  else
    let e := n - 1 in
    let tail := "e" +:+ (if e <? 0 then "-" else "+") +:+ Z_to_string (Z.abs e) in
    if k =? 1 then ds +:+ tail
    else substring 0 1 ds +:+ "." +:+ substring 1 (Z.to_nat (k - 1)) ds +:+ tail.

Definition NumberToString (x : number) : string :=
  match x with
  | S754_nan => "NaN"
  | S754_zero _ => "0"
  | S754_infinity s => if s then "-Infinity" else "Infinity"
  | S754_finite s m e =>
      let '(p, q) := num_fraction x in
      let l2 := Z.log2 p - Z.log2 q - 1 in
      let n := decimal_exponent 700 p q (l2 * 30103 / 100000 - 1) in
      let '(d, k, n') := shortest_digits 17 (S754_finite false m e) p q n 1 in
      (if s then "-" else "") +:+ format_digits (Z_to_string d) k n'
  end.

(** [x.toFixed(2)]: the integer [n] with [n / 100] nearest to [x], the
    larger of two; at least three digits, the point before the last two. *)
Definition toFixed2 (x : number) : string :=
  match x with
  | S754_nan => "NaN"
  | S754_infinity s => if s then "-Infinity" else "Infinity"
  | S754_zero _ => "0.00"
  | S754_finite s m e =>
      let '(p, q) := num_fraction x in
      if 10 ^ 21 * q <=? p then NumberToString x
      else
        let n := (2 * 100 * p + q) / (2 * q) in
        let ds := Z_to_string n in
        let ds := zeros (3 - String.length ds) +:+ ds in
        let k := String.length ds in
        (if s then "-" else "") +:+
        substring 0 (k - 2) ds +:+ "." +:+ substring (k - 2) 2 ds
  end.

(** ** Values *)

(** The objects that a read of a row can hand out besides the values
    that were put in: [Object.prototype] itself and its built-in
    functions, each known by its name. *)
Inductive host_object :=
| ObjectPrototype
| Builtin (name : string).

Definition host_eqb (a b : host_object) : bool :=
  match a, b with
  | ObjectPrototype, ObjectPrototype => true
  | Builtin x, Builtin y => String.eqb x y
  | _, _ => false
  end.

(** What such an object converts to as a primitive: [valueOf] gives the
    object back, so its [toString] decides. *)
Definition host_text (h : host_object) : string :=
  match h with
  | ObjectPrototype => "[object Object]"
  | Builtin name => "function " +:+ name +:+ "() { [native code] }"
  end.

Inductive value :=
| VUndefined
| VNull
| VBool (b : bool)
| VNum (n : number)
| VStr (s : string)
| VObj (h : host_object).

(** [ToPrimitive]: an object becomes its text. *)
Definition ToPrimitive (v : value) : value :=
  match v with
  | VObj h => VStr (host_text h)
  | _ => v
  end.

(** The text of an object, which starts with a letter or a bracket,
    does not read as a number. *)
Definition ToNumber (v : value) : number :=
  match v with
  | VUndefined => NaN
  | VNull => S754_zero false
  | VBool b => if b then num_of_Z 1 else S754_zero false
  | VNum n => n
  | VStr s => StringToNumber s
  | VObj _ => NaN
  end.

Definition ToString (v : value) : string :=
  match v with
  | VUndefined => "undefined"
  | VNull => "null"
  | VBool b => if b then "true" else "false"
  | VNum n => NumberToString n
  | VStr s => s
  | VObj h => host_text h
  end.

Definition ToBoolean (v : value) : bool :=
  match v with
  | VUndefined | VNull => false
  | VBool b => b
  | VNum n => match n with S754_zero _ | S754_nan => false | _ => true end
  | VStr s => negb (String.eqb s "")
  | VObj _ => true
  end.

(** [x === y]; two objects are equal when they are the same object. *)
Definition strict_eq (x y : value) : bool :=
  match x, y with
  | VUndefined, VUndefined | VNull, VNull => true
  | VBool a, VBool b => Bool.eqb a b
  | VNum a, VNum b => num_eqb a b
  | VStr a, VStr b => String.eqb a b
  | VObj a, VObj b => host_eqb a b
  | _, _ => false
  end.

(** [SameValueZero], the equality of [Map] keys: as [===], but [NaN] is
    equal to itself. *)
Definition same_value_zero (x y : value) : bool :=
  match x, y with
  | VNum a, VNum b => num_eqb a b || (num_is_nan a && num_is_nan b)
  | _, _ => strict_eq x y
  end.

(** [IsLessThan], on the primitives of the two sides: two strings by
    code units, anything else as numbers; [None] is the undefined result
    of a comparison with [NaN]. *)
Definition IsLessThan (x y : value) : option bool :=
  match ToPrimitive x, ToPrimitive y with
  | VStr a, VStr b => Some (String.ltb a b)
  | px, py =>
      let nx := ToNumber px in
      let ny := ToNumber py in
      if num_is_nan nx || num_is_nan ny then None else Some (num_ltb nx ny)
  end.

(** [x < y], [x > y], [x <= y], [x >= y] *)
Definition js_lt (x y : value) : bool := default false (IsLessThan x y).
Definition js_gt (x y : value) : bool := default false (IsLessThan y x).
Definition js_le (x y : value) : bool := default false (negb <$> IsLessThan y x).
Definition js_ge (x y : value) : bool := default false (negb <$> IsLessThan x y).

(** [x + y], on the primitives of the two sides: concatenation when
    one of them is a string. *)
Definition js_add (x y : value) : value :=
  match ToPrimitive x, ToPrimitive y with
  | VStr a, py => VStr (a +:+ ToString py)
  | px, VStr b => VStr (ToString px +:+ b)
  | px, py => VNum (num_add (ToNumber px) (ToNumber py))
  end.

(** [x / y] *)
Definition js_div (x y : value) : value :=
  VNum (num_div (ToNumber x) (ToNumber y)).

Definition isNaN (v : value) : bool := num_is_nan (ToNumber v).

(** [Math.min] and [Math.max] of two numbers: [NaN] wins, and [-0] is
    below [+0]. *)
Definition num_min (a b : number) : number :=
  if num_is_nan a || num_is_nan b then NaN
  else match a, b with
       | S754_zero sa, S754_zero sb => S754_zero (sa || sb)
       | _, _ => if num_ltb b a then b else a
       end.

Definition num_max (a b : number) : number :=
  if num_is_nan a || num_is_nan b then NaN
  else match a, b with
       | S754_zero sa, S754_zero sb => S754_zero (sa && sb)
       | _, _ => if num_ltb a b then b else a
       end.

Definition Math_min (vs : list value) : number :=
  fold_left (fun acc v => num_min acc (ToNumber v)) vs Infinity.

Definition Math_max (vs : list value) : number :=
  fold_left (fun acc v => num_max acc (ToNumber v)) vs NegInfinity.

(** ** Objects used as records of values

    The own properties of a plain object are a finite map.  [o[k]] reads
    an own property when there is one, and else what [Object.prototype]
    has under the name: [Object] under [constructor], the prototype
    itself under [__proto__], a built-in function under ten more names;
    under any other name the read gives [undefined]. *)

Definition object := gmap string value.

Definition prototype_methods : list string :=
  ["hasOwnProperty"; "isPrototypeOf"; "propertyIsEnumerable"; "toLocaleString";
   "toString"; "valueOf"; "__defineGetter__"; "__defineSetter__";
   "__lookupGetter__"; "__lookupSetter__"].

Definition inherited (k : string) : option value :=
  if String.eqb k "constructor" then Some (VObj (Builtin "Object"))
  else if String.eqb k "__proto__" then Some (VObj ObjectPrototype)
  else if existsb (String.eqb k) prototype_methods then Some (VObj (Builtin k))
  else None.

Definition prop (o : gmap string value) (k : string) : value :=
  match o !! k with
  | Some v => v
  | None => default VUndefined (inherited k)
  end.

(** [Map.prototype.set] keeps the key [-0] as [+0]. *)
Definition map_key (v : value) : value :=
  match v with
  | VNum (S754_zero true) => VNum (S754_zero false)
  | _ => v
  end.

(** ** [Map]: keys in insertion order, each once *)

Module JsMap.
Section Map.
Context {K V : Type} (same : K -> K -> bool).

Fixpoint get (m : list (K * V)) (k : K) : option V :=
  match m with
  | [] => None
  | (k', v) :: m' => if same k' k then Some v else get m' k
  end.

Definition has (m : list (K * V)) (k : K) : bool :=
  match get m k with Some _ => true | None => false end.

(** An existing key keeps its place; a new one goes last. *)
Fixpoint set (m : list (K * V)) (k : K) (v : V) : list (K * V) :=
  match m with
  | [] => [(k, v)]
  | (k', v') :: m' => if same k' k then (k', v) :: m' else (k', v') :: set m' k v
  end.

Definition size (m : list (K * V)) : nat := length m.
Definition keys (m : list (K * V)) : list K := map fst m.
End Map.
End JsMap.

(** ** Arrays *)

(** [a.slice(start)] *)
Definition slice_from {A} (start : Z) (l : list A) : list A :=
  let len := Z.of_nat (length l) in
  skipn (Z.to_nat (if start <? 0 then Z.max (len + start) 0 else Z.min start len)) l.

(** [a.slice(0, n)] for a number [n], through [ToIntegerOrInfinity]. *)
Definition slice_to {A} (n : number) (l : list A) : list A :=
  let len := Z.of_nat (length l) in
  match n with
  | S754_nan | S754_zero _ => []
  | S754_infinity s => if s then [] else l
  | S754_finite s _ _ =>
      let '(p, q) := num_fraction n in
      firstn (Z.to_nat (if s then Z.max (len - p / q) 0 else Z.min (p / q) len)) l
  end.

(** [a.sort(cmp)]: the sort is stable, and a comparator that is
    consistent fixes the result.  By insertion: an element moves behind
    those it compares greater than. *)
Fixpoint sort_insert {A} (cmp : A -> A -> Z) (x : A) (l : list A) : list A :=
  match l with
  | [] => [x]
  | y :: l' => if 0 <? cmp x y then y :: sort_insert cmp x l' else x :: l
  end.

Fixpoint sort {A} (cmp : A -> A -> Z) (l : list A) : list A :=
  match l with
  | [] => []
  | x :: l' => sort_insert cmp x (sort cmp l')
  end.

(** ** Regular expressions: a backtracking matcher *)

Inductive regex :=
| Empty
| Char (p : ascii -> bool)
| Seq (r1 r2 : regex)
| Alt (r1 r2 : regex)
| Star (greedy : bool) (r : regex)
| Group (n : nat) (r : regex)
| Backref (n : nat)
| EndOfInput.

Definition captures := list (nat * list ascii).

Fixpoint capture (n : nat) (cs : captures) : option (list ascii) :=
  match cs with
  | [] => None
  | (m, w) :: cs' => if (n =? m)%nat then Some w else capture n cs'
  end.

Definition same_char (ic : bool) (a b : ascii) : bool :=
  if ic then Ascii.eqb (upper a) (upper b) else Ascii.eqb a b.

Fixpoint strip (ic : bool) (w s : list ascii) : option (list ascii) :=
  match w, s with
  | [] , _ => Some s
  | a :: w', b :: s' => if same_char ic a b then strip ic w' s' else None
  | _ :: _, [] => None
  end.

Definition continuation : Type :=
  list ascii -> captures -> option (list ascii * captures).

(** The iterations of a star, at most [fuel] of them: greedy, one more
    iteration comes before going on; lazy, going on comes first.  An
    iteration that consumes nothing is refused. *)
Fixpoint star_loop (step : list ascii -> captures -> continuation -> option (list ascii * captures))
    (greedy : bool) (k : continuation) (fuel : nat) (s : list ascii) (cs : captures)
    {struct fuel} : option (list ascii * captures) :=
  match fuel with
  | O => k s cs
  | S f =>
      let more s' cs' :=
        if (length s' <? length s)%nat then star_loop step greedy k f s' cs'
        else None in
      if greedy then
        match step s cs more with
        | Some x => Some x
        | None => k s cs
        end
      else
        match k s cs with
        | Some x => Some x
        | None => step s cs more
        end
  end.

(** [run ic r s cs k]: match [r] at the front of [s], then go on with
    [k] on the rest; a failure of [k] makes [r] try its next way. *)
Fixpoint run (ic : bool) (r : regex) (s : list ascii) (cs : captures)
    (k : continuation) {struct r} : option (list ascii * captures) :=
  match r with
  | Empty => k s cs
  | Char p =>
      match s with
      | c :: s' => if p c then k s' cs else None
      | [] => None
      end
  | Seq r1 r2 => run ic r1 s cs (fun s' cs' => run ic r2 s' cs' k)
  | Alt r1 r2 =>
      match run ic r1 s cs k with
      | Some x => Some x
      | None => run ic r2 s cs k
      end
  | Star greedy r1 => star_loop (run ic r1) greedy k (S (length s)) s cs
  | Group n r1 =>
      run ic r1 s cs
        (fun s' cs' => k s' ((n, firstn (length s - length s') s) :: cs'))
  | Backref n =>
      match capture n cs with
      | None => k s cs
      | Some w =>
          match strip ic w s with
          | Some s' => k s' cs
          | None => None
          end
      end
  | EndOfInput => match s with [] => k s cs | _ :: _ => None end
  end.

Definition run_here (ic : bool) (r : regex) (s : list ascii)
  : option (list ascii * captures) :=
  run ic r s [] (fun s' cs => Some (s', cs)).

(** [s.match(r)] for a regular expression without the [g] flag: the
    leftmost match, as the matched text and the captures. *)
Fixpoint search (ic : bool) (r : regex) (s : list ascii)
  : option (list ascii * captures) :=
  match run_here ic r s with
  | Some (s', cs) => Some (firstn (length s - length s') s, cs)
  | None =>
      match s with
      | [] => None
      | _ :: s' => search ic r s'
      end
  end.

Definition match_ (ic : bool) (r : regex) (s : string) : option captures :=
  match search ic r (chars s) with
  | Some (w, cs) => Some ((O, w) :: cs)
  | None => None
  end.

(** [m[n]] of a match: [None] for a group that took no part. *)
Definition group (m : captures) (n : nat) : option string :=
  str <$> capture n m.

(** [s.replace(r, rep)] for [r] with the [g] flag. *)
Fixpoint replace_chars (ic : bool) (r : regex) (rep : list ascii)
    (fuel : nat) (s : list ascii) : list ascii :=
  match fuel with
  | O => s
  | S f =>
      match run_here ic r s, s with
      | Some (s', _), c :: s0 =>
          if (length s' <? length s)%nat then rep ++ replace_chars ic r rep f s'
          else rep ++ c :: replace_chars ic r rep f s0
      | Some _, [] => rep
      | None, c :: s0 => c :: replace_chars ic r rep f s0
      | None, [] => []
      end
  end.

Definition replace_all (ic : bool) (r : regex) (rep : string) (s : string) : string :=
  str (replace_chars ic r (chars rep) (S (String.length s)) (chars s)).

(** Builders for the patterns. *)
Definition lit (ic : bool) (s : string) : regex :=
  fold_right (fun c r => Seq (Char (same_char ic c)) r) Empty (chars s).

Definition plus (r : regex) : regex := Seq r (Star true r).
Definition opt (r : regex) : regex := Alt r Empty.
Definition seqs (rs : list regex) : regex := fold_right Seq Empty rs.
Definition alts (r : regex) (rs : list regex) : regex := fold_left Alt rs r.

Definition re_s : regex := Char is_space.
Definition re_w : regex := Char is_word.
Definition re_d : regex := Char is_digit.
Definition re_dot : regex := Char (fun c => negb (is_line_terminator c)).

(** ** Exceptions and mutable state *)

Inductive error :=
| Error (message : string)
| TypeError (message : string).

Definition message (e : error) : string :=
  match e with Error m | TypeError m => m end.

Inductive outcome (A : Type) :=
| Return (a : A)
| Throw (e : error).
Arguments Return {A} a.
Arguments Throw {A} e.

Definition obind {A B} (m : outcome A) (f : A -> outcome B) : outcome B :=
  match m with
  | Return a => f a
  | Throw e => Throw e
  end.

(** What a call returned, seen through [f]. *)
Definition returned {A B} (f : A -> B) (o : outcome A) : outcome B :=
  obind o (fun a => Return (f a)).

Fixpoint omap {A B} (f : A -> outcome B) (l : list A) : outcome (list B) :=
  match l with
  | [] => Return []
  | x :: l' => obind (f x) (fun y => obind (omap f l') (fun ys => Return (y :: ys)))
  end.

(** A method that runs on a state [S]: it returns or throws, and leaves
    a state behind either way. *)
Definition M (S A : Type) : Type := S -> outcome A * S.

Definition ret {S A} (a : A) : M S A := fun s => (Return a, s).
Definition throw {S A} (e : error) : M S A := fun s => (Throw e, s).
Definition lift {S A} (o : outcome A) : M S A := fun s => (o, s).
Definition get {S} : M S S := fun s => (Return s, s).
Definition put {S} (s : S) : M S unit := fun _ => (Return tt, s).

Definition bind {S A B} (m : M S A) (f : A -> M S B) : M S B :=
  fun s =>
    match m s with
    | (Return a, s') => f a s'
    | (Throw e, s') => (Throw e, s')
    end.

Fixpoint forEach {S A} (l : list A) (f : A -> M S unit) : M S unit :=
  match l with
  | [] => ret tt
  | x :: l' => bind (f x) (fun _ => forEach l' f)
  end.

Definition try_catch {S A} (m : M S A) (h : error -> M S A) : M S A :=
  fun s =>
    match m s with
    | (Return a, s') => (Return a, s')
    | (Throw e, s') => h e s'
    end.

(** A wall-clock instant, in milliseconds. *)
Definition time := Z.

End Js.

Declare Scope js_scope.
Delimit Scope js_scope with js.
Notation "x <- m ;; k" := (Js.bind m (fun x => k))
  (at level 20, m at level 99, k at level 200, only parsing) : js_scope.
Notation "m ;; k" := (Js.bind m (fun _ => k))
  (at level 100, k at level 200, only parsing, right associativity) : js_scope.
Notation "x <~ m ;; k" := (Js.obind m (fun x => k))
  (at level 20, m at level 99, k at level 200, only parsing) : js_scope.

(** * The column store *)

Module ColumnStore.
Import Js.
Local Open Scope js_scope.

(** What the host clock yields where a call reads it: the date, and the
    milliseconds a call measures around its own body. *)
Record clock := {
  clk_date : time;
  clk_insert : number;
  clk_scan : number;
  clk_aggregate : number;
  clk_total : number
}.

Record schema_entry := { s_name : string; s_type : string }.

Record column_stats := {
  stats_min : value;
  stats_max : value;
  distinctCount : nat;
  nullCount : nat
}.

(** [nullBitmap] holds the numbers 1 and 0, read only for their truth:
    [true] is 1.  [dictionary] is [null] unless the column is a string
    column. *)
Record column := {
  col_name : string;
  col_type : string;
  data : list value;
  nullBitmap : list bool;
  compression : string;
  dictionary : option (list (value * number));
  stats : column_stats
}.

Record table_metadata := {
  created : time;
  lastModified : time;
  compressionRatio : value;
  totalSize : nat
}.

Record table := {
  tbl_name : string;
  schema : list schema_entry;
  columns : list (string * column);
  rowCount : nat;
  metadata : table_metadata
}.

(** Assignments to the fields of a table object. *)
Definition with_columns (t : table) (cols : list (string * column)) : table :=
  {| tbl_name := tbl_name t; schema := schema t; columns := cols;
     rowCount := rowCount t; metadata := metadata t |}.

Definition with_rowCount (t : table) (n : nat) : table :=
  {| tbl_name := tbl_name t; schema := schema t; columns := columns t;
     rowCount := n; metadata := metadata t |}.

Definition with_metadata (t : table) (m : table_metadata) : table :=
  {| tbl_name := tbl_name t; schema := schema t; columns := columns t;
     rowCount := rowCount t; metadata := m |}.

(** The store: [tables], a [Map] from names to tables. *)
Record store := { tables : list (string * table) }.

Definition constructor : store := {| tables := [] |}.

Record predicate := {
  p_column : string;
  p_operator : string;
  p_value : value
}.

Record aggregate_spec := {
  agg_function : string;
  agg_column : string;
  agg_alias : option string
}.

Record insert_result := {
  rowsInserted : nat;
  insertTime : string;
  ins_compressionRatio : string
}.

Record scan_metadata := {
  rowsScanned : nat;
  rowsReturned : nat;
  scanTime : string;
  columnsScanned : nat
}.

Record scan_result := { scan_data : list object; scan_meta : scan_metadata }.

Record aggregate_metadata := { aggregateTime : string; groupCount : nat }.

Record aggregate_result := {
  agg_data : list object;
  agg_meta : aggregate_metadata
}.

Definition table_not_found (tableName : string) : error :=
  Error ("Table " +:+ tableName +:+ " not found").

(** Reading a property of [undefined]. *)
Definition undefined_read : error :=
  TypeError "Cannot read properties of undefined".

Definition selectCompression (type : string) : string :=
  if String.eqb type "string" then "dictionary"
  else if String.eqb type "integer" then "rle"
  else if String.eqb type "float" then "delta"
  else if String.eqb type "boolean" then "bitmap"
  else "none".

Definition new_column (col : schema_entry) : column :=
  {| col_name := s_name col;
     col_type := s_type col;
     data := [];
     nullBitmap := [];
     compression := selectCompression (s_type col);
     dictionary := if String.eqb (s_type col) "string" then Some [] else None;
     stats := {| stats_min := VNull; stats_max := VNull;
                 distinctCount := 0; nullCount := 0 |} |}.

Definition createTable (created_at modified_at : time) (tableName : string)
    (schema : list schema_entry) : M store table :=
  let table :=
    {| tbl_name := tableName;
       schema := schema;
       columns :=
         fold_left
           (fun cols col => JsMap.set String.eqb cols (s_name col) (new_column col))
           schema [];
       rowCount := 0;
       metadata := {| created := created_at; lastModified := modified_at;
                      compressionRatio := VNum (S754_zero false);
                      totalSize := 0 |} |} in
  s <- get;;
  put {| tables := JsMap.set String.eqb (tables s) tableName table |};;
  ret table.

Definition updateColumnStats (c : column) (v : value) : column :=
  let st := stats c in
  let mn :=
    if strict_eq (stats_min st) VNull || js_lt v (stats_min st)
    then v else stats_min st in
  let mx :=
    if strict_eq (stats_max st) VNull || js_gt v (stats_max st)
    then v else stats_max st in
  {| col_name := col_name c; col_type := col_type c; data := data c;
     nullBitmap := nullBitmap c; compression := compression c;
     dictionary := dictionary c;
     stats := {| stats_min := mn; stats_max := mx;
                 distinctCount := distinctCount st;
                 nullCount := nullCount st |} |}.

(** The null branch of [insert]: a set flag, a [null] cell, one more
    null counted. *)
Definition push_null (c : column) : column :=
  {| col_name := col_name c; col_type := col_type c;
     data := data c ++ [VNull];
     nullBitmap := nullBitmap c ++ [true];
     compression := compression c;
     dictionary := dictionary c;
     stats := {| stats_min := stats_min (stats c); stats_max := stats_max (stats c);
                 distinctCount := distinctCount (stats c);
                 nullCount := S (nullCount (stats c)) |} |}.

(** The other branch: a clear flag, then the cell; for a string column
    with a dictionary the cell is the code of the value, a new code being
    the size of the dictionary. *)
Definition push_value (type : string) (c : column) (v : value) : column :=
  let '(dict, cell) :=
    match dictionary c with
    | Some d =>
        if String.eqb type "string" then
          let d' :=
            if JsMap.has same_value_zero d v then d
            else JsMap.set same_value_zero d (map_key v) (num_of_nat (JsMap.size d)) in
          (Some d',
           match JsMap.get same_value_zero d' v with
           | Some code => VNum code
           | None => VUndefined
           end)
        else (Some d, v)
    | None => (None, v)
    end in
  updateColumnStats
    {| col_name := col_name c; col_type := col_type c;
       data := data c ++ [cell];
       nullBitmap := nullBitmap c ++ [false];
       compression := compression c;
       dictionary := dict;
       stats := stats c |} v.

(** What one field of a row does to its column. *)
Definition insert_value (type : string) (c : column) (v : value) : column :=
  if strict_eq v VNull || strict_eq v VUndefined then push_null c
  else push_value type c v.

(** The body of the loop over the schema, for one row: [col] is the
    schema entry, the column is the one of that name. *)
Definition insert_field (row : object) (col : schema_entry) : M table unit :=
  t <- get;;
  match JsMap.get String.eqb (columns t) (s_name col) with
  | None => throw undefined_read
  | Some c =>
      let c' := insert_value (s_type col) c (prop row (s_name col)) in
      put (with_columns t (JsMap.set String.eqb (columns t) (s_name col) c'))
  end.

Definition insert_row (row : object) : M table unit :=
  t <- get;;
  forEach (schema t) (insert_field row);;
  t <- get;;
  put (with_rowCount t (S (rowCount t))).

Definition column_compressed_size (c : column) : nat :=
  (match dictionary c with
   | Some d => JsMap.size d * 20 + length (data c) * 2
   | None => length (data c) * 4
   end + (length (nullBitmap c) + 7) / 8)%nat.

(** The two sums of [calculateCompression] over the columns, and their
    ratio as it is printed. *)
Definition uncompressed_size (cols : list (string * column)) : nat :=
  fold_left (fun n c => (n + length (data (snd c)) * 8)%nat) cols O.

Definition compressed_size (cols : list (string * column)) : nat :=
  fold_left (fun n c => (n + column_compressed_size (snd c))%nat) cols O.

Definition compression_ratio (cols : list (string * column)) : string :=
  toFixed2 (num_div (num_of_nat (uncompressed_size cols))
              (num_of_nat (compressed_size cols))).

Definition calculateCompression : M table string :=
  t <- get;;
  let ratio := compression_ratio (columns t) in
  put (with_metadata t
         {| created := created (metadata t);
            lastModified := lastModified (metadata t);
            compressionRatio := VStr ratio;
            totalSize := compressed_size (columns t) |});;
  ret ratio.

Definition touch (now : time) : M table unit :=
  t <- get;;
  put (with_metadata t
         {| created := created (metadata t);
            lastModified := now;
            compressionRatio := compressionRatio (metadata t);
            totalSize := totalSize (metadata t) |}).

(** A method body that works on the table object registered under
    [tableName]: what it does to the table is done in the store. *)
Definition on_table {A} (tableName : string) (t : table) (m : M table A)
  : M store A :=
  fun s =>
    let '(r, t') := m t in
    (r, {| tables := JsMap.set String.eqb (tables s) tableName t' |}).

Definition insert (clk : clock) (tableName : string) (rows : list object)
  : M store insert_result :=
  s <- get;;
  match JsMap.get String.eqb (tables s) tableName with
  | None => throw (table_not_found tableName)
  | Some t =>
      on_table tableName t
        (forEach rows insert_row;;
         touch (clk_date clk);;
         ratio <- calculateCompression;;
         ret {| rowsInserted := length rows;
                insertTime := toFixed2 (clk_insert clk) +:+ "ms";
                ins_compressionRatio := ratio |})
  end.

(** The reverse lookup of [scan] and [applyPredicate]: the first key of
    the dictionary whose code is the cell; a cell that is no code stays. *)
Fixpoint decode (d : list (value * number)) (cell : value) : value :=
  match d with
  | [] => cell
  | (k, v) :: d' => if strict_eq (VNum v) cell then k else decode d' cell
  end.

(** [column.data[i]], decoded when the column has a dictionary and the
    cell is not [null]. *)
Definition cell_value (c : column) (i : nat) : value :=
  let v := nth i (data c) VUndefined in
  match dictionary c with
  | Some d => if negb (strict_eq v VNull) then decode d v else v
  | None => v
  end.

(** [column.nullBitmap[i]], as a condition. *)
Definition is_null (c : column) (i : nat) : bool := nth i (nullBitmap c) false.

Definition test_operator (operator : string) (colValue v : value) : bool :=
  if String.eqb operator "=" then strict_eq colValue v
  else if String.eqb operator ">" then js_gt colValue v
  else if String.eqb operator "<" then js_lt colValue v
  else if String.eqb operator ">=" then js_ge colValue v
  else if String.eqb operator "<=" then js_le colValue v
  else if String.eqb operator "!=" then negb (strict_eq colValue v)
  else true.

(** [applyPredicate] assigns every entry of [matchBitmap] below
    [rowCount]; the result is the bitmap after the loop. *)
Definition applyPredicate (t : table) (p : predicate) (matchBitmap : list bool)
  : outcome (list bool) :=
  match rowCount t with
  | O => Return matchBitmap
  | S _ =>
      match JsMap.get String.eqb (columns t) (p_column p) with
      | None => Throw undefined_read
      | Some c =>
          Return
            (map (fun i =>
                    if is_null c i then false
                    else test_operator (p_operator p) (cell_value c i) (p_value p))
               (seq 0 (rowCount t)))
      end
  end.

(** One result row: the selected columns of row [i]. *)
Definition materialize (t : table) (selectedColumns : list string) (i : nat)
  : outcome object :=
  fold_left
    (fun acc colName =>
       row <~ acc;;
       match JsMap.get String.eqb (columns t) colName with
       | None => Throw undefined_read
       | Some c =>
           Return (<[colName := if is_null c i then VNull else cell_value c i]> row)
       end)
    selectedColumns (Return (∅ : gmap string value)).

Definition scan (clk : clock) (tableName : string)
    (columns_ : option (list string)) (pred : option predicate)
  : M store scan_result :=
  s <- get;;
  match JsMap.get String.eqb (tables s) tableName with
  | None => throw (table_not_found tableName)
  | Some t =>
      let selectedColumns :=
        match columns_ with
        | Some cs => cs
        | None => JsMap.keys (columns t)
        end in
      let matchBitmap := repeat true (rowCount t) in
      matchBitmap <-
        lift (match pred with
              | Some p => applyPredicate t p matchBitmap
              | None => Return matchBitmap
              end);;
      results <-
        lift (omap (materialize t selectedColumns)
                (List.filter (fun i => nth i matchBitmap false)
                   (seq 0 (rowCount t))));;
      ret {| scan_data := results;
             scan_meta := {| rowsScanned := rowCount t;
                             rowsReturned := length results;
                             scanTime := toFixed2 (clk_scan clk) +:+ "ms";
                             columnsScanned := length selectedColumns |} |}
  end.

Definition computeAggregate (rows : list object) (column_ func : string)
  : outcome value :=
  let values :=
    List.filter (fun v => negb (strict_eq v VNull))
      (map (fun r => prop r column_) rows) in
  let f := toUpperCase func in
  if String.eqb f "COUNT" then
    Return (VNum (num_of_nat
                    (if String.eqb column_ "*" then length rows else length values)))
  else if String.eqb f "SUM" then
    Return (fold_left js_add values (VNum (S754_zero false)))
  else if String.eqb f "AVG" then
    Return (js_div (fold_left js_add values (VNum (S754_zero false)))
              (VNum (num_of_nat (length values))))
  else if String.eqb f "MIN" then Return (VNum (Math_min values))
  else if String.eqb f "MAX" then Return (VNum (Math_max values))
  else Throw (Error ("Unknown aggregate function: " +:+ func)).

(** [agg.alias || agg.function] *)
Definition result_key (agg : aggregate_spec) : string :=
  match agg_alias agg with
  | Some a => if String.eqb a "" then agg_function agg else a
  | None => agg_function agg
  end.

(** The loop over [aggregates] that fills one result object. *)
Definition fill_result (result : object) (aggregates : list aggregate_spec)
    (rows : list object) : outcome object :=
  fold_left
    (fun acc agg =>
       r <~ acc;;
       v <~ computeAggregate rows (agg_column agg) (agg_function agg);;
       Return (<[result_key agg := v]> r))
    aggregates (Return result).

(** The [Map] from group keys to the rows of each group, rows and keys in
    the order they come. *)
Definition group_rows (groupBy : string) (rows : list object)
  : list (value * list object) :=
  fold_left
    (fun groups row =>
       let key := prop row groupBy in
       let groups :=
         if JsMap.has same_value_zero groups key then groups
         else JsMap.set same_value_zero groups (map_key key) [] in
       match JsMap.get same_value_zero groups key with
       | Some rs => JsMap.set same_value_zero groups key (rs ++ [row])
       | None => groups
       end)
    rows [].

(** [groupBy] is [null] or a string; the empty string counts as none. *)
Definition grouping (groupBy : option string) : option string :=
  match groupBy with
  | Some g => if String.eqb g "" then None else Some g
  | None => None
  end.

Definition aggregate (clk : clock) (tableName : string)
    (aggregates : list aggregate_spec) (groupBy : option string)
    (pred : option predicate) : M store aggregate_result :=
  s <- get;;
  match JsMap.get String.eqb (tables s) tableName with
  | None => throw (table_not_found tableName)
  | Some _ =>
      scanResult <- scan clk tableName None pred;;
      let rows := scan_data scanResult in
      results <-
        lift (match grouping groupBy with
              | Some g =>
                  omap (fun '(key, rs) =>
                          fill_result (<[g := key]> (∅ : gmap string value)) aggregates rs)
                    (group_rows g rows)
              | None =>
                  r <~ fill_result (∅ : gmap string value) aggregates rows;;
                  Return [r]
              end);;
      ret {| agg_data := results;
             agg_meta := {| aggregateTime := toFixed2 (clk_aggregate clk) +:+ "ms";
                            groupCount :=
                              match grouping groupBy with
                              | Some _ => length results
                              | None => 1
                              end |} |}
  end.

(** ** [getTableInfo] *)

Record column_info := {
  info_name : string;
  info_type : string;
  info_compression : string;
  info_rowCount : nat;
  info_nullCount : nat;
  distinctValues : value;
  info_min : value;
  info_max : value
}.

Record table_info := {
  ti_name : string;
  ti_rowCount : nat;
  columnCount : nat;
  ti_compressionRatio : value;
  ti_totalSize : string;
  ti_created : time;
  ti_lastModified : time;
  ti_columns : list column_info
}.

(** The entry for one column; its type is read from the schema entry of
    its name, which is [undefined] when there is none. *)
Definition column_info_of (t : table) (name : string) (col : column)
  : outcome column_info :=
  match find (fun e => String.eqb (s_name e) name) (schema t) with
  | None => Throw undefined_read
  | Some e =>
      Return {| info_name := name;
                info_type := s_type e;
                info_compression := compression col;
                info_rowCount := length (data col);
                info_nullCount := nullCount (stats col);
                distinctValues :=
                  match dictionary col with
                  | Some d => VNum (num_of_nat (JsMap.size d))
                  | None => VStr "N/A"
                  end;
                info_min := stats_min (stats col);
                info_max := stats_max (stats col) |}
  end.

Definition getTableInfo (tableName : string) : M store table_info :=
  s <- get;;
  match JsMap.get String.eqb (tables s) tableName with
  | None => throw (table_not_found tableName)
  | Some t =>
      infos <- lift (omap (fun nc => column_info_of t (fst nc) (snd nc)) (columns t));;
      ret {| ti_name := tbl_name t;
             ti_rowCount := rowCount t;
             columnCount := JsMap.size (columns t);
             ti_compressionRatio := compressionRatio (metadata t);
             ti_totalSize :=
               toFixed2 (num_div (num_of_nat (totalSize (metadata t))) (num_of_Z 1024))
               +:+ " KB";
             ti_created := created (metadata t);
             ti_lastModified := lastModified (metadata t);
             ti_columns := infos |}
  end.

End ColumnStore.

(** * The query engine *)

Module QueryEngine.
Import Js.
Import ColumnStore (clock, clk_date, clk_total, predicate, aggregate_spec).
Local Open Scope js_scope.

Record order_by := { ob_column : string; ob_direction : string }.

Record query := {
  q_type : string;
  q_table : string;
  q_columns : list string;
  q_where : option predicate;
  q_groupBy : option string;
  q_orderBy : option order_by;
  q_limit : option number;
  q_aggregates : list aggregate_spec
}.

Record plan_step := {
  step : nat;
  operation : string;
  target : value;
  description : string;
  cost : string
}.

Inductive result_metadata :=
| ScanMetadata (m : ColumnStore.scan_metadata)
| AggregateMetadata (m : ColumnStore.aggregate_metadata).

Record query_result := {
  res_data : list object;
  res_metadata : result_metadata
}.

(** An execution record: [rowsAffected] and [executionPlan] on success,
    [error] on failure. *)
Record execution := {
  ex_sql : string;
  ex_timestamp : time;
  executionTime : string;
  rowsAffected : option nat;
  ex_error : option string;
  success : bool;
  executionPlan : option (list plan_step)
}.

Record execute_result := {
  out_data : list object;
  out_metadata : result_metadata;
  out_execution : execution
}.

(** The engine: the store it queries and its history. *)
Record engine := {
  store : ColumnStore.store;
  queryHistory : list execution
}.

Definition constructor (columnStore : ColumnStore.store) : engine :=
  {| store := columnStore; queryHistory := [] |}.

(** ** The patterns of the parser *)

Definition double_quote : ascii := ascii_of_nat 34.

(** [/\s+/g] *)
Definition re_spaces : regex := plus re_s.

(** [/SELECT\s+(.*?)\s+FROM/i] *)
Definition re_select : regex :=
  seqs [lit true "SELECT"; plus re_s; Group 1 (Star false re_dot); plus re_s;
        lit true "FROM"].

(** [/(COUNT|SUM|AVG|MIN|MAX)\s*\(\s*(\*|[\w]+)\s*\)(?:\s+AS\s+(\w+))?/i] *)
Definition re_aggregate : regex :=
  seqs [Group 1 (alts (lit true "COUNT")
                   [lit true "SUM"; lit true "AVG"; lit true "MIN"; lit true "MAX"]);
        Star true re_s; lit true "("; Star true re_s;
        Group 2 (Alt (lit true "*") (plus re_w));
        Star true re_s; lit true ")";
        opt (seqs [plus re_s; lit true "AS"; plus re_s; Group 3 (plus re_w)])].

(** [/FROM\s+(\w+)/i] *)
Definition re_from : regex :=
  seqs [lit true "FROM"; plus re_s; Group 1 (plus re_w)].

(** [/WHERE\s+(.*?)(?:\s+GROUP BY|\s+ORDER BY|\s+LIMIT|$)/i] *)
Definition re_where : regex :=
  seqs [lit true "WHERE"; plus re_s; Group 1 (Star false re_dot);
        alts (Seq (plus re_s) (lit true "GROUP BY"))
          [Seq (plus re_s) (lit true "ORDER BY");
           Seq (plus re_s) (lit true "LIMIT");
           EndOfInput]].

(** [/GROUP BY\s+([\w]+)/i] *)
Definition re_group_by : regex :=
  seqs [lit true "GROUP BY"; plus re_s; Group 1 (plus re_w)].

(** [/ORDER BY\s+([\w]+)(?:\s+(ASC|DESC))?/i] *)
Definition re_order_by : regex :=
  seqs [lit true "ORDER BY"; plus re_s; Group 1 (plus re_w);
        opt (Seq (plus re_s) (Group 2 (Alt (lit true "ASC") (lit true "DESC"))))].

(** [/LIMIT\s+(\d+)/i] *)
Definition re_limit : regex :=
  seqs [lit true "LIMIT"; plus re_s; Group 1 (plus re_d)].

(** The pattern of a condition, case sensitive: group 1 is [[\w]+], then
    [\s*], group 2 is [=|>|<|>=|<=|!=], then [\s*], group 3 is an optional
    single or double quote, group 4 is the lazy [.*?], and [\3] closes. *)
Definition re_condition : regex :=
  seqs [Group 1 (plus re_w); Star true re_s;
        Group 2 (alts (lit false "=")
                   [lit false ">"; lit false "<"; lit false ">="; lit false "<=";
                    lit false "!="]);
        Star true re_s;
        Group 3 (opt (Char (fun c => Ascii.eqb c "'" || Ascii.eqb c double_quote)));
        Group 4 (Star false re_dot);
        Backref 3].

(** A group of a match that is used as a string. *)
Definition group_str (m : captures) (n : nat) : string := default "" (group m n).

(** ** [parseWhere] *)

Definition parseWhere (whereClause : string) : outcome predicate :=
  match match_ false re_condition whereClause with
  | None => Throw (Error "Invalid WHERE clause")
  | Some m =>
      let v := group_str m 4 in
      Return {| ColumnStore.p_column := group_str m 1;
                ColumnStore.p_operator := group_str m 2;
                ColumnStore.p_value :=
                  if negb (isNaN (VStr v)) then VNum (parseFloat v) else VStr v |}
  end.

(** ** [parse] *)

(** One item of the SELECT list: an aggregate, or else a column. *)
Definition parse_select_item (q : list string * list aggregate_spec) (col : string)
  : list string * list aggregate_spec :=
  match match_ true re_aggregate col with
  | Some m =>
      (fst q,
       snd q ++ [{| ColumnStore.agg_function := toUpperCase (group_str m 1);
                    ColumnStore.agg_column := group_str m 2;
                    ColumnStore.agg_alias :=
                      match group m 3 with
                      | Some a => if String.eqb a "" then None else Some a
                      | None => None
                      end |}])
  | None => (fst q ++ [col], snd q)
  end.

(** [sql.trim().replace(/\s+/g, ' ')] *)
Definition normalize (sql : string) : string :=
  replace_all false re_spaces " " (trim sql).

Definition parse (sql : string) : outcome query :=
  let sql := normalize sql in
  if negb (startsWith (toUpperCase sql) "SELECT") then
    Throw (Error "Only SELECT queries are supported")
  else
    match match_ true re_select sql with
    | None => Throw (Error "Invalid SELECT syntax")
    | Some selectMatch =>
        let selectClause := trim (group_str selectMatch 1) in
        let '(cols, aggs) :=
          if String.eqb selectClause "*" then (["*"], [])
          else fold_left parse_select_item
                 (map trim (split "," selectClause)) ([], []) in
        match match_ true re_from sql with
        | None => Throw (Error "FROM clause is required")
        | Some fromMatch =>
            w <~ match match_ true re_where sql with
                 | Some whereMatch =>
                     p <~ parseWhere (trim (group_str whereMatch 1));;
                     Return (Some p)
                 | None => Return None
                 end;;
            Return
              {| q_type := "SELECT";
                 q_table := group_str fromMatch 1;
                 q_columns := cols;
                 q_where := w;
                 q_groupBy :=
                   match match_ true re_group_by sql with
                   | Some m => Some (group_str m 1)
                   | None => None
                   end;
                 q_orderBy :=
                   match match_ true re_order_by sql with
                   | Some m =>
                       Some {| ob_column := group_str m 1;
                               ob_direction :=
                                 match group m 2 with
                                 | Some d => if String.eqb d "" then "ASC"
                                             else toUpperCase d
                                 | None => "ASC"
                                 end |}
                   | None => None
                   end;
                 q_limit :=
                   match match_ true re_limit sql with
                   | Some m => Some (parseInt (group_str m 1))
                   | None => None
                   end;
                 q_aggregates := aggs |}
        end
    end.

(** ** [createExecutionPlan] *)

Definition createExecutionPlan (q : query) : list plan_step :=
  let steps :=
    [{| step := 1; operation := "Table Scan"; target := VStr (q_table q);
        description := "Scan table " +:+ q_table q; cost := "O(n)" |}] in
  let steps :=
    match q_where q with
    | Some w =>
        steps ++
        [{| step := 2; operation := "Filter";
            target := VStr (ColumnStore.p_column w +:+ " " +:+
                            ColumnStore.p_operator w +:+ " " +:+
                            ToString (ColumnStore.p_value w));
            description := "Apply predicate pushdown"; cost := "O(n)" |}]
    | None => steps
    end in
  let steps :=
    match q_aggregates q with
    | _ :: _ =>
        steps ++
        [{| step := length steps + 1; operation := "Aggregate";
            target :=
              VStr (join ", "
                      (map (fun a => ColumnStore.agg_function a +:+ "(" +:+
                                     ColumnStore.agg_column a +:+ ")")
                         (q_aggregates q)));
            description :=
              match ColumnStore.grouping (q_groupBy q) with
              | Some g => "Group by " +:+ g
              | None => "Compute aggregates"
              end;
            cost :=
              match ColumnStore.grouping (q_groupBy q) with
              | Some _ => "O(n log n)"
              | None => "O(n)"
              end |}]
    | [] => steps
    end in
  let steps :=
    match q_orderBy q with
    | Some o =>
        steps ++
        [{| step := length steps + 1; operation := "Sort";
            target := VStr (ob_column o +:+ " " +:+ ob_direction o);
            description := "Sort results"; cost := "O(n log n)" |}]
    | None => steps
    end in
  let steps :=
    match q_limit q with
    | Some n =>
        if ToBoolean (VNum n) then
          steps ++
          [{| step := length steps + 1; operation := "Limit"; target := VNum n;
              description := "Return first " +:+ NumberToString n +:+ " rows";
              cost := "O(1)" |}]
        else steps
    | None => steps
    end in
  steps ++
  [{| step := length steps + 1; operation := "Projection";
      target := VStr (join ", " (q_columns q));
      description := "Project selected columns"; cost := "O(m)" |}].

(** ** [applyOrderBy] and [executeQuery] *)

(** The comparator handed to [sort]. *)
Definition compare_rows (orderBy : order_by) (a b : object) : Z :=
  let aVal := prop a (ob_column orderBy) in
  let bVal := prop b (ob_column orderBy) in
  let asc := String.eqb (ob_direction orderBy) "ASC" in
  if js_lt aVal bVal then (if asc then -1 else 1)
  else if js_gt aVal bVal then (if asc then 1 else -1)
  else 0.

Definition applyOrderBy (rows : list object) (orderBy : order_by) : list object :=
  sort (compare_rows orderBy) rows.

(** A method of the store called from the engine. *)
Definition on_store {A} (m : M ColumnStore.store A) : M engine A :=
  fun e =>
    let '(r, s') := m (store e) in
    (r, {| store := s'; queryHistory := queryHistory e |}).

(** The first half of [executeQuery]: the rows of the store, through
    [aggregate] when the query has aggregates and through [scan] when not. *)
Definition fetch (clk : clock) (q : query) : M engine query_result :=
    match q_aggregates q with
    | _ :: _ =>
        r <- on_store (ColumnStore.aggregate clk (q_table q) (q_aggregates q)
                         (q_groupBy q) (q_where q));;
        ret {| res_data := ColumnStore.agg_data r;
               res_metadata := AggregateMetadata (ColumnStore.agg_meta r) |}
    | [] =>
        let cols :=
          match q_columns q with
          | c :: _ => if String.eqb c "*" then None else Some (q_columns q)
          | [] => Some (q_columns q)
          end in
        r <- on_store (ColumnStore.scan clk (q_table q) cols (q_where q));;
        ret {| res_data := ColumnStore.scan_data r;
               res_metadata := ScanMetadata (ColumnStore.scan_meta r) |}
    end.

Definition executeQuery (clk : clock) (q : query) : M engine query_result :=
  result <- fetch clk q;;
  let rows := res_data result in
  let rows :=
    match q_orderBy q with
    | Some o => applyOrderBy rows o
    | None => rows
    end in
  let rows :=
    match q_limit q with
    | Some n => if ToBoolean (VNum n) then slice_to n rows else rows
    | None => rows
    end in
  ret {| res_data := rows; res_metadata := res_metadata result |}.

(** ** [execute] and the history *)

Definition push_history (x : execution) : M engine unit :=
  e <- get;;
  put {| store := store e; queryHistory := queryHistory e ++ [x] |}.

Definition execute (clk : clock) (sql : string) : M engine execute_result :=
  try_catch
    (q <- lift (parse sql);;
     let executionPlan := createExecutionPlan q in
     result <- executeQuery clk q;;
     let x :=
       {| ex_sql := sql; ex_timestamp := clk_date clk;
          executionTime := toFixed2 (clk_total clk) +:+ "ms";
          rowsAffected := Some (length (res_data result));
          ex_error := None; success := true;
          executionPlan := Some executionPlan |} in
     push_history x;;
     ret {| out_data := res_data result; out_metadata := res_metadata result;
            out_execution := x |})
    (fun err =>
       push_history
         {| ex_sql := sql; ex_timestamp := clk_date clk;
            executionTime := toFixed2 (clk_total clk) +:+ "ms";
            rowsAffected := None;
            ex_error := Some (message err); success := false;
            executionPlan := None |};;
       throw err).

(** [getHistory(limit)]; without an argument [limit] is 10. *)
Definition getHistory (limit : option Z) : M engine (list execution) :=
  e <- get;;
  ret (rev (slice_from (- default 10 limit) (queryHistory e))).

Definition clearHistory : M engine unit :=
  e <- get;;
  put {| store := store e; queryHistory := [] |}.

End QueryEngine.

(** * Vocabulary of the statements *)

Module Spec.
Import Js.

(** ** The order of doubles

    A double that is not [NaN] has a rank: the sign class, then the
    exponent, then the mantissa.  [SFcompare] compares ranks. *)
Definition num_rank (x : number) : Z * Z * Z :=
  match x with
  | S754_nan | S754_zero _ => (0, 0, 0)
  | S754_infinity s => (if s then -2 else 2, 0, 0)
  | S754_finite s m e => if s then (-1, - e, Zneg m) else (1, e, Zpos m)
  end.

Definition rank_compare (a b : Z * Z * Z) : comparison :=
  match fst (fst a) ?= fst (fst b) with
  | Eq =>
      match snd (fst a) ?= snd (fst b) with
      | Eq => snd a ?= snd b
      | c => c
      end
  | c => c
  end.

(** ** Keys that compare consistently

    [<] is a strict order with transitive ties on the values that are
    compared as numbers and are not [NaN], and on the strings. *)
Definition numeric (v : value) : bool :=
  match v with
  | VStr _ | VObj _ => false
  | _ => negb (num_is_nan (ToNumber v))
  end.

Definition is_string (v : value) : bool :=
  match v with VStr _ => true | _ => false end.

Definition comparable_keys (column_ : string) (rows : list object) : Prop :=
  Forall (fun r => numeric (prop r column_) = true) rows \/
  Forall (fun r => is_string (prop r column_) = true) rows.

(** [out_of_order o a b]: the order asked for puts [b] strictly before
    [a]; with direction ["ASC"] the key of [b] is below that of [a], with
    any other direction above. *)
Definition out_of_order (o : QueryEngine.order_by) (a b : object) : bool :=
  if String.eqb (QueryEngine.ob_direction o) "ASC"
  then js_lt (prop b (QueryEngine.ob_column o)) (prop a (QueryEngine.ob_column o))
  else js_lt (prop a (QueryEngine.ob_column o)) (prop b (QueryEngine.ob_column o)).

(** Two rows tie when neither is out of order against the other. *)
Definition tie (o : QueryEngine.order_by) (a b : object) : bool :=
  negb (out_of_order o a b) && negb (out_of_order o b a).

(** ** Tables *)

Definition table_of (s : ColumnStore.store) (name : string) : option ColumnStore.table :=
  JsMap.get String.eqb (ColumnStore.tables s) name.

Definition column_of (t : ColumnStore.table) (name : string) : option ColumnStore.column :=
  JsMap.get String.eqb (ColumnStore.columns t) name.

Definition schema_names (t : ColumnStore.table) : list string :=
  map ColumnStore.s_name (ColumnStore.schema t).

(** The entry of a schema for a column name: the first of that name. *)
Definition schema_entry_of (sch : list ColumnStore.schema_entry) (name : string)
  : option ColumnStore.schema_entry :=
  find (fun e => String.eqb (ColumnStore.s_name e) name) sch.

(** The schema names each column once, and the columns are those of the
    schema. *)
Definition well_formed (t : ColumnStore.table) : Prop :=
  NoDup (schema_names t) /\
  forall name, name ∈ schema_names t <-> is_Some (column_of t name).


(** What a column becomes when the cells [vs] are inserted one by one. *)
Definition insert_cells (type : string) (c : ColumnStore.column) (vs : list value)
  : ColumnStore.column :=
  fold_left (ColumnStore.insert_value type) vs c.

(** The fields of the rows under one column name. *)
Definition field_values (name : string) (rows : list object) : list value :=
  map (fun r => prop r name) rows.

(** The columns after the loop over the schema for one row, and after the
    loop over the rows, when every schema entry has its column. *)
Definition fields_inserted (row : object) (sch : list ColumnStore.schema_entry)
    (cols : list (string * ColumnStore.column)) : list (string * ColumnStore.column) :=
  fold_left
    (fun cols e =>
       match JsMap.get String.eqb cols (ColumnStore.s_name e) with
       | Some c =>
           JsMap.set String.eqb cols (ColumnStore.s_name e)
             (ColumnStore.insert_value (ColumnStore.s_type e) c
                (prop row (ColumnStore.s_name e)))
       | None => cols
       end)
    sch cols.

Definition rows_inserted (rows : list object) (sch : list ColumnStore.schema_entry)
    (cols : list (string * ColumnStore.column)) : list (string * ColumnStore.column) :=
  fold_left (fun cols row => fields_inserted row sch cols) rows cols.

(** The table that [createTable] builds. *)
Definition created_table (created_at modified_at : time) (tableName : string)
    (sch : list ColumnStore.schema_entry) : ColumnStore.table :=
  {| ColumnStore.tbl_name := tableName;
     ColumnStore.schema := sch;
     ColumnStore.columns :=
       fold_left
         (fun cols col =>
            JsMap.set String.eqb cols (ColumnStore.s_name col) (ColumnStore.new_column col))
         sch [];
     ColumnStore.rowCount := 0;
     ColumnStore.metadata :=
       {| ColumnStore.created := created_at;
          ColumnStore.lastModified := modified_at;
          ColumnStore.compressionRatio := VNum (S754_zero false);
          ColumnStore.totalSize := 0 |} |}.

(** Every entry of the schema has a column of its name. *)
Definition all_columns_exist (sch : list ColumnStore.schema_entry)
    (cols : list (string * ColumnStore.column)) : Prop :=
  forall e, e ∈ sch -> is_Some (JsMap.get String.eqb cols (ColumnStore.s_name e)).

(** The table after [insert] has taken [rows]. *)
Definition inserted (clk : ColumnStore.clock) (t : ColumnStore.table)
    (rows : list object) : ColumnStore.table :=
  let cols := rows_inserted rows (ColumnStore.schema t) (ColumnStore.columns t) in
  {| ColumnStore.tbl_name := ColumnStore.tbl_name t;
     ColumnStore.schema := ColumnStore.schema t;
     ColumnStore.columns := cols;
     ColumnStore.rowCount := (length rows + ColumnStore.rowCount t)%nat;
     ColumnStore.metadata :=
       {| ColumnStore.created := ColumnStore.created (ColumnStore.metadata t);
          ColumnStore.lastModified := ColumnStore.clk_date clk;
          ColumnStore.compressionRatio := VStr (ColumnStore.compression_ratio cols);
          ColumnStore.totalSize := ColumnStore.compressed_size cols |} |}.

Definition is_null_value (v : value) : bool :=
  strict_eq v VNull || strict_eq v VUndefined.

(** A column that holds nothing. *)
Definition empty_column (c : ColumnStore.column) : Prop :=
  ColumnStore.data c = [] /\ ColumnStore.nullBitmap c = [] /\
  (ColumnStore.dictionary c = None \/ ColumnStore.dictionary c = Some []).

(** ** Dictionary coding

    A sequence of insertions into a string column: [Some s] is the
    string [s], [None] is [null]. *)
Definition cell_of (o : option string) : value :=
  match o with Some s => VStr s | None => VNull end.

Definition known (s : string) (seen : list string) : bool :=
  existsb (fun x => String.eqb x s) seen.

(** The distinct strings of a sequence, in the order they are first
    seen. *)
Definition first_seen (vs : list (option string)) : list string :=
  fold_left
    (fun seen o =>
       match o with
       | Some s => if known s seen then seen else seen ++ [s]
       | None => seen
       end)
    vs [].

(** The place of a string among the strings seen, counted from 0. *)
Fixpoint index_of (s : string) (seen : list string) : nat :=
  match seen with
  | [] => O
  | x :: seen' => if String.eqb x s then O else S (index_of s seen')
  end.

(** The dictionary that gives each string its place as its code, from
    [n] on. *)
Fixpoint codes_from (n : nat) (seen : list string) : list (value * number) :=
  match seen with
  | [] => []
  | x :: seen' => (VStr x, num_of_nat n) :: codes_from (S n) seen'
  end.

Definition codes (seen : list string) : list (value * number) := codes_from 0 seen.

(** The cell stored for an insertion: the code of the string, [null]
    for [null]. *)
Definition coded_cell (seen : list string) (o : option string) : value :=
  match o with
  | Some s => VNum (num_of_nat (index_of s seen))
  | None => VNull
  end.

(** ** Groups and aggregates *)

(** The class of a [Map] key: two values are the same key when they have
    the same class.  The two zeros are one key, and so is [NaN]. *)
Inductive key_class_of :=
| KUndefined
| KNull
| KBool (b : bool)
| KNaN
| KNum (rank : Z * Z * Z)
| KStr (s : string)
| KObj (h : host_object).

Definition key_class (v : value) : key_class_of :=
  match v with
  | VUndefined => KUndefined
  | VNull => KNull
  | VBool b => KBool b
  | VNum n => if num_is_nan n then KNaN else KNum (num_rank n)
  | VStr s => KStr s
  | VObj h => KObj h
  end.

(** The distinct group keys of the rows, in the order of their first
    occurrence, each as the [Map] keeps it. *)
Definition group_keys (groupBy : string) (rows : list object) : list value :=
  fold_left
    (fun ks r =>
       if existsb (fun k => same_value_zero k (prop r groupBy)) ks then ks
       else ks ++ [map_key (prop r groupBy)])
    rows [].

(** The rows of one group, in the order they come. *)
Definition group_of (groupBy : string) (k : value) (rows : list object) : list object :=
  List.filter (fun r => same_value_zero k (prop r groupBy)) rows.

(** The values of a column that are not [null], and the rows that have
    one. *)
Definition non_null (column_ : string) (rows : list object) : list value :=
  List.filter (fun v => negb (strict_eq v VNull)) (field_values column_ rows).

Definition with_value (column_ : string) (rows : list object) : list object :=
  List.filter (fun r => negb (strict_eq (prop r column_) VNull)) rows.

(** [m] is one of [nums] and none is below it; none is above it. *)
Definition is_minimum (m : number) (nums : list number) : Prop :=
  In m nums /\ forall x, In x nums -> num_ltb x m = false.

Definition is_maximum (m : number) (nums : list number) : Prop :=
  In m nums /\ forall x, In x nums -> num_ltb m x = false.

(** The smaller and the larger of a number kept so far and a new one;
    the one kept stays on a tie. *)
Definition lower (a x : number) : number := if num_ltb x a then x else a.
Definition upper_of (a x : number) : number := if num_ltb a x then x else a.

(** The function names that [computeAggregate] knows, in any letter
    case. *)
Definition known_function (func : string) : Prop :=
  In (toUpperCase func) ["COUNT"; "SUM"; "AVG"; "MIN"; "MAX"].

(** The result row of a group with one aggregate. *)
Definition group_result (groupBy : string) (k : value) (agg : ColumnStore.aggregate_spec)
    (v : value) : object :=
  <[ColumnStore.result_key agg := v]> (<[groupBy := k]> (∅ : gmap string value)).

(** ** Scans *)

(** The value that [scan] shows for row [i] of a column: [null] under a
    set flag, the cell decoded otherwise. *)
Definition shown (c : ColumnStore.column) (i : nat) : value :=
  if ColumnStore.is_null c i then VNull else ColumnStore.cell_value c i.

(** Row [i] passes the predicate: its value in the column of the
    predicate is not null and stands in the relation of the operator to
    the value of the predicate; an operator that is none of the six
    passes every value that is not null. *)
Definition row_matches (t : ColumnStore.table) (p : ColumnStore.predicate) (i : nat) : bool :=
  match column_of t (ColumnStore.p_column p) with
  | Some c =>
      negb (ColumnStore.is_null c i) &&
      ColumnStore.test_operator (ColumnStore.p_operator p)
        (ColumnStore.cell_value c i) (ColumnStore.p_value p)
  | None => false
  end.

(** The rows that a scan returns, by their numbers, in order. *)
Definition matching_rows (t : ColumnStore.table) (pred : option ColumnStore.predicate)
  : list nat :=
  List.filter
    (fun i => match pred with Some p => row_matches t p i | None => true end)
    (seq 0 (ColumnStore.rowCount t)).

(** Row [i] over the selected columns, when the table has them all. *)
Definition row_at (t : ColumnStore.table) (selected : list string) (i : nat) : object :=
  fold_left
    (fun row colName =>
       match column_of t colName with
       | Some c => <[colName := shown c i]> row
       | None => row
       end)
    selected (∅ : gmap string value).

(** The columns a scan reads: the ones asked for, or all of the table
    in the order of their creation. *)
Definition selected_columns (t : ColumnStore.table) (cols : option (list string))
  : list string :=
  match cols with
  | Some cs => cs
  | None => JsMap.keys (ColumnStore.columns t)
  end.

(** The rows that [aggregate] reads: the rows that pass the predicate,
    over all the columns of the table. *)
Definition scanned_rows (t : ColumnStore.table) (pred : option ColumnStore.predicate)
  : list object :=
  map (row_at t (JsMap.keys (ColumnStore.columns t))) (matching_rows t pred).

(** ** Patterns *)

(** The numbers of the groups of a pattern. *)
Fixpoint groups_in (r : regex) : list nat :=
  match r with
  | Empty | Char _ | Backref _ | EndOfInput => []
  | Seq r1 r2 | Alt r1 r2 => groups_in r1 ++ groups_in r2
  | Star _ r1 => groups_in r1
  | Group n r1 => n :: groups_in r1
  end.

(** Captures that are all of groups of the pattern. *)
Definition from_groups (r : regex) (new : captures) : Prop :=
  Forall (fun p => In (fst p) (groups_in r)) new.

(** A single or a double quote. *)
Definition is_quote (c : ascii) : bool :=
  Ascii.eqb c "'" || Ascii.eqb c QueryEngine.double_quote.

(** What a match is handed to when the pattern is through. *)
Definition accept : continuation := fun s cs => Some (s, cs).

(** The operators of a condition, as the pattern lists them, and what
    stands behind the operator in the pattern. *)
Definition re_operator : regex :=
  alts (lit false "=")
    [lit false ">"; lit false "<"; lit false ">="; lit false "<="; lit false "!="].

Definition re_value : regex :=
  seqs [Star true re_s;
        Group 3 (opt (Char (fun c => Ascii.eqb c "'" || Ascii.eqb c QueryEngine.double_quote)));
        Group 4 (Star false re_dot);
        Backref 3].

(** ** Queries *)

(** The query with its [limit] set to [null]. *)
Definition without_limit (q : QueryEngine.query) : QueryEngine.query :=
  {| QueryEngine.q_type := QueryEngine.q_type q;
     QueryEngine.q_table := QueryEngine.q_table q;
     QueryEngine.q_columns := QueryEngine.q_columns q;
     QueryEngine.q_where := QueryEngine.q_where q;
     QueryEngine.q_groupBy := QueryEngine.q_groupBy q;
     QueryEngine.q_orderBy := QueryEngine.q_orderBy q;
     QueryEngine.q_limit := None;
     QueryEngine.q_aggregates := QueryEngine.q_aggregates q |}.

(** [occurs ic w s]: the word [w] stands somewhere in [s]; [ic] is for
    any letter case. *)
Fixpoint occurs (ic : bool) (w s : list ascii) : bool :=
  match strip ic w s with
  | Some _ => true
  | None =>
      match s with
      | [] => false
      | _ :: s' => occurs ic w s'
      end
  end.

(** The digits of the LIMIT clause that [parse] finds in a statement. *)
Definition limit_text (sql : string) : option string :=
  (fun m => QueryEngine.group_str m 1) <$>
  match_ true QueryEngine.re_limit (QueryEngine.normalize sql).

End Spec.

(** * Concrete tables and rows for the examples *)

Module Fixtures.
Import Js ColumnStore.

Definition clk0 : clock :=
  {| clk_date := 1700000000000;
     clk_insert := num_of_Z 1;
     clk_scan := num_of_Z 1;
     clk_aggregate := num_of_Z 1;
     clk_total := num_of_Z 2 |}.

Definition num (z : Z) : value := VNum (num_of_Z z).

Definition column_def (name type : string) : schema_entry :=
  {| s_name := name; s_type := type |}.

(** A table [t] with a string column [d] and an integer column [v]. *)
Definition dv_schema : list schema_entry :=
  [column_def "d" "string"; column_def "v" "integer"].

Definition dv_rows : list object :=
  [ {[ "d" := VStr "X"; "v" := num 10 ]};
    {[ "d" := VStr "X"; "v" := num 20 ]};
    {[ "d" := VStr "Y"; "v" := num 5 ]} ].

Definition dv_table : table := Spec.created_table 0 0 "t" dv_schema.
Definition dv_created : store := snd (createTable 0 0 "t" dv_schema constructor).
Definition dv_store : store := snd (insert clk0 "t" dv_rows dv_created).



(** A table [t] with one integer column [v] holding 3, 1, 2, and an
    engine on it. *)
Definition v_rows : list object :=
  [ {[ "v" := num 3 ]}; {[ "v" := num 1 ]}; {[ "v" := num 2 ]} ].

Definition v_store : store :=
  snd (insert clk0 "t" v_rows
         (snd (createTable 0 0 "t" [column_def "v" "integer"] constructor))).

Definition v_engine : QueryEngine.engine := QueryEngine.constructor v_store.

(** A table [people] with a string column [name] and an integer column
    [age]: five rows with the ages 20 to 60, and a sixth without an age. *)
Definition people_schema : list schema_entry :=
  [column_def "name" "string"; column_def "age" "integer"].

Definition people_rows : list object :=
  [ {[ "name" := VStr "Ann"; "age" := num 20 ]};
    {[ "name" := VStr "Bob"; "age" := num 30 ]};
    {[ "name" := VStr "Cy"; "age" := num 40 ]};
    {[ "name" := VStr "Di"; "age" := num 50 ]};
    {[ "name" := VStr "Ed"; "age" := num 60 ]} ].

Definition people_table : table := Spec.created_table 0 0 "people" people_schema.
Definition people_created : store :=
  snd (createTable 0 0 "people" people_schema constructor).
Definition people_store : store := snd (insert clk0 "people" people_rows people_created).
Definition people_engine : QueryEngine.engine := QueryEngine.constructor people_store.

Definition ageless_rows : list object := [ {[ "name" := VStr "Fay" ]} ].
Definition ageless_store : store := snd (insert clk0 "people" ageless_rows people_store).

Definition people_filled : table := Spec.inserted clk0 people_table people_rows.
Definition people_ageless : table := Spec.inserted clk0 people_filled ageless_rows.

Definition age_above (v : value) : predicate :=
  {| p_column := "age"; p_operator := ">"; p_value := v |}.

(** A table [n] with a string column [name] holding b, null, a. *)
Definition names_rows : list object :=
  [ {[ "name" := VStr "b" ]}; {[ "name" := VNull ]}; {[ "name" := VStr "a" ]} ].

Definition names_store : store :=
  snd (insert clk0 "n" names_rows
         (snd (createTable 0 0 "n" [column_def "name" "string"] constructor))).

Definition names_engine : QueryEngine.engine := QueryEngine.constructor names_store.

(** A table [t] whose one column is named [constructor], and a row that
    has no such field. *)
Definition ctor_schema : list schema_entry := [column_def "constructor" "integer"].
Definition ctor_rows : list object := [ {[ "id" := num 1 ]} ].
Definition ctor_created : store := snd (createTable 0 0 "t" ctor_schema constructor).
Definition ctor_store : store := snd (insert clk0 "t" ctor_rows ctor_created).

End Fixtures.

(** * Doubles: the integers below 2^53, and the order *)

(** [SpecFloat] is stated with the integer operations of the core
    library; they are those of [ZArith]. *)
Ltac intdef :=
  change IntDef.Z.sub with Z.sub in *; change IntDef.Z.add with Z.add in *;
  change IntDef.Z.max with Z.max in *; change IntDef.Z.min with Z.min in *;
  change IntDef.Z.leb with Z.leb in *; change IntDef.Z.compare with Z.compare in *;
  change IntDef.Z.mul with Z.mul in *; change IntDef.Z.opp with Z.opp in *.

Section Numbers.
Import Js Spec.

Lemma digits2_pos_iter_xO (p : positive) (k : positive) :
  digits2_pos (Pos.iter xO p k) = (digits2_pos p + k)%positive.
Proof.
  revert p. induction k using Pos.peano_ind; intros p.
  - simpl. lia.
  - rewrite Pos.iter_succ. simpl. rewrite IHk. lia.
Qed.

Lemma Zpos_iter_xO (p k : positive) :
  Zpos (Pos.iter xO p k) = Zpos p * 2 ^ Zpos k.
Proof.
  revert p. induction k using Pos.peano_ind; intros p.
  - simpl. lia.
  - rewrite Pos.iter_succ. rewrite Pos2Z.inj_xO, IHk.
    rewrite Pos2Z.inj_succ, Z.pow_succ_r by lia. lia.
Qed.

Lemma digits2_pos_lower (p : positive) :
  2 ^ (Zpos (digits2_pos p) - 1) <= Zpos p.
Proof.
  induction p; simpl digits2_pos.
  - rewrite Pos2Z.inj_succ. replace (Z.succ (Zpos (digits2_pos p)) - 1) with (Z.succ (Zpos (digits2_pos p) - 1)) by lia.
    rewrite Z.pow_succ_r by lia. lia.
  - rewrite Pos2Z.inj_succ. replace (Z.succ (Zpos (digits2_pos p)) - 1) with (Z.succ (Zpos (digits2_pos p) - 1)) by lia.
    rewrite Z.pow_succ_r by lia. lia.
  - simpl. lia.
Qed.

Lemma digits2_pos_upper (p : positive) :
  Zpos p < 2 ^ Zpos (digits2_pos p).
Proof.
  induction p; simpl digits2_pos.
  - rewrite Pos2Z.inj_succ, Z.pow_succ_r by lia. lia.
  - rewrite Pos2Z.inj_succ, Z.pow_succ_r by lia. lia.
  - simpl. lia.
Qed.

Lemma digits2_pos_small (p : positive) :
  Zpos p < 2 ^ 53 -> Zpos (digits2_pos p) <= 53.
Proof.
  intros H. pose proof (digits2_pos_lower p) as L.
  destruct (Z_le_gt_dec (Zpos (digits2_pos p)) 53) as [|G]; [assumption|].
  exfalso.
  assert (2 ^ 53 <= 2 ^ (Zpos (digits2_pos p) - 1)) by (apply Z.pow_le_mono_r; lia).
  lia.
Qed.

Lemma binary_round_aux_exact (m : positive) (e : Z) :
  Zpos (digits2_pos m) = 53 -> -1074 <= e <= 971 ->
  binary_round_aux prec emax false (Zpos m) e loc_Exact = S754_finite false m e.
Proof.
  intros D E.
  assert (F : fexp prec emax (Zdigits2 (Zpos m) + e) - e = 0).
  { unfold fexp, emin, prec, emax. intdef. simpl Zdigits2. rewrite D. lia. }
  unfold binary_round_aux, shr_fexp. intdef.
  rewrite F. cbn [shr shr_record_of_loc shr_m shr_r shr_s loc_of_shr_record round_nearest_even].
  rewrite F. cbn [shr shr_record_of_loc shr_m].
  destruct (Z.leb_spec e (emax - prec)) as [_|G]; [reflexivity|].
  unfold emax, prec in G. lia.
Qed.

(** The double of a positive integer below 2^53: the integer itself,
    shifted to 53 bits. *)
Lemma num_of_Z_normal (p : positive) :
  Zpos p < 2 ^ 53 ->
  num_of_Z (Zpos p) =
  S754_finite false
    (Z.to_pos (Zpos p * 2 ^ (53 - Zpos (digits2_pos p))))
    (Zpos (digits2_pos p) - 53).
Proof.
  intros H. pose proof (digits2_pos_small p H) as D.
  unfold num_of_Z, binary_normalize, binary_round.
  assert (F : fexp prec emax (Zpos (digits2_pos p) + 0) = Zpos (digits2_pos p) - 53).
  { unfold fexp, emin, prec, emax. intdef. lia. }
  intdef. rewrite F. unfold shl_align. intdef. rewrite Z.sub_0_r.
  destruct (Zpos (digits2_pos p) - 53) as [|q|q] eqn:Q; try lia.
  - replace (53 - Zpos (digits2_pos p)) with 0 by lia.
    rewrite Z.mul_1_r. simpl Z.to_pos.
    apply binary_round_aux_exact; lia.
  - replace (53 - Zpos (digits2_pos p)) with (Zpos q) by lia.
    rewrite <- Zpos_iter_xO. simpl Z.to_pos.
    apply binary_round_aux_exact; [|lia].
    rewrite digits2_pos_iter_xO. lia.
Qed.

Lemma num_of_Z_fraction (z : Z) :
  0 <= z < 2 ^ 53 ->
  let '(p, q) := num_fraction (num_of_Z z) in 0 < q /\ p = z * q.
Proof.
  intros [L H]. destruct z as [|p|p]; try lia.
  - simpl. lia.
  - rewrite (num_of_Z_normal p H).
    pose proof (digits2_pos_small p H) as D.
    unfold num_fraction.
    destruct (Z.leb_spec 0 (Zpos (digits2_pos p) - 53)) as [G|G].
    + replace (Zpos (digits2_pos p) - 53) with 0 by lia.
      replace (53 - Zpos (digits2_pos p)) with 0 by lia.
      split; [lia|]. rewrite Z2Pos.id; lia.
    + replace (- (Zpos (digits2_pos p) - 53)) with (53 - Zpos (digits2_pos p)) by lia.
      assert (0 < 2 ^ (53 - Zpos (digits2_pos p))) by (apply Z.pow_pos_nonneg; lia).
      split; [assumption|]. rewrite Z2Pos.id; nia.
Qed.

(** Distinct integers below 2^53 are distinct doubles. *)
Lemma num_of_Z_inj (a b : Z) :
  0 <= a < 2 ^ 53 -> 0 <= b < 2 ^ 53 -> num_of_Z a = num_of_Z b -> a = b.
Proof.
  intros Ha Hb E.
  pose proof (num_of_Z_fraction a Ha) as Fa.
  pose proof (num_of_Z_fraction b Hb) as Fb.
  rewrite E in Fa. destruct (num_fraction (num_of_Z b)) as [p q].
  destruct Fa as [Q Pa], Fb as [_ Pb]. nia.
Qed.

Lemma num_of_nat_eqb (i j : nat) :
  Z.of_nat i < 2 ^ 53 -> Z.of_nat j < 2 ^ 53 ->
  num_eqb (num_of_nat i) (num_of_nat j) = Nat.eqb i j.
Proof.
  intros Hi Hj. destruct (Nat.eqb_spec i j) as [->|N].
  - unfold num_of_nat. destruct (Z.of_nat j) as [|p|p] eqn:E; try lia.
    + reflexivity.
    + rewrite (num_of_Z_normal p Hj). unfold num_eqb, SFeqb, SFcompare. intdef.
      rewrite Z.compare_refl, Pos.compare_cont_refl. reflexivity.
  - destruct (num_eqb (num_of_nat i) (num_of_nat j)) eqn:E; [|reflexivity].
    exfalso. apply N. apply Nat2Z.inj. apply num_of_Z_inj; try lia.
    unfold num_of_nat in E.
    destruct (Z.of_nat i) as [|p|p] eqn:Ei; destruct (Z.of_nat j) as [|q|q] eqn:Ej;
      try lia; try reflexivity.
    + rewrite (num_of_Z_normal q Hj) in E. discriminate E.
    + rewrite (num_of_Z_normal p Hi) in E. discriminate E.
    + rewrite (num_of_Z_normal p Hi), (num_of_Z_normal q Hj) in E |- *.
      unfold num_eqb, SFeqb, SFcompare in E. intdef.
      destruct (Z.compare_spec (Zpos (digits2_pos p) - 53) (Zpos (digits2_pos q) - 53)) as [Ee|Ee|Ee];
        try discriminate E.
      rewrite Ee.
      destruct (Pos.compare_cont Eq _ _) eqn:C; try discriminate E.
      apply Pos.compare_eq in C. rewrite C. reflexivity.
Qed.

(** ** The order of doubles *)

Lemma SFcompare_rank (x y : number) :
  num_is_nan x = false -> num_is_nan y = false ->
  SFcompare x y = Some (rank_compare (num_rank x) (num_rank y)).
Proof.
  intros Hx Hy.
  destruct x as [sx|sx| |sx mx ex]; try discriminate Hx;
    destruct y as [sy|sy| |sy my ey]; try discriminate Hy;
    try (destruct sx; reflexivity); try (destruct sy; reflexivity);
    try (destruct sx, sy; reflexivity).
  unfold SFcompare, rank_compare. intdef.
  destruct sx, sy; cbn [num_rank fst snd]; try reflexivity.
  change (-1 ?= -1) with Eq. cbv iota.
  rewrite Z.compare_opp, (Z.compare_antisym ex ey).
  destruct (ex ?= ey) eqn:C; cbn [CompOpp]; reflexivity.
Qed.

Lemma rank_compare_lt_trans (a b c : Z * Z * Z) :
  rank_compare a b = Lt -> rank_compare b c = Lt -> rank_compare a c = Lt.
Proof.
  destruct a as [[a1 a2] a3], b as [[b1 b2] b3], c as [[c1 c2] c3].
  unfold rank_compare; cbn [fst snd].
  destruct (Z.compare_spec a1 b1), (Z.compare_spec b1 c1), (Z.compare_spec a1 c1);
    try lia; try discriminate;
    destruct (Z.compare_spec a2 b2), (Z.compare_spec b2 c2), (Z.compare_spec a2 c2);
    try lia; try discriminate;
    destruct (Z.compare_spec a3 b3), (Z.compare_spec b3 c3), (Z.compare_spec a3 c3);
    try lia; try discriminate; reflexivity.
Qed.

Lemma rank_compare_not_lt_trans (a b c : Z * Z * Z) :
  rank_compare a b <> Lt -> rank_compare b c <> Lt -> rank_compare a c <> Lt.
Proof.
  destruct a as [[a1 a2] a3], b as [[b1 b2] b3], c as [[c1 c2] c3].
  unfold rank_compare; cbn [fst snd].
  destruct (Z.compare_spec a1 b1), (Z.compare_spec b1 c1), (Z.compare_spec a1 c1);
    try lia; try congruence;
    destruct (Z.compare_spec a2 b2), (Z.compare_spec b2 c2), (Z.compare_spec a2 c2);
    try lia; try congruence;
    destruct (Z.compare_spec a3 b3), (Z.compare_spec b3 c3), (Z.compare_spec a3 c3);
    try lia; try congruence.
Qed.

Lemma rank_compare_asym (a b : Z * Z * Z) :
  rank_compare a b = Lt -> rank_compare b a <> Lt.
Proof.
  destruct a as [[a1 a2] a3], b as [[b1 b2] b3].
  unfold rank_compare; cbn [fst snd].
  destruct (Z.compare_spec a1 b1), (Z.compare_spec b1 a1);
    try lia; try congruence;
    destruct (Z.compare_spec a2 b2), (Z.compare_spec b2 a2);
    try lia; try congruence;
    destruct (Z.compare_spec a3 b3), (Z.compare_spec b3 a3);
    try lia; try congruence.
Qed.

Lemma num_ltb_nan_l (x y : number) : num_ltb x y = true -> num_is_nan x = false.
Proof. destruct x; [reflexivity..|discriminate|reflexivity]. Qed.

Lemma num_ltb_nan_r (x y : number) : num_ltb x y = true -> num_is_nan y = false.
Proof. destruct x, y; try reflexivity; discriminate. Qed.

Lemma num_ltb_rank (x y : number) :
  num_is_nan x = false -> num_is_nan y = false ->
  num_ltb x y = true <-> rank_compare (num_rank x) (num_rank y) = Lt.
Proof.
  intros Hx Hy. unfold num_ltb, SFltb. rewrite (SFcompare_rank x y Hx Hy).
  destruct (rank_compare _ _); split; congruence.
Qed.

Lemma num_ltb_trans (x y z : number) :
  num_ltb x y = true -> num_ltb y z = true -> num_ltb x z = true.
Proof.
  intros A B.
  pose proof (num_ltb_nan_l _ _ A). pose proof (num_ltb_nan_r _ _ A).
  pose proof (num_ltb_nan_r _ _ B).
  apply num_ltb_rank in A, B; try assumption.
  apply num_ltb_rank; try assumption.
  eapply rank_compare_lt_trans; eassumption.
Qed.

Lemma num_ltb_asym (x y : number) : num_ltb x y = true -> num_ltb y x = false.
Proof.
  intros A.
  pose proof (num_ltb_nan_l _ _ A). pose proof (num_ltb_nan_r _ _ A).
  apply num_ltb_rank in A; try assumption.
  destruct (num_ltb y x) eqn:B; [|reflexivity].
  apply num_ltb_rank in B; try assumption.
  exfalso. exact (rank_compare_asym _ _ A B).
Qed.

(** Among doubles other than [NaN], not being below is transitive. *)
Lemma num_ltb_false_trans (x y z : number) :
  num_is_nan x = false -> num_is_nan y = false -> num_is_nan z = false ->
  num_ltb x y = false -> num_ltb y z = false -> num_ltb x z = false.
Proof.
  intros Hx Hy Hz A B.
  destruct (num_ltb x z) eqn:C; [|reflexivity]. exfalso.
  apply num_ltb_rank in C; try assumption.
  revert C. apply rank_compare_not_lt_trans with (b := num_rank y).
  - intros C. apply num_ltb_rank in C; try assumption. congruence.
  - intros C. apply num_ltb_rank in C; try assumption. congruence.
Qed.

End Numbers.

(** * The order of strings and of values *)

Section StringOrder.

Lemma ascii_compare_lt_trans (a b c : ascii) :
  Ascii.compare a b = Lt -> Ascii.compare b c = Lt -> Ascii.compare a c = Lt.
Proof.
  unfold Ascii.compare. rewrite !N.compare_lt_iff. lia.
Qed.

Lemma string_compare_lt_trans (a b c : string) :
  String.compare a b = Lt -> String.compare b c = Lt -> String.compare a c = Lt.
Proof.
  revert b c. induction a as [|x a IH]; intros [|y b] [|z c]; simpl; try congruence.
  destruct (Ascii.compare x y) eqn:XY; try discriminate;
    destruct (Ascii.compare y z) eqn:YZ; try discriminate; intros A B.
  - apply Ascii.compare_eq_iff in XY, YZ. subst.
    replace (Ascii.compare z z) with Eq.
    + eapply IH; eassumption.
    + symmetry. unfold Ascii.compare. apply N.compare_refl.
  - apply Ascii.compare_eq_iff in XY. subst. rewrite YZ. reflexivity.
  - apply Ascii.compare_eq_iff in YZ. subst. rewrite XY. reflexivity.
  - rewrite (ascii_compare_lt_trans x y z XY YZ). reflexivity.
Qed.

Lemma string_ltb_trans (a b c : string) :
  String.ltb a b = true -> String.ltb b c = true -> String.ltb a c = true.
Proof.
  unfold String.ltb. intros A B.
  destruct (String.compare a b) eqn:AB; try discriminate.
  destruct (String.compare b c) eqn:BC; try discriminate.
  rewrite (string_compare_lt_trans a b c AB BC). reflexivity.
Qed.

Lemma string_ltb_asym (a b : string) :
  String.ltb a b = true -> String.ltb b a = false.
Proof.
  unfold String.ltb. rewrite (String.compare_antisym b a).
  destruct (String.compare a b); simpl; congruence.
Qed.

Lemma string_ltb_false_trans (a b c : string) :
  String.ltb a b = false -> String.ltb b c = false -> String.ltb a c = false.
Proof.
  intros A B. destruct (String.ltb a c) eqn:C; [|reflexivity]. exfalso.
  unfold String.ltb in A, B.
  destruct (String.compare a b) eqn:AB; try discriminate.
  - apply String.compare_eq_iff in AB. subst. unfold String.ltb in C.
    destruct (String.compare b c); discriminate.
  - assert (BA : String.ltb b a = true).
    { unfold String.ltb. rewrite String.compare_antisym, AB. reflexivity. }
    pose proof (string_ltb_trans _ _ _ BA C) as BC.
    unfold String.ltb in BC. destruct (String.compare b c); discriminate.
Qed.

End StringOrder.

Section ValueOrder.
Import Js Spec.

Lemma numeric_lt_asym (nx ny : number) :
  default false
    (if num_is_nan nx || num_is_nan ny then None else Some (num_ltb nx ny)) = true ->
  default false
    (if num_is_nan ny || num_is_nan nx then None else Some (num_ltb ny nx)) = false.
Proof.
  destruct (num_is_nan nx), (num_is_nan ny); cbn; try discriminate.
  apply num_ltb_asym.
Qed.

Lemma js_lt_asym (a b : value) : js_lt a b = true -> js_lt b a = false.
Proof.
  unfold js_lt, IsLessThan.
  destruct (ToPrimitive a), (ToPrimitive b); cbv zeta;
    first [apply numeric_lt_asym | cbn [default]; apply string_ltb_asym].
Qed.

Lemma numeric_not_nan (a : value) :
  numeric a = true -> num_is_nan (ToNumber a) = false.
Proof.
  destruct a; simpl; intros A; try reflexivity; try discriminate;
    apply negb_true_iff in A; exact A.
Qed.

Lemma js_lt_numeric (a b : value) :
  numeric a = true -> numeric b = true ->
  js_lt a b = num_ltb (ToNumber a) (ToNumber b).
Proof.
  intros A B. unfold js_lt, IsLessThan.
  pose proof (numeric_not_nan a A) as Na. pose proof (numeric_not_nan b B) as Nb.
  destruct a, b; try discriminate; cbn [ToPrimitive]; cbv zeta;
    rewrite ?Na, ?Nb; reflexivity.
Qed.

Lemma js_lt_false_trans_numeric (a b c : value) :
  numeric a = true -> numeric b = true -> numeric c = true ->
  js_lt a b = false -> js_lt b c = false -> js_lt a c = false.
Proof.
  intros A B C. rewrite !js_lt_numeric by assumption.
  apply num_ltb_false_trans; apply numeric_not_nan; assumption.
Qed.

Lemma js_lt_false_trans_string (a b c : value) :
  is_string a = true -> is_string b = true -> is_string c = true ->
  js_lt a b = false -> js_lt b c = false -> js_lt a c = false.
Proof.
  destruct a, b, c; try discriminate. intros _ _ _.
  unfold js_lt, IsLessThan. simpl. apply string_ltb_false_trans.
Qed.

End ValueOrder.

(** * [sort] with a comparator that is consistent *)

Section Sort.
Context {A : Type} (cmp : A -> A -> Z) (after : A -> A -> bool).
Hypothesis cmp_after : forall x y, (0 <? cmp x y) = after x y.

Lemma sort_insert_perm (x : A) (l : list A) :
  Permutation (Js.sort_insert cmp x l) (x :: l).
Proof.
  induction l as [|y l IH]; simpl.
  - apply Permutation_refl.
  - destruct (0 <? cmp x y).
    + eapply Permutation_trans; [apply perm_skip, IH | apply perm_swap].
    + apply Permutation_refl.
Qed.

Lemma sort_perm (l : list A) : Permutation (Js.sort cmp l) l.
Proof.
  induction l as [|x l IH]; simpl.
  - apply perm_nil.
  - eapply Permutation_trans; [apply sort_insert_perm | apply perm_skip, IH].
Qed.

Variable P : A -> Prop.
Hypothesis after_asym : forall x y, after x y = true -> after y x = false.
Hypothesis after_false_trans :
  forall x y z, P x -> P y -> P z ->
    after x y = false -> after y z = false -> after x z = false.

Lemma sort_insert_sorted (x : A) (l : list A) :
  P x -> Forall P l ->
  StronglySorted (fun a b => after a b = false) l ->
  StronglySorted (fun a b => after a b = false) (Js.sort_insert cmp x l).
Proof.
  intros Px Pl S. induction S as [|y l S IH F]; simpl.
  - constructor; constructor.
  - inversion Pl as [|? ? Py Pl']; subst.
    rewrite cmp_after. destruct (after x y) eqn:XY.
    + constructor; [apply IH; assumption|].
      apply (Permutation_Forall (Permutation_sym (sort_insert_perm x l))).
      constructor; [apply after_asym; assumption | assumption].
    + constructor; [constructor; assumption|].
      constructor; [assumption|].
      rewrite Forall_forall in F, Pl' |- *. intros z Hz.
      apply (after_false_trans x y z); auto.
Qed.

Lemma sort_sorted (l : list A) :
  Forall P l -> StronglySorted (fun a b => after a b = false) (Js.sort cmp l).
Proof.
  induction l as [|x l IH]; simpl; intros F.
  - constructor.
  - inversion F; subst. apply sort_insert_sorted; auto.
    apply (Permutation_Forall (Permutation_sym (sort_perm l))). assumption.
Qed.

Lemma sort_insert_stable (z x : A) (l : list A) :
  P z -> P x -> Forall P l ->
  List.filter (fun a => negb (after z a) && negb (after a z)) (Js.sort_insert cmp x l) =
  List.filter (fun a => negb (after z a) && negb (after a z)) (x :: l).
Proof.
  intros Pz Px Pl. induction l as [|y l IH]; [reflexivity|].
  inversion Pl as [|? ? Py Pl']; subst.
  cbn [Js.sort_insert]. rewrite cmp_after. destruct (after x y) eqn:XY; [|reflexivity].
  cbn [List.filter]. rewrite (IH Pl'). cbn [List.filter].
  destruct (negb (after z y) && negb (after y z)) eqn:Ty;
    destruct (negb (after z x) && negb (after x z)) eqn:Tx; try reflexivity.
  exfalso.
  apply andb_true_iff in Ty, Tx. destruct Ty as [Zy Yz], Tx as [Zx Xz].
  apply negb_true_iff in Zy, Yz, Zx, Xz.
  rewrite (after_false_trans x z y Px Pz Py Xz Zy) in XY. discriminate.
Qed.

Lemma sort_stable (z : A) (l : list A) :
  P z -> Forall P l ->
  List.filter (fun a => negb (after z a) && negb (after a z)) (Js.sort cmp l) =
  List.filter (fun a => negb (after z a) && negb (after a z)) l.
Proof.
  intros Pz. induction l as [|x l IH]; intros F; [reflexivity|].
  inversion F; subst. cbn [Js.sort].
  rewrite sort_insert_stable; auto.
  - cbn [List.filter]. rewrite IH by assumption. reflexivity.
  - apply (Permutation_Forall (Permutation_sym (sort_perm l))). assumption.
Qed.

End Sort.

(** * [Map]s keyed by strings *)

Section StringMaps.
Import Js.
Context {V : Type}.

Lemma get_set (m : list (string * V)) (k k' : string) (v : V) :
  JsMap.get String.eqb (JsMap.set String.eqb m k v) k' =
  if String.eqb k k' then Some v else JsMap.get String.eqb m k'.
Proof.
  induction m as [|[k0 v0] m IH]; simpl.
  - reflexivity.
  - destruct (String.eqb_spec k0 k) as [->|N]; simpl.
    + destruct (String.eqb k k'); reflexivity.
    + rewrite IH. destruct (String.eqb_spec k0 k') as [->|N'].
      * destruct (String.eqb_spec k k'); [congruence|reflexivity].
      * reflexivity.
Qed.

Lemma get_set_same (m : list (string * V)) (k : string) (v : V) :
  JsMap.get String.eqb (JsMap.set String.eqb m k v) k = Some v.
Proof. rewrite get_set, String.eqb_refl. reflexivity. Qed.

Lemma get_In (m : list (string * V)) (k : string) :
  is_Some (JsMap.get String.eqb m k) <-> k ∈ map fst m.
Proof.
  rewrite list_elem_of_In.
  induction m as [|[k0 v0] m IH]; simpl.
  - split; [intros [? ?]; discriminate | intros []].
  - destruct (String.eqb_spec k0 k) as [->|N].
    + split; [left; reflexivity | intros _; eexists; reflexivity].
    + rewrite IH. split; [right; assumption | intros [?|?]; [congruence|assumption]].
Qed.

Lemma set_keys (m : list (string * V)) (k : string) (v : V) :
  is_Some (JsMap.get String.eqb m k) ->
  map fst (JsMap.set String.eqb m k v) = map fst m.
Proof.
  induction m as [|[k0 v0] m IH]; simpl.
  - intros [? ?]; discriminate.
  - destruct (String.eqb k0 k); simpl; [reflexivity|].
    intros H. rewrite IH by assumption. reflexivity.
Qed.

End StringMaps.

(** * What [insert] does to the columns *)

Section Insert.
Import Js ColumnStore Spec.

Lemma fields_inserted_keys (row : object) (sch : list schema_entry)
    (cols : list (string * column)) :
  map fst (fields_inserted row sch cols) = map fst cols.
Proof.
  revert cols. induction sch as [|e sch IH]; intros cols; simpl; [reflexivity|].
  fold (fields_inserted row sch).
  destruct (JsMap.get String.eqb cols (s_name e)) eqn:G.
  - rewrite IH. apply set_keys. rewrite G. eexists; reflexivity.
  - apply IH.
Qed.

Lemma schema_entry_of_None (sch : list schema_entry) (name : string) :
  name ∉ map s_name sch -> schema_entry_of sch name = None.
Proof.
  induction sch as [|e sch IH]; simpl; [reflexivity|]. intros N.
  destruct (String.eqb_spec (s_name e) name) as [E|_].
  - exfalso. apply N. rewrite E. left.
  - apply IH. intros H. apply N. right. exact H.
Qed.

(** Under a schema without a repeated name, the loop over the schema
    changes the column of each entry once. *)
Lemma fields_inserted_get (row : object) (sch : list schema_entry)
    (cols : list (string * column)) (name : string) :
  NoDup (map s_name sch) ->
  JsMap.get String.eqb (fields_inserted row sch cols) name =
  match schema_entry_of sch name with
  | Some e =>
      (fun c => insert_value (s_type e) c (prop row name)) <$>
      JsMap.get String.eqb cols name
  | None => JsMap.get String.eqb cols name
  end.
Proof.
  revert cols. induction sch as [|e sch IH]; intros cols ND; simpl; [reflexivity|].
  fold (fields_inserted row sch). inversion ND as [|? ? Hnot ND']; subst.
  rewrite (IH _ ND').
  destruct (String.eqb_spec (s_name e) name) as [E|N].
  - subst name. rewrite (schema_entry_of_None sch (s_name e) Hnot).
    destruct (JsMap.get String.eqb cols (s_name e)) eqn:G.
    + rewrite get_set_same. reflexivity.
    + rewrite G. reflexivity.
  - destruct (JsMap.get String.eqb cols (s_name e)) eqn:G.
    + rewrite get_set. destruct (String.eqb_spec (s_name e) name); [congruence|].
      reflexivity.
    + reflexivity.
Qed.

Lemma rows_inserted_keys (rows : list object) (sch : list schema_entry)
    (cols : list (string * column)) :
  map fst (rows_inserted rows sch cols) = map fst cols.
Proof.
  revert cols. induction rows as [|r rows IH]; intros cols; simpl; [reflexivity|].
  fold (rows_inserted rows sch). rewrite IH. apply fields_inserted_keys.
Qed.

(** Under a schema without a repeated name, [insert] hands each column
    the fields of its name, row after row. *)
Lemma rows_inserted_get (rows : list object) (sch : list schema_entry)
    (cols : list (string * column)) (name : string) :
  NoDup (map s_name sch) ->
  JsMap.get String.eqb (rows_inserted rows sch cols) name =
  match schema_entry_of sch name with
  | Some e =>
      (fun c => insert_cells (s_type e) c (field_values name rows)) <$>
      JsMap.get String.eqb cols name
  | None => JsMap.get String.eqb cols name
  end.
Proof.
  intros ND. revert cols. induction rows as [|r rows IH]; intros cols; simpl.
  - destruct (schema_entry_of sch name); [|reflexivity].
    destruct (JsMap.get String.eqb cols name); reflexivity.
  - fold (rows_inserted rows sch). rewrite IH, (fields_inserted_get _ _ _ _ ND).
    destruct (schema_entry_of sch name); [|reflexivity].
    destruct (JsMap.get String.eqb cols name); reflexivity.
Qed.

Lemma all_columns_exist_keys (sch : list schema_entry) (cols cols' : list (string * column)) :
  map fst cols' = map fst cols ->
  all_columns_exist sch cols -> all_columns_exist sch cols'.
Proof.
  intros K H e He. apply get_In. rewrite K. apply get_In. apply H. exact He.
Qed.

Lemma forEach_insert_field (row : object) (sch : list schema_entry) (t : table) :
  all_columns_exist sch (columns t) ->
  forEach sch (insert_field row) t =
  (Return tt, with_columns t (fields_inserted row sch (columns t))).
Proof.
  revert t. induction sch as [|e sch IH]; intros t H; simpl.
  - destruct t; reflexivity.
  - fold (fields_inserted row sch).
    destruct (H e) as [c G]; [left|].
    unfold bind at 1. unfold insert_field at 1. unfold bind at 1, get at 1.
    rewrite G. unfold put.
    rewrite IH.
    + reflexivity.
    + simpl. eapply all_columns_exist_keys; [apply set_keys; rewrite G; eexists; reflexivity|].
      intros e' He'. apply H. right. exact He'.
Qed.

Lemma insert_row_run (row : object) (t : table) :
  all_columns_exist (schema t) (columns t) ->
  insert_row row t =
  (Return tt,
   with_rowCount (with_columns t (fields_inserted row (schema t) (columns t)))
     (S (rowCount t))).
Proof.
  intros H. unfold insert_row, bind, get, put.
  rewrite (forEach_insert_field row (schema t) t H). reflexivity.
Qed.

Lemma forEach_insert_row (rows : list object) (t : table) :
  all_columns_exist (schema t) (columns t) ->
  forEach rows insert_row t =
  (Return tt,
   with_rowCount (with_columns t (rows_inserted rows (schema t) (columns t)))
     (length rows + rowCount t)).
Proof.
  revert t. induction rows as [|r rows IH]; intros t H; simpl.
  - destruct t; reflexivity.
  - fold (rows_inserted rows (schema t)).
    unfold bind at 1. rewrite (insert_row_run r t H). rewrite IH.
    + simpl. unfold with_rowCount, with_columns. simpl.
      replace (length rows + S (rowCount t))%nat with (S (length rows + rowCount t)) by lia.
      reflexivity.
    + simpl. eapply all_columns_exist_keys; [apply fields_inserted_keys|exact H].
Qed.

(** [insert] on a registered table whose schema entries all have their
    column: it returns, and the table registered afterwards is
    [inserted]. *)
Lemma insert_run (clk : clock) (s : store) (tableName : string) (t : table)
    (rows : list object) :
  table_of s tableName = Some t ->
  all_columns_exist (schema t) (columns t) ->
  insert clk tableName rows s =
  (Return {| rowsInserted := length rows;
             insertTime := toFixed2 (clk_insert clk) +:+ "ms";
             ins_compressionRatio :=
               compression_ratio (rows_inserted rows (schema t) (columns t)) |},
   {| tables := JsMap.set String.eqb (tables s) tableName (inserted clk t rows) |}).
Proof.
  intros T H. unfold insert, bind at 1, get at 1. unfold table_of in T. rewrite T.
  unfold on_table, bind. rewrite (forEach_insert_row rows t H).
  reflexivity.
Qed.

End Insert.

(** * One column under [insert] *)

Section Columns.
Import Js ColumnStore Spec.

Lemma updateColumnStats_fields (c : column) (v : value) :
  data (updateColumnStats c v) = data c /\
  nullBitmap (updateColumnStats c v) = nullBitmap c /\
  dictionary (updateColumnStats c v) = dictionary c /\
  nullCount (stats (updateColumnStats c v)) = nullCount (stats c) /\
  col_type (updateColumnStats c v) = col_type c /\
  col_name (updateColumnStats c v) = col_name c.
Proof. repeat split; reflexivity. Qed.

Lemma push_value_flags (type : string) (c : column) (v : value) :
  nullBitmap (push_value type c v) = nullBitmap c ++ [false] /\
  nullCount (stats (push_value type c v)) = nullCount (stats c) /\
  length (data (push_value type c v)) = S (length (data c)).
Proof.
  unfold push_value.
  destruct (dictionary c) as [d|]; [destruct (String.eqb type "string")|];
    cbn; rewrite ?length_app; cbn; repeat split; lia.
Qed.

Lemma insert_value_null (type : string) (c : column) (v : value) :
  is_null_value v = true -> insert_value type c v = push_null c.
Proof. unfold insert_value, is_null_value. intros ->. reflexivity. Qed.

Lemma insert_value_not_null (type : string) (c : column) (v : value) :
  is_null_value v = false -> insert_value type c v = push_value type c v.
Proof. unfold insert_value, is_null_value. intros ->. reflexivity. Qed.

Lemma insert_value_flags (type : string) (c : column) (v : value) :
  nullBitmap (insert_value type c v) = nullBitmap c ++ [is_null_value v] /\
  nullCount (stats (insert_value type c v)) =
    (nullCount (stats c) + if is_null_value v then 1 else 0)%nat /\
  length (data (insert_value type c v)) = S (length (data c)).
Proof.
  destruct (is_null_value v) eqn:N.
  - rewrite (insert_value_null _ _ _ N). cbn. rewrite length_app. cbn.
    repeat split; lia.
  - rewrite (insert_value_not_null _ _ _ N).
    destruct (push_value_flags type c v) as (A & B & C).
    rewrite A, B, C. repeat split; lia.
Qed.

Lemma insert_cells_app (type : string) (c : column) (vs ws : list value) :
  insert_cells type c (vs ++ ws) = insert_cells type (insert_cells type c vs) ws.
Proof. unfold insert_cells. apply fold_left_app. Qed.

(** The flags and the count of nulls after a run of cells. *)
Lemma insert_cells_flags (type : string) (vs : list value) (c : column) :
  nullBitmap (insert_cells type c vs) = nullBitmap c ++ map is_null_value vs /\
  nullCount (stats (insert_cells type c vs)) =
    (nullCount (stats c) + length (List.filter is_null_value vs))%nat /\
  length (data (insert_cells type c vs)) = (length (data c) + length vs)%nat.
Proof.
  revert c. induction vs as [|v vs IH]; intros c; cbn.
  - rewrite app_nil_r. repeat split; lia.
  - fold (insert_cells type (insert_value type c v) vs).
    destruct (IH (insert_value type c v)) as (A & B & C).
    destruct (insert_value_flags type c v) as (A' & B' & C').
    rewrite A, B, C, A', B', C'. rewrite <- app_assoc. cbn.
    destruct (is_null_value v); cbn; repeat split; lia.
Qed.

(** Null cells leave the smallest and the largest value alone: the
    statistics are those of the cells that are not null. *)
Lemma insert_cells_stats (type : string) (vs : list value) (c : column) :
  stats_min (stats (insert_cells type c vs)) =
    stats_min (stats (insert_cells type c (List.filter (fun v => negb (is_null_value v)) vs))) /\
  stats_max (stats (insert_cells type c vs)) =
    stats_max (stats (insert_cells type c (List.filter (fun v => negb (is_null_value v)) vs))).
Proof.
  revert c. induction vs as [|v vs IH]; intros c; cbn; [split; reflexivity|].
  fold (insert_cells type (insert_value type c v) vs).
  destruct (is_null_value v) eqn:N; cbn.
  - rewrite (insert_value_null _ _ _ N).
    assert (G : forall ws c0 c1,
               stats_min (stats c0) = stats_min (stats c1) ->
               stats_max (stats c0) = stats_max (stats c1) ->
               Forall (fun w => is_null_value w = false) ws ->
               stats_min (stats (insert_cells type c0 ws)) =
                 stats_min (stats (insert_cells type c1 ws)) /\
               stats_max (stats (insert_cells type c0 ws)) =
                 stats_max (stats (insert_cells type c1 ws))).
    { clear. induction ws as [|w ws IHw]; intros c0 c1 A B F; cbn; [split; assumption|].
      inversion F as [|? ? Nw F']; subst.
      fold (insert_cells type (insert_value type c0 w) ws).
      fold (insert_cells type (insert_value type c1 w) ws).
      rewrite !(insert_value_not_null _ _ _ Nw).
      apply IHw; [| |assumption];
        unfold push_value;
        destruct (dictionary c0) as [d0|], (dictionary c1) as [d1|];
        destruct (String.eqb type "string"); cbn; rewrite ?A, ?B; reflexivity. }
    destruct (IH (push_null c)) as [A B]. rewrite A, B.
    apply G; try reflexivity.
    apply Forall_forall. intros w Hw. apply list_elem_of_In, filter_In in Hw.
    destruct Hw as [_ Hw]. apply negb_true_iff. exact Hw.
  - fold (insert_cells type (insert_value type c v)
            (List.filter (fun v0 => negb (is_null_value v0)) vs)).
    apply IH.
Qed.

(** What [Object.prototype] has under a name is an object, not null. *)
Lemma inherited_not_null (name : string) (v : value) :
  inherited name = Some v -> is_null_value v = false.
Proof.
  unfold inherited.
  destruct (String.eqb name "constructor"); [intros [= <-]; reflexivity|].
  destruct (String.eqb name "__proto__"); [intros [= <-]; reflexivity|].
  destruct (existsb (String.eqb name) prototype_methods); [|discriminate].
  intros [= <-]. reflexivity.
Qed.

Lemma prop_absent (row : gmap string value) (name : string) :
  row !! name = None -> prop row name = default VUndefined (inherited name).
Proof. intros H. unfold prop. rewrite H. reflexivity. Qed.

End Columns.

(** * Tables: creation, and the invariants [insert] keeps *)

Section Tables.
Import Js ColumnStore Spec.

Lemma schema_entry_of_Some (sch : list schema_entry) (name : string) (e : schema_entry) :
  schema_entry_of sch name = Some e -> e ∈ sch /\ s_name e = name.
Proof.
  induction sch as [|e0 sch IH]; simpl; [discriminate|].
  destruct (String.eqb_spec (s_name e0) name) as [E|N].
  - intros [= <-]. split; [left | exact E].
  - intros H. destruct (IH H) as [A B]. split; [right; exact A | exact B].
Qed.

Lemma schema_entry_of_is_Some (sch : list schema_entry) (name : string) :
  name ∈ map s_name sch -> is_Some (schema_entry_of sch name).
Proof.
  induction sch as [|e0 sch IH]; simpl.
  - intros H. inversion H.
  - destruct (String.eqb_spec (s_name e0) name) as [E|N].
    + intros _. eexists; reflexivity.
    + intros H. apply IH. inversion H; subst; [congruence|assumption].
Qed.

Lemma schema_entry_of_unique (sch : list schema_entry) (e : schema_entry) :
  NoDup (map s_name sch) -> e ∈ sch -> schema_entry_of sch (s_name e) = Some e.
Proof.
  induction sch as [|e0 sch IH]; simpl; intros ND He.
  - inversion He.
  - inversion ND as [|? ? Hnot ND']; subst.
    destruct (String.eqb_spec (s_name e0) (s_name e)) as [E|N].
    + inversion He as [|? ? ? Hin]; subst; [reflexivity|].
      exfalso. apply Hnot. rewrite E. apply list_elem_of_fmap_2. exact Hin.
    + inversion He; subst; [congruence|]. apply IH; assumption.
Qed.

Lemma created_columns_get (sch : list schema_entry) (m : list (string * column))
    (name : string) :
  NoDup (map s_name sch) ->
  JsMap.get String.eqb
    (fold_left (fun cols col => JsMap.set String.eqb cols (s_name col) (new_column col))
       sch m) name =
  match schema_entry_of sch name with
  | Some e => Some (new_column e)
  | None => JsMap.get String.eqb m name
  end.
Proof.
  revert m. induction sch as [|e sch IH]; intros m ND; simpl; [reflexivity|].
  inversion ND as [|? ? Hnot ND']; subst.
  rewrite (IH _ ND'). rewrite get_set.
  destruct (String.eqb_spec (s_name e) name) as [E|N].
  - subst name. rewrite (schema_entry_of_None sch (s_name e) Hnot). reflexivity.
  - reflexivity.
Qed.

Lemma createTable_run (a b : time) (tableName : string) (sch : list schema_entry)
    (s : store) :
  createTable a b tableName sch s =
  (Return (created_table a b tableName sch),
   {| tables := JsMap.set String.eqb (tables s) tableName (created_table a b tableName sch) |}).
Proof. reflexivity. Qed.

Lemma created_table_column (a b : time) (tableName : string)
    (sch : list schema_entry) (name : string) :
  NoDup (map s_name sch) ->
  column_of (created_table a b tableName sch) name =
  new_column <$> schema_entry_of sch name.
Proof.
  intros ND. unfold column_of, created_table. cbn [columns].
  rewrite (created_columns_get sch [] name ND).
  destruct (schema_entry_of sch name); reflexivity.
Qed.

Lemma created_table_well_formed (a b : time) (tableName : string)
    (sch : list schema_entry) :
  NoDup (map s_name sch) -> well_formed (created_table a b tableName sch).
Proof.
  intros ND. split; [exact ND|]. intros name.
  rewrite (created_table_column a b tableName sch name ND).
  unfold schema_names. cbn [schema]. split.
  - intros H. destruct (schema_entry_of_is_Some sch name H) as [e ->].
    eexists; reflexivity.
  - intros [c H]. destruct (schema_entry_of sch name) as [e|] eqn:E; [|discriminate].
    destruct (schema_entry_of_Some _ _ _ E) as [He <-].
    apply list_elem_of_fmap_2. exact He.
Qed.


Lemma well_formed_all_columns (t : table) :
  well_formed t -> all_columns_exist (schema t) (columns t).
Proof.
  intros [_ W] e He. apply W. unfold schema_names.
  apply list_elem_of_fmap_2. exact He.
Qed.

(** The column of a name after [insert], under a well-formed table. *)
Lemma inserted_column (clk : clock) (t : table) (rows : list object) (name : string) :
  well_formed t ->
  column_of (inserted clk t rows) name =
  match schema_entry_of (schema t) name with
  | Some e => (fun c => insert_cells (s_type e) c (field_values name rows)) <$> column_of t name
  | None => None
  end.
Proof.
  intros [ND W]. unfold column_of at 1, inserted. cbn [columns].
  rewrite (rows_inserted_get rows (schema t) (columns t) name ND).
  destruct (schema_entry_of (schema t) name) as [e|] eqn:E; [reflexivity|].
  destruct (JsMap.get String.eqb (columns t) name) eqn:G; [|reflexivity].
  exfalso. assert (H : name ∈ schema_names t) by (apply W; unfold column_of; rewrite G; eexists; reflexivity).
  destruct (schema_entry_of_is_Some _ _ H) as [e E']. congruence.
Qed.

Lemma inserted_column_Some (clk : clock) (t : table) (rows : list object)
    (name : string) (c : column) :
  well_formed t -> column_of t name = Some c ->
  exists e, schema_entry_of (schema t) name = Some e /\
    column_of (inserted clk t rows) name =
    Some (insert_cells (s_type e) c (field_values name rows)).
Proof.
  intros WF C. pose proof WF as [ND W].
  assert (H : name ∈ schema_names t) by (apply W; rewrite C; eexists; reflexivity).
  destruct (schema_entry_of_is_Some _ _ H) as [e E].
  exists e. split; [exact E|].
  rewrite (inserted_column clk t rows name WF), E, C. reflexivity.
Qed.

Lemma inserted_well_formed (clk : clock) (t : table) (rows : list object) :
  well_formed t -> well_formed (inserted clk t rows).
Proof.
  intros WF. pose proof WF as [ND W]. split; [exact ND|].
  intros name. unfold schema_names. cbn [inserted schema].
  fold (schema_names t). rewrite (W name).
  unfold column_of. cbn [inserted columns].
  rewrite !get_In, rows_inserted_keys. reflexivity.
Qed.


Lemma table_of_set (s : store) (tableName : string) (t : table) :
  table_of {| tables := JsMap.set String.eqb (tables s) tableName t |} tableName = Some t.
Proof. unfold table_of. cbn. apply get_set_same. Qed.

End Tables.

(** * Reads of the store, and the engine around them *)

Section Frame.
Import Js ColumnStore Spec.

Lemma scan_frame (clk : clock) (tableName : string) (cols : option (list string))
    (pred : option predicate) (s : store) :
  snd (scan clk tableName cols pred s) = s.
Proof.
  unfold scan, bind, get, lift, ret, throw.
  destruct (JsMap.get String.eqb (tables s) tableName) as [t|]; [|reflexivity].
  destruct (match pred with Some p => _ | None => _ end); [|reflexivity].
  destruct (omap _ _); reflexivity.
Qed.

Lemma aggregate_frame (clk : clock) (tableName : string)
    (aggregates : list aggregate_spec) (groupBy : option string)
    (pred : option predicate) (s : store) :
  snd (aggregate clk tableName aggregates groupBy pred s) = s.
Proof.
  unfold aggregate, bind at 1, get at 1.
  destruct (JsMap.get String.eqb (tables s) tableName) as [t|]; [|reflexivity].
  unfold bind at 1.
  pose proof (scan_frame clk tableName None pred s) as F.
  destruct (scan clk tableName None pred s) as [[r|e] s']; cbn in F; subst s'.
  - unfold bind, lift, ret.
    destruct (grouping groupBy) as [g|].
    + destruct (omap _ (group_rows g (scan_data r))); reflexivity.
    + unfold obind. destruct (fill_result _ aggregates (scan_data r)); reflexivity.
  - reflexivity.
Qed.

Lemma scan_not_found (clk : clock) (tableName : string) (cols : option (list string))
    (pred : option predicate) (s : store) :
  table_of s tableName = None ->
  fst (scan clk tableName cols pred s) = Throw (table_not_found tableName).
Proof. unfold table_of, scan, bind, get. intros ->. reflexivity. Qed.

Lemma aggregate_not_found (clk : clock) (tableName : string)
    (aggregates : list aggregate_spec) (groupBy : option string)
    (pred : option predicate) (s : store) :
  table_of s tableName = None ->
  fst (aggregate clk tableName aggregates groupBy pred s) =
  Throw (table_not_found tableName).
Proof. unfold table_of, aggregate, bind, get. intros ->. reflexivity. Qed.

End Frame.

Section Engine.
Import Js ColumnStore QueryEngine Spec.

Lemma fetch_frame (clk : clock) (q : query) (e : engine) :
  snd (fetch clk q e) = e.
Proof.
  unfold fetch. destruct (q_aggregates q) as [|a l].
  - unfold bind, on_store.
    pose proof (scan_frame clk (q_table q)
                  match q_columns q with
                  | c :: _ => if String.eqb c "*" then None else Some (q_columns q)
                  | [] => Some (q_columns q)
                  end (q_where q) (store e)) as F.
    destruct (scan _ _ _ _ _) as [[r|err] s']; cbn in F; subst s'; destruct e; reflexivity.
  - unfold bind, on_store.
    pose proof (aggregate_frame clk (q_table q) (a :: l) (q_groupBy q) (q_where q) (store e)) as F.
    destruct (aggregate _ _ _ _ _ _) as [[r|err] s']; cbn in F; subst s'; destruct e; reflexivity.
Qed.

Lemma executeQuery_frame (clk : clock) (q : query) (e : engine) :
  snd (executeQuery clk q e) = e.
Proof.
  unfold executeQuery, bind. pose proof (fetch_frame clk q e) as F.
  destruct (fetch clk q e) as [[r|err] e']; cbn in F; subst e'; reflexivity.
Qed.

(** [executeQuery] as its two halves. *)
Lemma executeQuery_run (clk : clock) (q : query) (e : engine) :
  fst (executeQuery clk q e) =
  match fst (fetch clk q e) with
  | Return result =>
      let rows :=
        match q_orderBy q with
        | Some o => applyOrderBy (res_data result) o
        | None => res_data result
        end in
      Return {| res_data :=
                  match q_limit q with
                  | Some n => if ToBoolean (VNum n) then slice_to n rows else rows
                  | None => rows
                  end;
                res_metadata := res_metadata result |}
  | Throw err => Throw err
  end.
Proof.
  unfold executeQuery, bind.
  destruct (fetch clk q e) as [[r|err] e']; reflexivity.
Qed.

(** What [execute] leaves in the history, by the outcome of the query. *)
Lemma execute_run (clk : clock) (sql : string) (e : engine) :
  execute clk sql e =
  match parse sql with
  | Return q =>
      match fst (executeQuery clk q e) with
      | Return result =>
          let x :=
            {| ex_sql := sql; ex_timestamp := clk_date clk;
               executionTime := toFixed2 (clk_total clk) +:+ "ms";
               rowsAffected := Some (length (res_data result));
               ex_error := None; success := true;
               executionPlan := Some (createExecutionPlan q) |} in
          (Return {| out_data := res_data result;
                     out_metadata := res_metadata result;
                     out_execution := x |},
           {| store := store e; queryHistory := queryHistory e ++ [x] |})
      | Throw err =>
          (Throw err,
           {| store := store e;
              queryHistory :=
                queryHistory e ++
                [{| ex_sql := sql; ex_timestamp := clk_date clk;
                    executionTime := toFixed2 (clk_total clk) +:+ "ms";
                    rowsAffected := None;
                    ex_error := Some (message err); success := false;
                    executionPlan := None |}] |})
      end
  | Throw err =>
      (Throw err,
       {| store := store e;
          queryHistory :=
            queryHistory e ++
            [{| ex_sql := sql; ex_timestamp := clk_date clk;
                executionTime := toFixed2 (clk_total clk) +:+ "ms";
                rowsAffected := None;
                ex_error := Some (message err); success := false;
                executionPlan := None |}] |})
  end.
Proof.
  unfold execute, try_catch, bind at 1, lift.
  destruct (parse sql) as [q|err]; [|reflexivity].
  unfold bind at 1.
  pose proof (executeQuery_frame clk q e) as F.
  destruct (executeQuery clk q e) as [[r|err] e']; cbn in F; subst e'; reflexivity.
Qed.

(** None of the steps that [createExecutionPlan] can emit apart from
    the one under [query.limit] is a Limit step. *)
Lemma plan_without_limit_step (q : query) :
  Forall (fun st => String.eqb (operation st) "Limit" = false)
    (createExecutionPlan (without_limit q)).
Proof.
  unfold createExecutionPlan, without_limit. cbn [q_limit q_where q_aggregates q_orderBy
    q_table q_columns q_groupBy].
  destruct (q_where q), (q_aggregates q), (q_orderBy q); cbn [app];
    repeat (apply Forall_cons; split; [reflexivity|]); apply Forall_nil; exact I.
Qed.

Lemma parse_limit (sql : string) (q : query) :
  parse sql = Return q ->
  q_limit q = parseInt <$> limit_text sql.
Proof.
  unfold parse, limit_text.
  destruct (negb _); [discriminate|].
  destruct (match_ true re_select _); [|discriminate].
  destruct (if String.eqb _ "*" then _ else _) as [cols aggs].
  destruct (match_ true re_from _); [|discriminate].
  unfold obind.
  destruct (match match_ true re_where _ with Some _ => _ | None => _ end); [|discriminate].
  intros [= <-]. cbn [q_limit].
  destruct (match_ true re_limit _); reflexivity.
Qed.

Lemma getHistory_run (limit : option Z) (e : engine) :
  getHistory limit e =
  (Return (rev (slice_from (- default 10 limit) (queryHistory e))), e).
Proof. reflexivity. Qed.

Lemma slice_from_last {A} (n : nat) (l : list A) :
  (1 <= n)%nat -> rev (slice_from (- Z.of_nat n) l) = firstn n (rev l).
Proof.
  intros H. unfold slice_from.
  destruct (Z.ltb_spec (- Z.of_nat n) 0) as [_|G]; [|lia].
  rewrite firstn_rev. f_equal. f_equal. lia.
Qed.

Lemma slice_from_zero {A} (l : list A) : slice_from 0 l = l.
Proof.
  unfold slice_from. change (0 <? 0) with false. cbv iota.
  replace (Z.min 0 (Z.of_nat (length l))) with 0 by lia. reflexivity.
Qed.

End Engine.

(** * The matcher: a match ends where its continuation starts *)

Section Matcher.
Import Js Spec.

Lemma strip_suffix (ic : bool) (w s s' : list ascii) :
  strip ic w s = Some s' -> suffix s' s.
Proof.
  revert s. induction w as [|a w IH]; intros s; simpl.
  - intros [= ->]. reflexivity.
  - destruct s as [|b s]; [discriminate|].
    destruct (same_char ic a b); [|discriminate].
    intros H. apply suffix_cons_r. apply IH. exact H.
Qed.

Lemma star_loop_suffix
    (step : list ascii -> captures -> continuation -> option (list ascii * captures))
    (greedy : bool) (k : continuation) :
  (forall s cs k' res,
      step s cs k' = Some res ->
      exists s' cs', suffix s' s /\ k' s' cs' = Some res) ->
  forall fuel s cs res,
    star_loop step greedy k fuel s cs = Some res ->
    exists s' cs', suffix s' s /\ k s' cs' = Some res.
Proof.
  intros Step. induction fuel as [|fuel IH]; intros s cs res H; simpl in H.
  - exists s, cs. split; [reflexivity|exact H].
  - assert (More : forall x,
               step s cs
                 (fun s' cs' =>
                    if (length s' <? length s)%nat
                    then star_loop step greedy k fuel s' cs' else None) = Some x ->
               exists s' cs', suffix s' s /\ k s' cs' = Some x).
    { intros x E. destruct (Step _ _ _ _ E) as (s1 & cs1 & S1 & H1).
      destruct (length s1 <? length s)%nat; [|discriminate].
      destruct (IH _ _ _ H1) as (s2 & cs2 & S2 & H2).
      exists s2, cs2. split; [etransitivity; eassumption|exact H2]. }
    destruct greedy.
    + destruct (step s cs _) eqn:E.
      * injection H as <-. apply More. reflexivity.
      * exists s, cs. split; [reflexivity|exact H].
    + destruct (k s cs) eqn:K.
      * injection H as <-. exists s, cs. split; [reflexivity|exact K].
      * apply More. exact H.
Qed.

(** Whatever [run] answers was answered by its continuation, on a rest
    of the input. *)
Lemma run_suffix (ic : bool) (r : regex) :
  forall s cs k res,
    run ic r s cs k = Some res ->
    exists s' cs', suffix s' s /\ k s' cs' = Some res.
Proof.
  induction r as [|p|r1 IH1 r2 IH2|r1 IH1 r2 IH2|g r1 IH1|n r1 IH1|n|];
    intros s cs k res H; cbn [run] in H.
  - exists s, cs. split; [reflexivity|exact H].
  - destruct s as [|c s]; [discriminate|]. destruct (p c); [|discriminate].
    exists s, cs. split; [apply suffix_cons_r; reflexivity|exact H].
  - destruct (IH1 _ _ _ _ H) as (s1 & cs1 & S1 & H1).
    destruct (IH2 _ _ _ _ H1) as (s2 & cs2 & S2 & H2).
    exists s2, cs2. split; [etransitivity; eassumption|exact H2].
  - destruct (run ic r1 s cs k) eqn:E.
    + injection H as <-. apply (IH1 _ _ _ _ E).
    + apply (IH2 _ _ _ _ H).
  - eapply star_loop_suffix; [exact IH1|exact H].
  - destruct (IH1 _ _ _ _ H) as (s1 & cs1 & S1 & H1).
    eexists _, _. split; [exact S1|exact H1].
  - destruct (capture n cs) as [w|].
    + destruct (strip ic w s) as [s'|] eqn:E; [|discriminate].
      exists s', cs. split; [eapply strip_suffix; exact E|exact H].
    + exists s, cs. split; [reflexivity|exact H].
  - destruct s; [|discriminate]. exists [], cs. split; [reflexivity|exact H].
Qed.

(** A literal word matches where it stands. *)
Lemma run_lit (ic : bool) (w : string) :
  forall s cs k res,
    run ic (lit ic w) s cs k = Some res ->
    exists s', strip ic (chars w) s = Some s' /\ k s' cs = Some res.
Proof.
  unfold lit. induction (chars w) as [|a l IH]; intros s cs k res H; simpl in H |- *.
  - exists s. split; [reflexivity|exact H].
  - destruct s as [|b s]; [discriminate|].
    destruct (same_char ic a b); [|discriminate].
    apply IH. exact H.
Qed.

Lemma occurs_suffix (ic : bool) (w s s' : list ascii) :
  suffix s' s -> is_Some (strip ic w s') -> occurs ic w s = true.
Proof.
  intros [p ->] [x H]. induction p as [|c p IH]; simpl.
  - destruct s' as [|c s']; simpl; rewrite H; reflexivity.
  - destruct (strip ic w (c :: p ++ s')); [reflexivity|exact IH].
Qed.

Lemma search_suffix (ic : bool) (r : regex) (s : list ascii) (w : list ascii) (cs : captures) :
  search ic r s = Some (w, cs) ->
  exists s0 s', suffix s0 s /\ run_here ic r s0 = Some (s', cs).
Proof.
  induction s as [|c s IH]; simpl.
  - destruct (run_here ic r []) as [[s' cs']|] eqn:E; [|discriminate].
    intros [= _ <-]. exists [], s'. split; [reflexivity|exact E].
  - destruct (run_here ic r (c :: s)) as [[s' cs']|] eqn:E.
    + intros [= _ <-]. exists (c :: s), s'. split; [reflexivity|exact E].
    + intros H. destruct (IH H) as (s0 & s' & S & R).
      exists s0, s'. split; [apply suffix_cons_r; exact S|exact R].
Qed.

End Matcher.

(** * The statements the parser rejects *)

Section Rejection.
Import Js ColumnStore QueryEngine Spec.

(** A statement without the word FROM has no SELECT ... FROM span. *)
Lemma select_needs_from (sql : string) :
  occurs true (chars "FROM") (chars sql) = false ->
  match_ true re_select sql = None.
Proof.
  intros O. unfold match_.
  destruct (search true re_select (chars sql)) as [[w cs]|] eqn:E; [|reflexivity].
  exfalso. destruct (search_suffix _ _ _ _ _ E) as (s0 & s' & S0 & R).
  unfold run_here, re_select, seqs in R. cbn [fold_right] in R.
  set (r1 := lit true "SELECT") in R. set (r2 := plus re_s) in R.
  set (r3 := Group 1 (Star false re_dot)) in R. set (r5 := lit true "FROM") in R.
  cbn [run] in R.
  destruct (run_lit true "SELECT" _ _ _ _ R) as (s1 & T1 & R1).
  destruct (run_suffix _ _ _ _ _ _ R1) as (s2 & cs2 & S2 & R2).
  destruct (run_suffix _ _ _ _ _ _ R2) as (s3 & cs3 & S3 & R3).
  destruct (run_suffix _ _ _ _ _ _ R3) as (s4 & cs4 & S4 & R4).
  destruct (run_lit true "FROM" _ _ _ _ R4) as (s5 & T5 & _).
  assert (S : suffix s4 (chars sql)).
  { etransitivity; [exact S4|]. etransitivity; [exact S3|].
    etransitivity; [exact S2|]. etransitivity; [|exact S0].
    eapply strip_suffix. exact T1. }
  rewrite (occurs_suffix true (chars "FROM") (chars sql) s4 S) in O; [discriminate|].
  rewrite T5. eexists; reflexivity.
Qed.

End Rejection.

(** * What [scan] returns *)

Section Scan.
Import Js ColumnStore Spec.

Lemma filter_nth_map (f : nat -> bool) (n : nat) :
  List.filter (fun i => nth i (map f (seq 0 n)) false) (seq 0 n) =
  List.filter f (seq 0 n).
Proof.
  apply filter_ext_in. intros i Hi. apply in_seq in Hi.
  rewrite (nth_indep _ false (f 0%nat)) by (rewrite length_map, length_seq; lia).
  rewrite map_nth, seq_nth by lia. reflexivity.
Qed.

Lemma filter_nth_repeat (n : nat) :
  List.filter (fun i => nth i (repeat true n) false) (seq 0 n) = seq 0 n.
Proof.
  rewrite <- (filter_ext_in (fun _ => true)).
  - induction (seq 0 n) as [|x l IH]; simpl; [reflexivity|]. rewrite IH. reflexivity.
  - intros i Hi. apply in_seq in Hi. symmetry. apply nth_repeat_lt. lia.
Qed.

(** The bitmap that [applyPredicate] leaves, when the column of the
    predicate exists. *)
Lemma applyPredicate_run (t : table) (p : predicate) (c : column) (bitmap : list bool) :
  column_of t (p_column p) = Some c ->
  length bitmap = rowCount t ->
  applyPredicate t p bitmap = Return (map (row_matches t p) (seq 0 (rowCount t))).
Proof.
  intros C L. unfold applyPredicate.
  destruct (rowCount t) as [|n] eqn:R.
  - destruct bitmap; [reflexivity|discriminate].
  - unfold column_of in C. rewrite C. f_equal. apply map_ext. intros i.
    unfold row_matches, column_of. rewrite C.
    destruct (is_null c i); reflexivity.
Qed.

Lemma materialize_run (t : table) (selected : list string) (i : nat) :
  Forall (fun cn => is_Some (column_of t cn)) selected ->
  materialize t selected i = Return (row_at t selected i).
Proof.
  unfold materialize, row_at.
  generalize (∅ : gmap string value) as row.
  induction selected as [|cn l IH]; intros row F; [reflexivity|].
  inversion F as [|? ? [c C] F']; subst. cbn [fold_left obind].
  unfold column_of in C |- *. rewrite C. apply IH. exact F'.
Qed.

Lemma omap_Return {A B} (f : A -> outcome B) (g : A -> B) (l : list A) :
  (forall x, In x l -> f x = Return (g x)) ->
  omap f l = Return (map g l).
Proof.
  induction l as [|x l IH]; intros H; [reflexivity|].
  cbn [omap map]. rewrite (H x) by (left; reflexivity). cbn [obind].
  rewrite IH by (intros y Hy; apply H; right; exact Hy). reflexivity.
Qed.

(** [scan] on a registered table whose selected columns and predicate
    column all exist: the rows that pass the predicate, in the order of
    the table, each over the selected columns. *)
Lemma scan_run (clk : clock) (s : store) (tableName : string) (t : table)
    (cols : option (list string)) (pred : option predicate) :
  table_of s tableName = Some t ->
  Forall (fun cn => is_Some (column_of t cn)) (selected_columns t cols) ->
  match pred with Some p => is_Some (column_of t (p_column p)) | None => True end ->
  scan clk tableName cols pred s =
  (Return {| scan_data := map (row_at t (selected_columns t cols)) (matching_rows t pred);
             scan_meta :=
               {| rowsScanned := rowCount t;
                  rowsReturned := length (matching_rows t pred);
                  scanTime := toFixed2 (clk_scan clk) +:+ "ms";
                  columnsScanned := length (selected_columns t cols) |} |}, s).
Proof.
  intros T F P. unfold scan, bind at 1, get at 1. unfold table_of in T. rewrite T.
  fold (selected_columns t cols).
  assert (B : match pred with
              | Some p => applyPredicate t p (repeat true (rowCount t))
              | None => Return (repeat true (rowCount t))
              end =
              Return (match pred with
                      | Some p => map (row_matches t p) (seq 0 (rowCount t))
                      | None => repeat true (rowCount t)
                      end)).
  { destruct pred as [p|]; [|reflexivity]. destruct P as [c C].
    apply (applyPredicate_run t p c _ C). apply repeat_length. }
  unfold bind, lift, ret. rewrite B.
  assert (E : List.filter
                (fun i => nth i match pred with
                                | Some p => map (row_matches t p) (seq 0 (rowCount t))
                                | None => repeat true (rowCount t)
                                end false) (seq 0 (rowCount t)) =
              matching_rows t pred).
  { unfold matching_rows. destruct pred as [p|].
    - apply filter_nth_map.
    - rewrite filter_nth_repeat.
      induction (seq 0 (rowCount t)) as [|x l IH]; simpl; [reflexivity|].
      rewrite <- IH. reflexivity. }
  rewrite E.
  rewrite (omap_Return _ (row_at t (selected_columns t cols))).
  - rewrite length_map. reflexivity.
  - intros i _. apply materialize_run. exact F.
Qed.

(** A row whose flag is set in the column of the predicate does not
    pass, whatever the operator and the value. *)
Lemma null_row_never_matches (t : table) (p : predicate) (c : column) (i : nat) :
  column_of t (p_column p) = Some c -> is_null c i = true ->
  row_matches t p i = false /\ ~ In i (matching_rows t (Some p)).
Proof.
  intros C N. assert (R : row_matches t p i = false).
  { unfold row_matches. rewrite C, N. reflexivity. }
  split; [exact R|]. unfold matching_rows. rewrite filter_In. intros [_ H]. congruence.
Qed.

End Scan.

(** * ORDER BY and LIMIT on result rows *)

Section OrderRows.
Import Js ColumnStore QueryEngine Spec.

Lemma compare_rows_out_of_order (o : order_by) (x y : object) :
  (0 <? compare_rows o x y) = out_of_order o x y.
Proof.
  unfold compare_rows, out_of_order, js_gt.
  fold (js_lt (prop y (ob_column o)) (prop x (ob_column o))).
  destruct (String.eqb (ob_direction o) "ASC").
  - destruct (js_lt (prop x (ob_column o)) (prop y (ob_column o))) eqn:A.
    + rewrite (js_lt_asym _ _ A). reflexivity.
    + destruct (js_lt (prop y (ob_column o)) (prop x (ob_column o))); reflexivity.
  - destruct (js_lt (prop x (ob_column o)) (prop y (ob_column o))) eqn:A; [reflexivity|].
    destruct (js_lt (prop y (ob_column o)) (prop x (ob_column o))); reflexivity.
Qed.

Lemma out_of_order_asym (o : order_by) (x y : object) :
  out_of_order o x y = true -> out_of_order o y x = false.
Proof.
  unfold out_of_order. destruct (String.eqb (ob_direction o) "ASC"); apply js_lt_asym.
Qed.

Lemma out_of_order_false_trans_numeric (o : order_by) (x y z : object) :
  numeric (prop x (ob_column o)) = true ->
  numeric (prop y (ob_column o)) = true ->
  numeric (prop z (ob_column o)) = true ->
  out_of_order o x y = false -> out_of_order o y z = false ->
  out_of_order o x z = false.
Proof.
  intros X Y Z. unfold out_of_order.
  destruct (String.eqb (ob_direction o) "ASC"); intros A B.
  - apply (js_lt_false_trans_numeric _ _ _ Z Y X B A).
  - apply (js_lt_false_trans_numeric _ _ _ X Y Z A B).
Qed.

Lemma out_of_order_false_trans_string (o : order_by) (x y z : object) :
  is_string (prop x (ob_column o)) = true ->
  is_string (prop y (ob_column o)) = true ->
  is_string (prop z (ob_column o)) = true ->
  out_of_order o x y = false -> out_of_order o y z = false ->
  out_of_order o x z = false.
Proof.
  intros X Y Z. unfold out_of_order.
  destruct (String.eqb (ob_direction o) "ASC"); intros A B.
  - apply (js_lt_false_trans_string _ _ _ Z Y X B A).
  - apply (js_lt_false_trans_string _ _ _ X Y Z A B).
Qed.

Lemma applyOrderBy_perm (rows : list object) (o : order_by) :
  Permutation (applyOrderBy rows o) rows.
Proof. apply sort_perm. Qed.

(** Rows whose keys compare consistently come out in the order asked
    for, rows that tie in the order they came in. *)
Lemma applyOrderBy_sorted (rows : list object) (o : order_by) :
  comparable_keys (ob_column o) rows ->
  StronglySorted (fun a b => out_of_order o a b = false) (applyOrderBy rows o) /\
  forall z, In z rows ->
    List.filter (tie o z) (applyOrderBy rows o) = List.filter (tie o z) rows.
Proof.
  intros [F|F].
  - split.
    + apply (sort_sorted (compare_rows o) (out_of_order o) (compare_rows_out_of_order o)
               (fun r => numeric (prop r (ob_column o)) = true)
               (out_of_order_asym o) (out_of_order_false_trans_numeric o) rows F).
    + intros z Hz.
      apply (sort_stable (compare_rows o) (out_of_order o) (compare_rows_out_of_order o)
               (fun r => numeric (prop r (ob_column o)) = true)
               (out_of_order_false_trans_numeric o) z rows); [|exact F].
      rewrite Forall_forall in F. apply F. apply list_elem_of_In. exact Hz.
  - split.
    + apply (sort_sorted (compare_rows o) (out_of_order o) (compare_rows_out_of_order o)
               (fun r => is_string (prop r (ob_column o)) = true)
               (out_of_order_asym o) (out_of_order_false_trans_string o) rows F).
    + intros z Hz.
      apply (sort_stable (compare_rows o) (out_of_order o) (compare_rows_out_of_order o)
               (fun r => is_string (prop r (ob_column o)) = true)
               (out_of_order_false_trans_string o) z rows); [|exact F].
      rewrite Forall_forall in F. apply F. apply list_elem_of_In. exact Hz.
Qed.

(** The limit [k] of a LIMIT clause, [1 <= k < 2^53], as a number: it
    is true as a condition, and [slice] keeps the first [k]. *)
Lemma limit_number (k : nat) :
  (1 <= k)%nat -> Z.of_nat k < 2 ^ 53 ->
  ToBoolean (VNum (num_of_nat k)) = true /\
  forall (A : Type) (l : list A), slice_to (num_of_nat k) l = firstn k l.
Proof.
  intros K B. unfold num_of_nat.
  pose proof (num_of_Z_fraction (Z.of_nat k) ltac:(lia)) as F.
  destruct (Z.of_nat k) as [|p|p] eqn:E; try lia.
  rewrite (num_of_Z_normal p B) in F |- *.
  split; [reflexivity|]. intros A l. unfold slice_to.
  destruct (num_fraction _) as [n d]. destruct F as [D ->].
  rewrite Z.div_mul by lia.
  destruct (Z.min_spec (Zpos p) (Z.of_nat (length l))) as [[_ ->]|[L ->]].
  - rewrite <- E, Nat2Z.id. reflexivity.
  - rewrite Nat2Z.id. rewrite firstn_all. symmetry. apply firstn_all2. lia.
Qed.

End OrderRows.

(** * The dictionary of a string column *)

Section Dictionary.
Import Js ColumnStore Spec.

Lemma get_codes_from (n : nat) (seen : list string) (s : string) :
  JsMap.get same_value_zero (codes_from n seen) (VStr s) =
  if known s seen then Some (num_of_nat (n + index_of s seen)) else None.
Proof.
  revert n. induction seen as [|x l IH]; intros n; [reflexivity|].
  cbn [codes_from JsMap.get same_value_zero strict_eq known existsb index_of].
  destruct (String.eqb x s); cbn [orb].
  - rewrite Nat.add_0_r. reflexivity.
  - rewrite IH. fold (known s l). rewrite Nat.add_succ_r. reflexivity.
Qed.

Lemma set_codes_from (n : nat) (seen : list string) (s : string) (v : number) :
  known s seen = false ->
  JsMap.set same_value_zero (codes_from n seen) (VStr s) v =
  codes_from n seen ++ [(VStr s, v)].
Proof.
  revert n. induction seen as [|x l IH]; intros n K; [reflexivity|].
  cbn [known existsb] in K. apply orb_false_iff in K as [E K].
  cbn [codes_from JsMap.set same_value_zero strict_eq]. rewrite E.
  rewrite (IH (S n) K). reflexivity.
Qed.

Lemma codes_from_app (n : nat) (l l' : list string) :
  codes_from n (l ++ l') = codes_from n l ++ codes_from (n + length l) l'.
Proof.
  revert n. induction l as [|x l IH]; intros n; cbn [app codes_from length].
  - rewrite Nat.add_0_r. reflexivity.
  - rewrite IH, Nat.add_succ_r. reflexivity.
Qed.

Lemma codes_from_length (n : nat) (l : list string) :
  length (codes_from n l) = length l.
Proof. revert n. induction l as [|x l IH]; intros n; cbn; [|rewrite IH]; reflexivity. Qed.

Lemma decode_codes_from (n i : nat) (seen : list string) :
  (i < length seen)%nat -> Z.of_nat (n + length seen) < 2 ^ 53 ->
  decode (codes_from n seen) (VNum (num_of_nat (n + i))) = VStr (nth i seen "").
Proof.
  revert n i. induction seen as [|x l IH]; intros n i L B; cbn [length] in *; [lia|].
  cbn [codes_from decode strict_eq]. fold (num_eqb (num_of_nat n) (num_of_nat (n + i))).
  rewrite num_of_nat_eqb by lia.
  destruct i as [|i].
  - rewrite Nat.add_0_r, Nat.eqb_refl. reflexivity.
  - destruct (Nat.eqb_spec n (n + S i)) as [E|_]; [lia|].
    rewrite Nat.add_succ_r. apply (IH (S n) i); lia.
Qed.

Lemma index_of_known (s : string) (seen : list string) :
  known s seen = true ->
  (index_of s seen < length seen)%nat /\ nth (index_of s seen) seen "" = s.
Proof.
  induction seen as [|x l IH]; cbn [known existsb index_of length nth]; [discriminate|].
  destruct (String.eqb_spec x s) as [->|N]; cbn [orb].
  - intros _. split; [lia|reflexivity].
  - intros K. destruct (IH K) as [A B]. split; [lia|exact B].
Qed.

Lemma index_of_app (s : string) (l l' : list string) :
  known s l = true -> index_of s (l ++ l') = index_of s l.
Proof.
  induction l as [|x l IH]; cbn [known existsb index_of app]; [discriminate|].
  destruct (String.eqb x s); cbn [orb]; [reflexivity|].
  intros K. rewrite (IH K). reflexivity.
Qed.

Lemma index_of_new (s : string) (l : list string) :
  known s l = false -> index_of s (l ++ [s]) = length l.
Proof.
  induction l as [|x l IH]; cbn [known existsb index_of app length].
  - rewrite String.eqb_refl. reflexivity.
  - intros K. apply orb_false_iff in K as [E K]. rewrite E, (IH K). reflexivity.
Qed.

Lemma known_app (s : string) (l l' : list string) :
  known s (l ++ l') = known s l || known s l'.
Proof. apply existsb_app. Qed.

Lemma first_seen_app (vs : list (option string)) (o : option string) :
  first_seen (vs ++ [o]) =
  match o with
  | Some s => if known s (first_seen vs) then first_seen vs else first_seen vs ++ [s]
  | None => first_seen vs
  end.
Proof. unfold first_seen. rewrite fold_left_app. reflexivity. Qed.

Lemma first_seen_length (vs : list (option string)) :
  (length (first_seen vs) <= length vs)%nat.
Proof.
  induction vs as [|o vs IH] using rev_ind; [cbn; lia|].
  rewrite first_seen_app, length_app. cbn [length].
  destruct o as [s|]; [destruct (known s (first_seen vs))|];
    rewrite ?length_app; cbn [length]; lia.
Qed.

Lemma first_seen_known (vs : list (option string)) (s : string) :
  In (Some s) vs -> known s (first_seen vs) = true.
Proof.
  induction vs as [|o vs IH] using rev_ind; [intros []|].
  intros H. apply in_app_or in H. rewrite first_seen_app.
  assert (K : forall x, known s (first_seen vs) = true ->
                known s (if known x (first_seen vs) then first_seen vs
                         else first_seen vs ++ [x]) = true).
  { intros x K. destruct (known x (first_seen vs)); [exact K|].
    rewrite known_app, K. reflexivity. }
  destruct H as [H|[->|[]]].
  - destruct o as [x|]; [apply K|]; apply IH; exact H.
  - destruct (known s (first_seen vs)) eqn:E; [exact E|].
    rewrite known_app. cbn. rewrite String.eqb_refl, orb_true_r. reflexivity.
Qed.

(** No string is listed twice among the strings seen. *)
Lemma known_false (s : string) (l : list string) : known s l = false -> s ∉ l.
Proof.
  intros K H. apply list_elem_of_In in H.
  assert (T : known s l = true); [|congruence].
  apply existsb_exists. exists s. split; [exact H|apply String.eqb_refl].
Qed.

Lemma first_seen_NoDup (vs : list (option string)) : NoDup (first_seen vs).
Proof.
  induction vs as [|o vs IH] using rev_ind; [constructor|].
  rewrite first_seen_app. destruct o as [s|]; [|exact IH].
  destruct (known s (first_seen vs)) eqn:K; [exact IH|].
  apply NoDup_app. split; [exact IH|]. split; [|apply NoDup_singleton].
  intros x Hx Hs. apply list_elem_of_singleton in Hs. subst x.
  exact (known_false _ _ K Hx).
Qed.

Lemma coded_cell_app (seen : list string) (x : string) (vs : list (option string)) :
  (forall s, In (Some s) vs -> known s seen = true) ->
  map (coded_cell (seen ++ [x])) vs = map (coded_cell seen) vs.
Proof.
  intros H. apply map_ext_in. intros [s|] Hs; [|reflexivity].
  cbn [coded_cell]. rewrite (index_of_app s seen [x] (H s Hs)). reflexivity.
Qed.

(** A column that starts empty with an empty dictionary, after the
    insertions [vs] as a string column: the dictionary gives the strings
    seen their places, the cells are the codes, the flags mark the nulls. *)
Lemma insert_cells_coded (c : column) (vs : list (option string)) :
  dictionary c = Some [] -> data c = [] -> nullBitmap c = [] ->
  dictionary (insert_cells "string" c (map cell_of vs)) = Some (codes (first_seen vs)) /\
  data (insert_cells "string" c (map cell_of vs)) = map (coded_cell (first_seen vs)) vs /\
  nullBitmap (insert_cells "string" c (map cell_of vs)) =
    map (fun o => match o with Some _ => false | None => true end) vs.
Proof.
  intros D0 A0 N0.
  induction vs as [|o vs IH] using rev_ind.
  - cbn. rewrite D0, A0, N0. repeat split; reflexivity.
  - destruct IH as (D & A & N).
    rewrite map_app, insert_cells_app, first_seen_app, !map_app.
    set (c' := insert_cells "string" c (map cell_of vs)) in *.
    cbn [map insert_cells fold_left].
    destruct o as [s|].
    + cbn [cell_of]. unfold insert_value. cbn [strict_eq orb].
      unfold push_value. rewrite D. cbn [String.eqb Ascii.eqb Bool.eqb].
      unfold JsMap.has, codes. rewrite get_codes_from.
      destruct (known s (first_seen vs)) eqn:K.
      * rewrite get_codes_from, K.
        cbn [dictionary data nullBitmap updateColumnStats].
        rewrite A, N. repeat split; reflexivity.
      * rewrite (set_codes_from 0 _ s _ K).
        replace (codes_from 0 (first_seen vs) ++
                 [(VStr s, num_of_nat (JsMap.size (codes_from 0 (first_seen vs))))])
          with (codes_from 0 (first_seen vs ++ [s])).
        2:{ rewrite codes_from_app. unfold JsMap.size. rewrite codes_from_length.
            reflexivity. }
        rewrite get_codes_from, known_app. cbn [known existsb].
        rewrite String.eqb_refl, orb_true_r.
        cbn [dictionary data nullBitmap updateColumnStats].
        rewrite A, N, coded_cell_app by apply first_seen_known.
        repeat split; reflexivity.
    + cbn [cell_of]. unfold insert_value. cbn [strict_eq orb].
      cbn [push_null dictionary data nullBitmap].
      rewrite D, A, N. repeat split; reflexivity.
Qed.

Lemma nth_map_lt {A B} (f : A -> B) (l : list A) (i : nat) (d : B) (d' : A) :
  (i < length l)%nat -> nth i (map f l) d = f (nth i l d').
Proof.
  intros L. rewrite (nth_indep _ d (f d')) by (rewrite length_map; exact L).
  apply map_nth.
Qed.

(** Decoding the cells of such a column gives the insertions back. *)
Lemma shown_coded (c : column) (vs : list (option string)) (i : nat) :
  dictionary c = Some (codes (first_seen vs)) ->
  data c = map (coded_cell (first_seen vs)) vs ->
  nullBitmap c = map (fun o => match o with Some _ => false | None => true end) vs ->
  Z.of_nat (length vs) < 2 ^ 53 -> (i < length vs)%nat ->
  shown c i = cell_of (nth i vs None).
Proof.
  intros D A N B L. unfold shown, is_null, cell_value. rewrite D, A, N.
  rewrite !(nth_map_lt _ vs i _ None L).
  assert (I : In (nth i vs None) vs) by (apply nth_In; exact L).
  destruct (nth i vs None) as [s|]; [|reflexivity].
  cbn [coded_cell strict_eq negb cell_of].
  destruct (index_of_known s _ (first_seen_known vs s I)) as [Lt Nth].
  pose proof (first_seen_length vs) as Le.
  unfold codes.
  pose proof (decode_codes_from 0 (index_of s (first_seen vs)) (first_seen vs) Lt) as Dc.
  cbn [Nat.add] in Dc. rewrite Dc by lia.
  rewrite Nth. reflexivity.
Qed.

Lemma shown_inserted (e : schema_entry) (vs : list (option string)) :
  s_type e = "string" -> Z.of_nat (length vs) < 2 ^ 53 ->
  map (shown (insert_cells (s_type e) (new_column e) (map cell_of vs)))
    (seq 0 (length vs)) = map cell_of vs.
Proof.
  intros T B. rewrite T.
  assert (D0 : dictionary (new_column e) = Some [])
    by (unfold new_column; cbn [dictionary]; rewrite T; reflexivity).
  destruct (insert_cells_coded (new_column e) vs D0 eq_refl eq_refl) as (D & A & N).
  apply nth_ext with (d := VUndefined) (d' := VUndefined).
  - rewrite !length_map, length_seq. reflexivity.
  - intros i L. rewrite length_map, length_seq in L.
    rewrite (nth_map_lt _ (seq 0 (length vs)) i _ O) by (rewrite length_seq; exact L).
    rewrite seq_nth by exact L. cbn [Nat.add].
    rewrite (shown_coded _ vs i D A N B L).
    rewrite (nth_map_lt _ vs i _ None L). reflexivity.
Qed.

(** Through the store: a table is created, rows are inserted, and the
    string column [name] is scanned. *)
Lemma scan_inserted_strings (clk : clock) (a b : time) (tableName name : string)
    (sch : list schema_entry) (e : schema_entry) (rows : list object)
    (vs : list (option string)) (s : store) :
  NoDup (map s_name sch) ->
  schema_entry_of sch name = Some e -> s_type e = "string" ->
  field_values name rows = map cell_of vs ->
  Z.of_nat (length vs) < 2 ^ 53 ->
  returned scan_data
    (fst ((createTable a b tableName sch;;
           insert clk tableName rows;;
           scan clk tableName (Some [name]) None)%js s)) =
  Return (map (fun o => {[ name := cell_of o ]}) vs).
Proof.
  intros ND E T F B.
  pose proof (created_table_well_formed a b tableName sch ND) as WF.
  set (t0 := created_table a b tableName sch) in *.
  unfold bind. rewrite createTable_run. fold t0.
  rewrite (insert_run clk _ tableName t0 rows (table_of_set _ _ _)
             (well_formed_all_columns t0 WF)).
  assert (C : column_of (inserted clk t0 rows) name =
              Some (insert_cells (s_type e) (new_column e) (map cell_of vs))).
  { rewrite (inserted_column clk t0 rows name WF).
    change (schema t0) with sch. rewrite E.
    unfold t0. rewrite (created_table_column a b tableName sch name ND), E, F.
    reflexivity. }
  rewrite (scan_run clk _ tableName (inserted clk t0 rows) (Some [name]) None
             (table_of_set _ _ _)).
  2:{ constructor; [|constructor]. rewrite C. eexists; reflexivity. }
  2:{ exact I. }
  cbn [fst returned scan_data selected_columns].
  unfold matching_rows. cbn [rowCount inserted].
  assert (Len : length rows = length vs).
  { apply (f_equal (@length value)) in F. unfold field_values in F.
    rewrite !length_map in F. exact F. }
  change (rowCount t0) with O. rewrite Nat.add_0_r, Len.
  rewrite forallb_filter_id by (apply forallb_forall; reflexivity).
  unfold returned. cbn [obind scan_data]. f_equal.
  transitivity (map (fun v : value => ({[ name := v ]} : gmap string value))
                  (map cell_of vs)); [|apply map_map].
  rewrite <- (shown_inserted e vs T B), map_map.
  apply map_ext. intros i. unfold row_at. cbn [fold_left]. rewrite C.
  apply insert_empty.
Qed.

End Dictionary.

(** * Keys of a [Map] *)

Section Keys.
Import Js Spec.

Lemma rank_compare_eq (a b : Z * Z * Z) : rank_compare a b = Eq <-> a = b.
Proof.
  destruct a as [[a1 a2] a3], b as [[b1 b2] b3]. unfold rank_compare. cbn [fst snd].
  split.
  - destruct (Z.compare_spec a1 b1); try discriminate.
    destruct (Z.compare_spec a2 b2); try discriminate.
    destruct (Z.compare_spec a3 b3); try discriminate.
    intros _. congruence.
  - intros E. injection E as -> -> ->. rewrite !Z.compare_refl. reflexivity.
Qed.

Lemma num_eqb_rank (a b : number) :
  num_is_nan a = false -> num_is_nan b = false ->
  num_eqb a b = true <-> num_rank a = num_rank b.
Proof.
  intros Ha Hb. unfold num_eqb, SFeqb. rewrite (SFcompare_rank a b Ha Hb).
  rewrite <- rank_compare_eq.
  destruct (rank_compare (num_rank a) (num_rank b)); split; congruence.
Qed.

Lemma num_eqb_nan_l (a b : number) : num_is_nan a = true -> num_eqb a b = false.
Proof. destruct a; try discriminate. reflexivity. Qed.

Lemma num_eqb_nan_r (a b : number) : num_is_nan b = true -> num_eqb a b = false.
Proof. destruct b; try discriminate. destruct a; reflexivity. Qed.

Lemma host_eqb_eq (a b : host_object) : host_eqb a b = true <-> a = b.
Proof.
  destruct a as [|x], b as [|y]; cbn [host_eqb];
    try (split; [discriminate|intros [=]]); try (split; reflexivity).
  rewrite String.eqb_eq. split; congruence.
Qed.

Lemma same_value_zero_class (x y : value) :
  same_value_zero x y = true <-> key_class x = key_class y.
Proof.
  destruct x as [| |a|a|a|a], y as [| |b|b|b|b]; cbn [same_value_zero strict_eq key_class];
    try solve [split; reflexivity];
    try solve [split; intros H; try discriminate H;
               destruct (num_is_nan _); discriminate H].
  - rewrite Bool.eqb_true_iff. split; congruence.
  - destruct (num_is_nan a) eqn:Ha, (num_is_nan b) eqn:Hb; cbn [andb].
    + rewrite orb_true_r. split; reflexivity.
    + rewrite (num_eqb_nan_l a b Ha). split; discriminate.
    + rewrite (num_eqb_nan_r a b Hb). split; discriminate.
    + rewrite orb_false_r, (num_eqb_rank a b Ha Hb). split; congruence.
  - rewrite String.eqb_eq. split; congruence.
  - rewrite host_eqb_eq. split; congruence.
Qed.

(** The key that a [Map] keeps is of the class of the key it was given. *)
Lemma key_class_map_key (v : value) : key_class (map_key v) = key_class v.
Proof.
  destruct v as [| |b|n|s|h]; try reflexivity.
  destruct n as [[|]| | |]; reflexivity.
Qed.

End Keys.

(** * A [Map] whose keys are compared through a class *)

Section ClassMap.
Import Js.
Context {K V C : Type} (same : K -> K -> bool) (cls : K -> C).
Hypothesis same_cls : forall a b, same a b = true <-> cls a = cls b.

Lemma same_refl (a : K) : same a a = true.
Proof. apply same_cls. reflexivity. Qed.

Lemma same_false (a b : K) : same a b = false <-> cls a <> cls b.
Proof.
  rewrite <- same_cls. destruct (same a b); split; congruence.
Qed.

Lemma same_congr (a b x : K) : cls a = cls b -> same a x = same b x.
Proof.
  intros E. destruct (same b x) eqn:B.
  - apply same_cls. apply same_cls in B. congruence.
  - apply same_false. apply same_false in B. congruence.
Qed.

Lemma same_congr_r (a b x : K) : cls a = cls b -> same x a = same x b.
Proof.
  intros E. destruct (same x b) eqn:B.
  - apply same_cls. apply same_cls in B. congruence.
  - apply same_false. apply same_false in B. congruence.
Qed.

Lemma get_map_none (f : K -> V) (ks : list K) (key : K) :
  existsb (fun k => same k key) ks = false ->
  JsMap.get same (map (fun k => (k, f k)) ks) key = None.
Proof.
  induction ks as [|k ks IH]; cbn [existsb map JsMap.get]; [reflexivity|].
  intros H. apply orb_false_iff in H as [-> H]. exact (IH H).
Qed.

Lemma get_map_some (f : K -> V) (ks : list K) (key : K) :
  existsb (fun k => same k key) ks = true ->
  exists k0, same k0 key = true /\ JsMap.get same (map (fun k => (k, f k)) ks) key = Some (f k0).
Proof.
  induction ks as [|k ks IH]; cbn [existsb map JsMap.get]; [discriminate|].
  destruct (same k key) eqn:E; cbn [orb].
  - intros _. exists k. split; [exact E|reflexivity].
  - exact IH.
Qed.

Lemma set_new (m : list (K * V)) (key : K) (v : V) :
  JsMap.get same m key = None -> JsMap.set same m key v = m ++ [(key, v)].
Proof.
  induction m as [|[k w] m IH]; cbn [JsMap.get JsMap.set app]; [reflexivity|].
  destruct (same k key); [discriminate|]. intros H. rewrite (IH H). reflexivity.
Qed.

Lemma get_congr (m : list (K * V)) (a b : K) :
  cls a = cls b -> JsMap.get same m a = JsMap.get same m b.
Proof.
  intros E. induction m as [|[k w] m IH]; cbn [JsMap.get]; [reflexivity|].
  rewrite (same_congr_r a b k E), IH. reflexivity.
Qed.

Lemma get_new (m : list (K * V)) (kept key : K) (v : V) :
  cls kept = cls key ->
  JsMap.get same m key = None -> JsMap.get same (m ++ [(kept, v)]) key = Some v.
Proof.
  intros E. induction m as [|[k w] m IH]; cbn [JsMap.get app].
  - rewrite (proj2 (same_cls kept key) E). reflexivity.
  - destruct (same k key); [discriminate|]. exact IH.
Qed.

Lemma set_last (m : list (K * V)) (kept key : K) (v v' : V) :
  cls kept = cls key ->
  JsMap.get same m key = None ->
  JsMap.set same (m ++ [(kept, v)]) key v' = m ++ [(kept, v')].
Proof.
  intros E. induction m as [|[k w] m IH]; cbn [JsMap.get JsMap.set app].
  - rewrite (proj2 (same_cls kept key) E). reflexivity.
  - destruct (same k key); [discriminate|]. intros H. rewrite (IH H). reflexivity.
Qed.

Lemma set_map_some (f : K -> V) (ks : list K) (key : K) (v : V) :
  NoDup (map cls ks) ->
  existsb (fun k => same k key) ks = true ->
  JsMap.set same (map (fun k => (k, f k)) ks) key v =
  map (fun k => (k, if same k key then v else f k)) ks.
Proof.
  induction ks as [|k ks IH]; cbn [existsb map JsMap.set]; [discriminate|].
  intros ND H. apply NoDup_cons in ND as [Nk ND].
  destruct (same k key) eqn:E; cbn [orb] in H.
  - f_equal. apply map_ext_in. intros k' Hk'.
    destruct (same k' key) eqn:E'; [|reflexivity].
    exfalso. apply Nk. apply same_cls in E, E'. rewrite E, <- E'.
    apply list_elem_of_fmap_2, list_elem_of_In. exact Hk'.
  - f_equal. exact (IH ND H).
Qed.

End ClassMap.

(** * The groups of [aggregate] *)

Section Groups.
Import Js ColumnStore Spec.

Lemma existsb_false {A} (f : A -> bool) (l : list A) :
  existsb f l = false <-> forall x, In x l -> f x = false.
Proof.
  split.
  - intros E x Hx. destruct (f x) eqn:F; [|reflexivity].
    rewrite <- E. symmetry. apply existsb_exists. exists x. split; assumption.
  - intros H. destruct (existsb f l) eqn:E; [|reflexivity].
    apply existsb_exists in E as (x & Hx & F). rewrite (H x Hx) in F. discriminate.
Qed.

Lemma filter_none {A} (f : A -> bool) (l : list A) :
  (forall x, In x l -> f x = false) -> List.filter f l = [].
Proof.
  induction l as [|a l IH]; cbn [List.filter]; [reflexivity|].
  intros H. rewrite (H a (or_introl eq_refl)). apply IH.
  intros x Hx. apply H. right. exact Hx.
Qed.

Lemma group_keys_app (g : string) (rows : list object) (r : object) :
  group_keys g (rows ++ [r]) =
  if existsb (fun k => same_value_zero k (prop r g)) (group_keys g rows)
  then group_keys g rows else group_keys g rows ++ [map_key (prop r g)].
Proof. unfold group_keys. rewrite fold_left_app. reflexivity. Qed.

Lemma group_of_app (g : string) (k : value) (rows : list object) (r : object) :
  group_of g k (rows ++ [r]) =
  group_of g k rows ++ (if same_value_zero k (prop r g) then [r] else []).
Proof. unfold group_of. rewrite List.filter_app. reflexivity. Qed.

Lemma group_of_class (g : string) (k k' : value) (rows : list object) :
  key_class k = key_class k' -> group_of g k rows = group_of g k' rows.
Proof.
  intros E. unfold group_of. apply List.filter_ext. intros r.
  apply (same_congr same_value_zero key_class same_value_zero_class). exact E.
Qed.

Lemma group_keys_NoDup (g : string) (rows : list object) :
  NoDup (map key_class (group_keys g rows)).
Proof.
  induction rows as [|r rows IH] using rev_ind; [constructor|].
  rewrite group_keys_app.
  destruct (existsb _ (group_keys g rows)) eqn:E; [exact IH|].
  rewrite map_app. apply NoDup_app. split; [exact IH|]. split; [|apply NoDup_singleton].
  intros c Hc Hs. cbn in Hs. apply list_elem_of_singleton in Hs. subst c.
  apply list_elem_of_In, in_map_iff in Hc as (k & Ek & Hk).
  rewrite existsb_false in E. specialize (E k Hk).
  apply (same_false same_value_zero key_class same_value_zero_class) in E.
  rewrite key_class_map_key in Ek. congruence.
Qed.

Lemma group_keys_cover (g : string) (rows : list object) (r : object) :
  In r rows ->
  existsb (fun k => same_value_zero k (prop r g)) (group_keys g rows) = true.
Proof.
  induction rows as [|r' rows IH] using rev_ind; [intros []|].
  intros H. apply in_app_or in H. rewrite group_keys_app.
  destruct H as [H|[->|[]]].
  - pose proof (IH H) as Cv.
    destruct (existsb (fun k => same_value_zero k (prop r' g)) (group_keys g rows));
      [exact Cv|].
    rewrite existsb_app, Cv. reflexivity.
  - destruct (existsb _ (group_keys g rows)) eqn:E; [exact E|].
    rewrite existsb_app. cbn [existsb].
    rewrite (proj2 (same_value_zero_class _ _) (key_class_map_key (prop r g))).
    rewrite orb_true_r. reflexivity.
Qed.

Lemma group_of_unseen (g : string) (key : value) (rows : list object) :
  existsb (fun k => same_value_zero k key) (group_keys g rows) = false ->
  group_of g key rows = [].
Proof.
  intros E. apply filter_none. intros r Hr.
  destruct (same_value_zero key (prop r g)) eqn:S; [|reflexivity]. exfalso.
  pose proof (group_keys_cover g rows r Hr) as Cv.
  apply existsb_exists in Cv as (k & Hk & Sk).
  rewrite existsb_false in E. specialize (E k Hk).
  apply same_value_zero_class in S, Sk.
  apply (same_false same_value_zero key_class same_value_zero_class) in E.
  congruence.
Qed.

Lemma group_rows_app (g : string) (rows : list object) (r : object) :
  group_rows g (rows ++ [r]) =
  let groups :=
    if JsMap.has same_value_zero (group_rows g rows) (prop r g) then group_rows g rows
    else JsMap.set same_value_zero (group_rows g rows) (map_key (prop r g)) [] in
  match JsMap.get same_value_zero groups (prop r g) with
  | Some rs => JsMap.set same_value_zero groups (prop r g) (rs ++ [r])
  | None => groups
  end.
Proof. unfold group_rows. rewrite fold_left_app. reflexivity. Qed.

(** The [Map] that [aggregate] builds: the group keys in the order of
    their first occurrence, each with its rows in order. *)
Lemma group_rows_groups (g : string) (rows : list object) :
  group_rows g rows = map (fun k => (k, group_of g k rows)) (group_keys g rows).
Proof.
  induction rows as [|r rows IH] using rev_ind; [reflexivity|].
  rewrite group_rows_app, IH, group_keys_app. cbv zeta.
  set (key := prop r g). set (ks := group_keys g rows).
  unfold JsMap.has.
  destruct (existsb (fun k => same_value_zero k key) ks) eqn:E.
  - destruct (get_map_some same_value_zero (fun k => group_of g k rows) ks key E)
      as (k0 & S0 & G).
    rewrite G, G.
    rewrite (set_map_some same_value_zero key_class same_value_zero_class _ ks key _
               (group_keys_NoDup g rows) E).
    apply map_ext. intros k. rewrite group_of_app. fold key.
    destruct (same_value_zero k key) eqn:Sk.
    + f_equal. f_equal. apply group_of_class.
      apply same_value_zero_class in S0, Sk. congruence.
    + rewrite app_nil_r. reflexivity.
  - pose proof (get_map_none same_value_zero (fun k => group_of g k rows) ks key E) as G.
    pose proof (key_class_map_key key) as Ck.
    assert (G' : JsMap.get same_value_zero
                   (map (fun k => (k, group_of g k rows)) ks) (map_key key) = None).
    { rewrite (get_congr same_value_zero key_class same_value_zero_class _ _ _ Ck).
      exact G. }
    rewrite G.
    rewrite (set_new same_value_zero _ (map_key key) [] G').
    rewrite (get_new same_value_zero key_class same_value_zero_class _ _ key [] Ck G).
    rewrite (set_last same_value_zero key_class same_value_zero_class _ _ key [] _ Ck G).
    rewrite map_app. cbn [map]. f_equal.
    + apply map_ext_in. intros k Hk. rewrite group_of_app. fold key.
      rewrite existsb_false in E. rewrite (E k Hk), app_nil_r. reflexivity.
    + rewrite (group_of_class g (map_key key) key (rows ++ [r]) Ck).
      rewrite group_of_app. fold key.
      rewrite (same_refl same_value_zero key_class same_value_zero_class).
      rewrite (group_of_unseen g key rows E). reflexivity.
Qed.

End Groups.

(** * The aggregate functions *)

Section Aggregates.
Import Js ColumnStore Spec.

Lemma non_null_with_value (column_ : string) (rows : list object) :
  non_null column_ (with_value column_ rows) = non_null column_ rows.
Proof.
  unfold non_null, with_value, field_values.
  induction rows as [|r rows IH]; [reflexivity|].
  cbn [List.filter map].
  destruct (negb (strict_eq (prop r column_) VNull)) eqn:E; cbn [List.filter map].
  - rewrite E, IH. reflexivity.
  - exact IH.
Qed.

Lemma computeAggregate_values (rows rows' : list object) (column_ func : string) :
  column_ <> "*" -> non_null column_ rows = non_null column_ rows' ->
  computeAggregate rows column_ func = computeAggregate rows' column_ func.
Proof.
  intros N E. unfold computeAggregate.
  change (List.filter (fun v => negb (strict_eq v VNull)) (map (fun r => prop r column_) rows))
    with (non_null column_ rows).
  change (List.filter (fun v => negb (strict_eq v VNull)) (map (fun r => prop r column_) rows'))
    with (non_null column_ rows').
  rewrite E. destruct (String.eqb_spec column_ "*") as [->|_]; [congruence|reflexivity].
Qed.

Lemma sum_numbers (nums : list number) (a : number) :
  fold_left js_add (map VNum nums) (VNum a) = VNum (fold_left num_add nums a).
Proof.
  revert a. induction nums as [|x nums IH]; intros a; [reflexivity|].
  cbn [map fold_left js_add ToNumber]. apply IH.
Qed.

Lemma num_ltb_irrefl (x : number) : num_ltb x x = false.
Proof.
  destruct (num_ltb x x) eqn:E; [|reflexivity].
  pose proof (num_ltb_asym x x E). congruence.
Qed.

Lemma num_min_spec (a b : number) :
  num_is_nan a = false -> num_is_nan b = false ->
  (num_min a b = a \/ num_min a b = b) /\
  num_ltb a (num_min a b) = false /\ num_ltb b (num_min a b) = false.
Proof.
  intros Ha Hb. unfold num_min. rewrite Ha, Hb. cbn [orb].
  assert (G : ((if num_ltb b a then b else a) = a \/ (if num_ltb b a then b else a) = b) /\
              num_ltb a (if num_ltb b a then b else a) = false /\
              num_ltb b (if num_ltb b a then b else a) = false).
  { destruct (num_ltb b a) eqn:E.
    - split; [right; reflexivity|]. split; [exact (num_ltb_asym b a E)|apply num_ltb_irrefl].
    - split; [left; reflexivity|]. split; [apply num_ltb_irrefl|exact E]. }
  destruct a as [sa| | |], b as [sb| | |]; try exact G.
  destruct sa, sb; cbn; repeat split; auto.
Qed.

Lemma num_max_spec (a b : number) :
  num_is_nan a = false -> num_is_nan b = false ->
  (num_max a b = a \/ num_max a b = b) /\
  num_ltb (num_max a b) a = false /\ num_ltb (num_max a b) b = false.
Proof.
  intros Ha Hb. unfold num_max. rewrite Ha, Hb. cbn [orb].
  assert (G : ((if num_ltb a b then b else a) = a \/ (if num_ltb a b then b else a) = b) /\
              num_ltb (if num_ltb a b then b else a) a = false /\
              num_ltb (if num_ltb a b then b else a) b = false).
  { destruct (num_ltb a b) eqn:E.
    - split; [right; reflexivity|]. split; [exact (num_ltb_asym a b E)|apply num_ltb_irrefl].
    - split; [left; reflexivity|]. split; [apply num_ltb_irrefl|exact E]. }
  destruct a as [sa| | |], b as [sb| | |]; try exact G.
  destruct sa, sb; cbn; repeat split; auto.
Qed.

Lemma num_is_nan_of (a b m : number) :
  num_is_nan a = false -> num_is_nan b = false -> m = a \/ m = b -> num_is_nan m = false.
Proof. intros Ha Hb [->| ->]; assumption. Qed.

Lemma fold_min (nums : list number) (acc : number) :
  num_is_nan acc = false -> Forall (fun x => num_is_nan x = false) nums ->
  num_is_nan (fold_left (fun a v => num_min a (ToNumber v)) (map VNum nums) acc) = false /\
  In (fold_left (fun a v => num_min a (ToNumber v)) (map VNum nums) acc) (acc :: nums) /\
  forall x, In x (acc :: nums) ->
    num_ltb x (fold_left (fun a v => num_min a (ToNumber v)) (map VNum nums) acc) = false.
Proof.
  revert acc. induction nums as [|y nums IH]; intros acc Ha F.
  - cbn [map fold_left]. split; [exact Ha|]. split; [left; reflexivity|].
    intros x [<-|[]]. apply num_ltb_irrefl.
  - inversion F as [|? ? Hy F']; subst. cbn [map fold_left ToNumber].
    destruct (num_min_spec acc y Ha Hy) as (Or & La & Ly).
    pose proof (num_is_nan_of acc y _ Ha Hy Or) as Hm.
    destruct (IH (num_min acc y) Hm F') as (Nn & I & Lo).
    split; [exact Nn|]. split.
    + destruct I as [I|I]; [|right; right; exact I].
      rewrite <- I. destruct Or as [-> | ->]; [left|right; left]; reflexivity.
    + assert (Lm := Lo _ (or_introl eq_refl)).
      intros x [<-|[<-|Hx]].
      * exact (num_ltb_false_trans _ _ _ Ha Hm Nn La Lm).
      * exact (num_ltb_false_trans _ _ _ Hy Hm Nn Ly Lm).
      * apply Lo. right. exact Hx.
Qed.

Lemma fold_max (nums : list number) (acc : number) :
  num_is_nan acc = false -> Forall (fun x => num_is_nan x = false) nums ->
  num_is_nan (fold_left (fun a v => num_max a (ToNumber v)) (map VNum nums) acc) = false /\
  In (fold_left (fun a v => num_max a (ToNumber v)) (map VNum nums) acc) (acc :: nums) /\
  forall x, In x (acc :: nums) ->
    num_ltb (fold_left (fun a v => num_max a (ToNumber v)) (map VNum nums) acc) x = false.
Proof.
  revert acc. induction nums as [|y nums IH]; intros acc Ha F.
  - cbn [map fold_left]. split; [exact Ha|]. split; [left; reflexivity|].
    intros x [<-|[]]. apply num_ltb_irrefl.
  - inversion F as [|? ? Hy F']; subst. cbn [map fold_left ToNumber].
    destruct (num_max_spec acc y Ha Hy) as (Or & La & Ly).
    pose proof (num_is_nan_of acc y _ Ha Hy Or) as Hm.
    destruct (IH (num_max acc y) Hm F') as (Nn & I & Lo).
    split; [exact Nn|]. split.
    + destruct I as [I|I]; [|right; right; exact I].
      rewrite <- I. destruct Or as [-> | ->]; [left|right; left]; reflexivity.
    + assert (Lm := Lo _ (or_introl eq_refl)).
      intros x [<-|[<-|Hx]].
      * exact (num_ltb_false_trans _ _ _ Nn Hm Ha Lm La).
      * exact (num_ltb_false_trans _ _ _ Nn Hm Hy Lm Ly).
      * apply Lo. right. exact Hx.
Qed.

Lemma num_ltb_Infinity (x : number) :
  num_is_nan x = false -> num_ltb x Infinity = false -> x = Infinity.
Proof. destruct x as [s|s| |s m e]; try destruct s; try discriminate; reflexivity. Qed.

Lemma num_ltb_NegInfinity (x : number) :
  num_is_nan x = false -> num_ltb NegInfinity x = false -> x = NegInfinity.
Proof. destruct x as [s|s| |s m e]; try destruct s; try discriminate; reflexivity. Qed.

(** [Math.min] of numbers, none of them [NaN] and at least one: the
    least of them. *)
Lemma Math_min_minimum (nums : list number) :
  nums <> [] -> Forall (fun x => num_is_nan x = false) nums ->
  is_minimum (Math_min (map VNum nums)) nums.
Proof.
  intros N F. unfold Math_min.
  destruct (fold_min nums Infinity eq_refl F) as (_ & I & Lo).
  split.
  - destruct I as [I|I]; [|exact I].
    destruct nums as [|y nums]; [congruence|].
    inversion F as [|? ? Hy _]; subst.
    assert (L := Lo y (or_intror (or_introl eq_refl))).
    rewrite <- I in L |- *. rewrite (num_ltb_Infinity y Hy L). left. reflexivity.
  - intros x Hx. apply Lo. right. exact Hx.
Qed.

Lemma Math_max_maximum (nums : list number) :
  nums <> [] -> Forall (fun x => num_is_nan x = false) nums ->
  is_maximum (Math_max (map VNum nums)) nums.
Proof.
  intros N F. unfold Math_max.
  destruct (fold_max nums NegInfinity eq_refl F) as (_ & I & Lo).
  split.
  - destruct I as [I|I]; [|exact I].
    destruct nums as [|y nums]; [congruence|].
    inversion F as [|? ? Hy _]; subst.
    assert (L := Lo y (or_intror (or_introl eq_refl))).
    rewrite <- I in L |- *. rewrite (num_ltb_NegInfinity y Hy L). left. reflexivity.
  - intros x Hx. apply Lo. right. exact Hx.
Qed.

Lemma fold_min_nan (vs : list value) :
  fold_left (fun a v => num_min a (ToNumber v)) vs NaN = NaN.
Proof. induction vs as [|v vs IH]; [reflexivity|exact IH]. Qed.

Lemma fold_max_nan (vs : list value) :
  fold_left (fun a v => num_max a (ToNumber v)) vs NaN = NaN.
Proof. induction vs as [|v vs IH]; [reflexivity|exact IH]. Qed.

Lemma num_min_nan_r (a b : number) : num_is_nan b = true -> num_min a b = NaN.
Proof. intros H. unfold num_min. rewrite H, orb_true_r. reflexivity. Qed.

Lemma num_max_nan_r (a b : number) : num_is_nan b = true -> num_max a b = NaN.
Proof. intros H. unfold num_max. rewrite H, orb_true_r. reflexivity. Qed.

(** One value that does not read as a number makes [Math.min] and
    [Math.max] [NaN]. *)
Lemma Math_min_max_nan (vs : list value) :
  Exists (fun v => num_is_nan (ToNumber v) = true) vs ->
  Math_min vs = NaN /\ Math_max vs = NaN.
Proof.
  intros E. unfold Math_min, Math_max. generalize Infinity, NegInfinity.
  induction E as [v vs H|v vs _ IH]; intros lo hi; cbn [fold_left].
  - rewrite (num_min_nan_r lo _ H), (num_max_nan_r hi _ H).
    split; [apply fold_min_nan|apply fold_max_nan].
  - apply IH.
Qed.

End Aggregates.

(** * [aggregate] with a GROUP BY *)

Section AggregateRun.
Import Js ColumnStore Spec.

Lemma omap_map {A B C} (f : B -> outcome C) (h : A -> B) (l : list A) :
  omap f (map h l) = omap (fun x => f (h x)) l.
Proof.
  induction l as [|x l IH]; [reflexivity|]. cbn [map omap]. rewrite IH. reflexivity.
Qed.

Lemma keys_exist (t : table) :
  Forall (fun cn => is_Some (column_of t cn)) (JsMap.keys (columns t)).
Proof.
  apply List.Forall_forall. intros cn H. unfold column_of.
  apply get_In. apply list_elem_of_In. exact H.
Qed.

(** On a registered table, with a group column: one result per group
    key, in the order of first occurrence, each filled from the rows of
    its group. *)
Lemma aggregate_run (clk : clock) (s : store) (tableName : string) (t : table)
    (aggregates : list aggregate_spec) (g : string) (pred : option predicate) :
  table_of s tableName = Some t -> g <> "" ->
  match pred with Some p => is_Some (column_of t (p_column p)) | None => True end ->
  aggregate clk tableName aggregates (Some g) pred s =
  (obind
     (omap (fun k => fill_result (<[g := k]> (∅ : gmap string value)) aggregates
                       (group_of g k (scanned_rows t pred)))
        (group_keys g (scanned_rows t pred)))
     (fun results =>
        Return {| agg_data := results;
                  agg_meta := {| aggregateTime := toFixed2 (clk_aggregate clk) +:+ "ms";
                                 groupCount := length results |} |}),
   s).
Proof.
  intros T G P. unfold aggregate, bind at 1, get at 1.
  pose proof T as T'. unfold table_of in T'. rewrite T'.
  unfold bind at 1.
  rewrite (scan_run clk s tableName t None pred T (keys_exist t) P).
  cbn [scan_data selected_columns]. fold (scanned_rows t pred).
  unfold grouping. destruct (String.eqb_spec g "") as [->|_]; [congruence|].
  rewrite group_rows_groups, omap_map.
  unfold bind, lift, ret.
  destruct (omap _ (group_keys g (scanned_rows t pred))); reflexivity.
Qed.

Lemma computeAggregate_count_all (rows : list object) (func : string) :
  toUpperCase func = "COUNT" ->
  computeAggregate rows "*" func = Return (VNum (num_of_nat (length rows))).
Proof. intros U. unfold computeAggregate. rewrite U. reflexivity. Qed.

Lemma computeAggregate_count (rows : list object) (column_ func : string) :
  toUpperCase func = "COUNT" -> column_ <> "*" ->
  computeAggregate rows column_ func =
  Return (VNum (num_of_nat (length (non_null column_ rows)))).
Proof.
  intros U N. unfold computeAggregate. rewrite U.
  destruct (String.eqb_spec column_ "*") as [->|_]; [congruence|reflexivity].
Qed.

Lemma computeAggregate_sum (rows : list object) (column_ func : string)
    (nums : list number) :
  toUpperCase func = "SUM" -> non_null column_ rows = map VNum nums ->
  computeAggregate rows column_ func =
  Return (VNum (fold_left num_add nums (S754_zero false))).
Proof.
  intros U E. unfold computeAggregate. rewrite U.
  change (List.filter (fun v => negb (strict_eq v VNull)) (map (fun r => prop r column_) rows))
    with (non_null column_ rows).
  rewrite E, sum_numbers. reflexivity.
Qed.

Lemma computeAggregate_avg (rows : list object) (column_ func : string)
    (nums : list number) :
  toUpperCase func = "AVG" -> non_null column_ rows = map VNum nums ->
  computeAggregate rows column_ func =
  Return (VNum (num_div (fold_left num_add nums (S754_zero false))
                  (num_of_nat (length nums)))).
Proof.
  intros U E. unfold computeAggregate. rewrite U.
  change (List.filter (fun v => negb (strict_eq v VNull)) (map (fun r => prop r column_) rows))
    with (non_null column_ rows).
  rewrite E, sum_numbers, length_map. reflexivity.
Qed.

Lemma computeAggregate_min (rows : list object) (column_ func : string)
    (nums : list number) :
  toUpperCase func = "MIN" -> non_null column_ rows = map VNum nums ->
  computeAggregate rows column_ func = Return (VNum (Math_min (map VNum nums))).
Proof.
  intros U E. unfold computeAggregate. rewrite U.
  change (List.filter (fun v => negb (strict_eq v VNull)) (map (fun r => prop r column_) rows))
    with (non_null column_ rows).
  rewrite E. reflexivity.
Qed.

Lemma computeAggregate_max (rows : list object) (column_ func : string)
    (nums : list number) :
  toUpperCase func = "MAX" -> non_null column_ rows = map VNum nums ->
  computeAggregate rows column_ func = Return (VNum (Math_max (map VNum nums))).
Proof.
  intros U E. unfold computeAggregate. rewrite U.
  change (List.filter (fun v => negb (strict_eq v VNull)) (map (fun r => prop r column_) rows))
    with (non_null column_ rows).
  rewrite E. reflexivity.
Qed.

End AggregateRun.

(** * Tables of any schema *)

Section AnySchema.
Import Js ColumnStore Spec.

Lemma created_columns_keep (sch : list schema_entry) (m : list (string * column))
    (k : string) :
  is_Some (JsMap.get String.eqb m k) ->
  is_Some (JsMap.get String.eqb
             (fold_left (fun cols col => JsMap.set String.eqb cols (s_name col) (new_column col))
                sch m) k).
Proof.
  revert m. induction sch as [|e sch IH]; intros m H; [exact H|].
  cbn [fold_left]. apply IH. rewrite get_set.
  destruct (String.eqb (s_name e) k); [eexists; reflexivity|exact H].
Qed.

(** Whatever the schema, also one that repeats a name, every entry has
    its column in the table that [createTable] builds. *)
Lemma created_columns_exist (a b : time) (tableName : string) (sch : list schema_entry) :
  all_columns_exist sch (columns (created_table a b tableName sch)).
Proof.
  unfold created_table. cbn [columns]. generalize (@nil (string * column)) as m.
  induction sch as [|e sch IH]; intros m x Hx.
  - apply list_elem_of_In in Hx. destruct Hx.
  - apply list_elem_of_In in Hx. cbn [fold_left]. destruct Hx as [<-|Hx].
    + apply created_columns_keep. rewrite get_set_same. eexists; reflexivity.
    + apply IH. apply list_elem_of_In. exact Hx.
Qed.


(** [insert] changes the table of its name and no other. *)
Lemma insert_other (clk : clock) (s : store) (tableName other : string)
    (rows : list object) :
  other <> tableName ->
  table_of (snd (insert clk tableName rows s)) other = table_of s other.
Proof.
  intros N. unfold insert, bind at 1, get at 1.
  destruct (JsMap.get String.eqb (tables s) tableName) as [t|]; [|reflexivity].
  unfold on_table.
  match goal with |- context [let '(r, t') := ?m in _] => destruct m as [r t'] end.
  unfold table_of. cbn [snd tables]. rewrite get_set.
  destruct (String.eqb_spec tableName other) as [E|_]; [congruence|reflexivity].
Qed.

Lemma insert_not_found (clk : clock) (s : store) (tableName : string)
    (rows : list object) :
  table_of s tableName = None ->
  insert clk tableName rows s = (Throw (table_not_found tableName), s).
Proof. unfold table_of, insert, bind, get. intros ->. reflexivity. Qed.

End AnySchema.

(** * The statistics of a column *)

Section Least.
Import Js Spec.
Variable below : number -> number -> bool.
Variable pick : number -> number -> number.
Hypothesis below_irrefl : forall x, below x x = false.
Hypothesis below_false_trans : forall x y z,
  num_is_nan x = false -> num_is_nan y = false -> num_is_nan z = false ->
  below x y = false -> below y z = false -> below x z = false.
Hypothesis pick_spec : forall a b,
  (pick a b = a \/ pick a b = b) /\
  below a (pick a b) = false /\ below b (pick a b) = false.

Lemma fold_least (nums : list number) (acc : number) :
  num_is_nan acc = false -> Forall (fun x => num_is_nan x = false) nums ->
  num_is_nan (fold_left pick nums acc) = false /\
  In (fold_left pick nums acc) (acc :: nums) /\
  forall x, In x (acc :: nums) -> below x (fold_left pick nums acc) = false.
Proof.
  revert acc. induction nums as [|y nums IH]; intros acc Ha F.
  - cbn [fold_left]. split; [exact Ha|]. split; [left; reflexivity|].
    intros x [<-|[]]. apply below_irrefl.
  - inversion F as [|? ? Hy F']; subst. cbn [fold_left].
    destruct (pick_spec acc y) as (Or & La & Ly).
    assert (Hm : num_is_nan (pick acc y) = false) by (destruct Or as [-> | ->]; assumption).
    destruct (IH (pick acc y) Hm F') as (Nn & I & Lo).
    split; [exact Nn|]. split.
    + destruct I as [I|I]; [|right; right; exact I].
      rewrite <- I. destruct Or as [-> | ->]; [left|right; left]; reflexivity.
    + assert (Lm := Lo _ (or_introl eq_refl)).
      intros x [<-|[<-|Hx]].
      * exact (below_false_trans _ _ _ Ha Hm Nn La Lm).
      * exact (below_false_trans _ _ _ Hy Hm Nn Ly Lm).
      * apply Lo. right. exact Hx.
Qed.

End Least.

Section Statistics.
Import Js ColumnStore Spec.

Lemma js_lt_numbers (x y : number) :
  num_is_nan x = false -> num_is_nan y = false ->
  js_lt (VNum x) (VNum y) = num_ltb x y.
Proof.
  intros Hx Hy. apply js_lt_numeric; cbn [numeric ToNumber]; [rewrite Hx|rewrite Hy]; reflexivity.
Qed.

Lemma insert_value_distinctCount (type : string) (c : column) (v : value) :
  distinctCount (stats (insert_value type c v)) = distinctCount (stats c).
Proof.
  unfold insert_value. destruct (strict_eq v VNull || strict_eq v VUndefined); [reflexivity|].
  unfold push_value.
  destruct (dictionary c) as [d|]; [destruct (String.eqb type "string")|]; reflexivity.
Qed.

Lemma insert_cells_distinctCount (type : string) (vs : list value) (c : column) :
  distinctCount (stats (insert_cells type c vs)) = distinctCount (stats c).
Proof.
  revert c. induction vs as [|v vs IH]; intros c; [reflexivity|].
  cbn [insert_cells fold_left]. fold (insert_cells type (insert_value type c v) vs).
  rewrite IH. apply insert_value_distinctCount.
Qed.

Lemma insert_number_stats (type : string) (c : column) (x : number) :
  stats_min (stats (insert_value type c (VNum x))) =
    (if strict_eq (stats_min (stats c)) VNull || js_lt (VNum x) (stats_min (stats c))
     then VNum x else stats_min (stats c)) /\
  stats_max (stats (insert_value type c (VNum x))) =
    (if strict_eq (stats_max (stats c)) VNull || js_gt (VNum x) (stats_max (stats c))
     then VNum x else stats_max (stats c)).
Proof.
  unfold insert_value. cbn [strict_eq orb]. unfold push_value.
  destruct (dictionary c) as [d|]; [destruct (String.eqb type "string")|];
    split; reflexivity.
Qed.

Lemma lower_spec (a b : number) :
  (lower a b = a \/ lower a b = b) /\
  num_ltb a (lower a b) = false /\ num_ltb b (lower a b) = false.
Proof.
  unfold lower. destruct (num_ltb b a) eqn:E.
  - split; [right; reflexivity|]. split; [exact (num_ltb_asym b a E)|apply num_ltb_irrefl].
  - split; [left; reflexivity|]. split; [apply num_ltb_irrefl|exact E].
Qed.

Lemma upper_of_spec (a b : number) :
  (upper_of a b = a \/ upper_of a b = b) /\
  num_ltb (upper_of a b) a = false /\ num_ltb (upper_of a b) b = false.
Proof.
  unfold upper_of. destruct (num_ltb a b) eqn:E.
  - split; [right; reflexivity|]. split; [exact (num_ltb_asym a b E)|apply num_ltb_irrefl].
  - split; [left; reflexivity|]. split; [apply num_ltb_irrefl|exact E].
Qed.

(** From a smallest and a largest number on, numbers that are inserted
    are folded into them. *)
Lemma insert_numbers_stats (type : string) (nums : list number) (c : column)
    (mn mx : number) :
  stats_min (stats c) = VNum mn -> stats_max (stats c) = VNum mx ->
  num_is_nan mn = false -> num_is_nan mx = false ->
  Forall (fun x => num_is_nan x = false) nums ->
  stats_min (stats (insert_cells type c (map VNum nums))) = VNum (fold_left lower nums mn) /\
  stats_max (stats (insert_cells type c (map VNum nums))) = VNum (fold_left upper_of nums mx).
Proof.
  revert c mn mx. induction nums as [|x nums IH]; intros c mn mx A B Hn Hx F.
  - split; assumption.
  - inversion F as [|? ? Nx F']; subst.
    cbn [map insert_cells fold_left].
    fold (insert_cells type (insert_value type c (VNum x)) (map VNum nums)).
    destruct (insert_number_stats type c x) as [A' B'].
    rewrite A in A'. rewrite B in B'. cbn [strict_eq orb] in A', B'.
    unfold js_gt in B'. fold (js_lt (VNum mx) (VNum x)) in B'.
    rewrite (js_lt_numbers x mn Nx Hn) in A'.
    rewrite (js_lt_numbers mx x Hx Nx) in B'.
    apply IH.
    + rewrite A'. unfold lower. destruct (num_ltb x mn); reflexivity.
    + rewrite B'. unfold upper_of. destruct (num_ltb mx x); reflexivity.
    + unfold lower. destruct (num_ltb x mn); assumption.
    + unfold upper_of. destruct (num_ltb mx x); assumption.
    + exact F'.
Qed.

Lemma new_column_numbers_stats (e : schema_entry) (nums : list number) :
  nums <> [] -> Forall (fun x => num_is_nan x = false) nums ->
  exists mn mx,
    stats_min (stats (insert_cells (s_type e) (new_column e) (map VNum nums))) = VNum mn /\
    stats_max (stats (insert_cells (s_type e) (new_column e) (map VNum nums))) = VNum mx /\
    is_minimum mn nums /\ is_maximum mx nums.
Proof.
  intros N F. destruct nums as [|x nums]; [congruence|].
  inversion F as [|? ? Nx F']; subst.
  cbn [map insert_cells fold_left].
  fold (insert_cells (s_type e) (insert_value (s_type e) (new_column e) (VNum x)) (map VNum nums)).
  destruct (insert_number_stats (s_type e) (new_column e) x) as [A B].
  cbn [new_column stats stats_min stats_max strict_eq orb] in A, B.
  destruct (insert_numbers_stats (s_type e) nums _ x x A B Nx Nx F') as [Mn Mx].
  exists (fold_left lower nums x), (fold_left upper_of nums x).
  split; [exact Mn|]. split; [exact Mx|].
  split.
  - destruct (fold_least num_ltb lower num_ltb_irrefl num_ltb_false_trans lower_spec
                nums x Nx F') as (_ & I & Lo).
    split; assumption.
  - destruct (fold_least (fun a b => num_ltb b a) upper_of
                (fun a => num_ltb_irrefl a)
                (fun a b c Ha Hb Hc P Q => num_ltb_false_trans c b a Hc Hb Ha Q P)
                upper_of_spec nums x Nx F') as (_ & I & Lo).
    split; assumption.
Qed.

End Statistics.

(** * The dictionary over several batches *)

Section DictionaryGrowth.
Import Js ColumnStore Spec.

Lemma first_seen_extends (vs ws : list (option string)) :
  exists more, first_seen (vs ++ ws) = first_seen vs ++ more.
Proof.
  induction ws as [|o ws IH] using rev_ind.
  - exists []. rewrite !app_nil_r. reflexivity.
  - destruct IH as [more IH]. rewrite app_assoc, first_seen_app, IH.
    destruct o as [s|]; [|exists more; reflexivity].
    destruct (known s (first_seen vs ++ more)).
    + exists more. reflexivity.
    + exists (more ++ [s]). rewrite app_assoc. reflexivity.
Qed.

Lemma codes_from_snd (n : nat) (seen : list string) :
  map snd (codes_from n seen) = map num_of_nat (seq n (length seen)).
Proof.
  revert n. induction seen as [|x l IH]; intros n; [reflexivity|].
  cbn [codes_from map length seq snd]. rewrite IH. reflexivity.
Qed.

Lemma codes_from_fst (n : nat) (seen : list string) :
  map fst (codes_from n seen) = map VStr seen.
Proof.
  revert n. induction seen as [|x l IH]; intros n; [reflexivity|].
  cbn [codes_from map fst]. rewrite IH. reflexivity.
Qed.

End DictionaryGrowth.

(** * Columns without a dictionary *)

Section PlainColumns.
Import Js ColumnStore Spec.

Lemma insert_value_plain (type : string) (c : column) (v : value) :
  dictionary c = None ->
  dictionary (insert_value type c v) = None /\
  data (insert_value type c v) = data c ++ [if is_null_value v then VNull else v].
Proof.
  intros D. unfold insert_value, is_null_value.
  destruct (strict_eq v VNull || strict_eq v VUndefined).
  - cbn. split; [exact D|reflexivity].
  - unfold push_value. rewrite D. cbn. split; reflexivity.
Qed.

Lemma insert_cells_plain (type : string) (vs : list value) (c : column) :
  dictionary c = None ->
  dictionary (insert_cells type c vs) = None /\
  data (insert_cells type c vs) =
    data c ++ map (fun v => if is_null_value v then VNull else v) vs.
Proof.
  revert c. induction vs as [|v vs IH]; intros c D.
  - cbn. rewrite app_nil_r. split; [exact D|reflexivity].
  - cbn [insert_cells fold_left map].
    fold (insert_cells type (insert_value type c v) vs).
    destruct (insert_value_plain type c v D) as [D' A'].
    destruct (IH _ D') as [D'' A'']. rewrite A'', A', <- app_assoc.
    split; [exact D''|reflexivity].
Qed.

Lemma new_column_plain (e : schema_entry) :
  s_type e <> "string" -> dictionary (new_column e) = None.
Proof.
  intros N. unfold new_column. cbn [dictionary].
  destruct (String.eqb_spec (s_type e) "string"); [congruence|reflexivity].
Qed.

Lemma shown_plain (e : schema_entry) (vs : list value) :
  s_type e <> "string" ->
  map (shown (insert_cells (s_type e) (new_column e) vs)) (seq 0 (length vs)) =
  map (fun v => if is_null_value v then VNull else v) vs.
Proof.
  intros N.
  destruct (insert_cells_plain (s_type e) vs (new_column e) (new_column_plain e N)) as [D A].
  destruct (insert_cells_flags (s_type e) vs (new_column e)) as (F & _ & _).
  cbn [new_column data nullBitmap app] in A, F.
  apply nth_ext with (d := VUndefined) (d' := VUndefined).
  - rewrite !length_map, length_seq. reflexivity.
  - intros i L. rewrite length_map, length_seq in L.
    rewrite (nth_map_lt _ (seq 0 (length vs)) i _ O) by (rewrite length_seq; exact L).
    rewrite seq_nth by exact L. cbn [Nat.add].
    rewrite (nth_map_lt _ vs i _ VUndefined L).
    unfold shown, is_null, cell_value. rewrite D, A, F.
    rewrite (nth_map_lt is_null_value vs i _ VUndefined L).
    rewrite (nth_map_lt _ vs i _ VUndefined L).
    destruct (is_null_value (nth i vs VUndefined)); reflexivity.
Qed.

(** Through the store, for a column that is not a string column:
    [scan] returns the inserted fields, [null] for those that were
    absent. *)
Lemma scan_inserted_plain (clk : clock) (a b : time) (tableName name : string)
    (sch : list schema_entry) (e : schema_entry) (rows : list object) (s : store) :
  NoDup (map s_name sch) ->
  schema_entry_of sch name = Some e -> s_type e <> "string" ->
  returned scan_data
    (fst ((createTable a b tableName sch;;
           insert clk tableName rows;;
           scan clk tableName (Some [name]) None)%js s)) =
  Return (map (fun r => {[ name := if is_null_value (prop r name) then VNull
                                   else prop r name ]}) rows).
Proof.
  intros ND E T.
  pose proof (created_table_well_formed a b tableName sch ND) as WF.
  set (t0 := created_table a b tableName sch) in *.
  unfold bind. rewrite createTable_run. fold t0.
  rewrite (insert_run clk _ tableName t0 rows (table_of_set _ _ _)
             (well_formed_all_columns t0 WF)).
  assert (C : column_of (inserted clk t0 rows) name =
              Some (insert_cells (s_type e) (new_column e) (field_values name rows))).
  { rewrite (inserted_column clk t0 rows name WF).
    change (schema t0) with sch. rewrite E.
    unfold t0. rewrite (created_table_column a b tableName sch name ND), E.
    reflexivity. }
  rewrite (scan_run clk _ tableName (inserted clk t0 rows) (Some [name]) None
             (table_of_set _ _ _)).
  2:{ constructor; [|constructor]. rewrite C. eexists; reflexivity. }
  2:{ exact I. }
  cbn [fst returned scan_data selected_columns].
  unfold matching_rows. cbn [rowCount inserted].
  change (rowCount t0) with O. rewrite Nat.add_0_r.
  rewrite forallb_filter_id by (apply forallb_forall; reflexivity).
  unfold returned. cbn [obind scan_data]. f_equal.
  transitivity (map (fun v : value => ({[ name := v ]} : gmap string value))
                  (map (fun v => if is_null_value v then VNull else v)
                     (field_values name rows))).
  - rewrite <- (shown_plain e (field_values name rows) T).
    unfold field_values at 2. rewrite length_map, map_map.
    apply map_ext. intros i. unfold row_at. cbn [fold_left]. rewrite C.
    apply insert_empty.
  - unfold field_values. rewrite !map_map. reflexivity.
Qed.

End PlainColumns.

(** * The sizes of an empty table *)

Section EmptySizes.
Import Js ColumnStore Spec.

Lemma new_column_empty (e : schema_entry) : empty_column (new_column e).
Proof.
  unfold empty_column, new_column. cbn.
  destruct (String.eqb (s_type e) "string"); auto.
Qed.

Lemma set_Forall {V} (P : V -> Prop) (m : list (string * V)) (k : string) (v : V) :
  Forall (fun kv => P (snd kv)) m -> P v ->
  Forall (fun kv => P (snd kv)) (JsMap.set String.eqb m k v).
Proof.
  intros F Pv. induction m as [|[k0 v0] m IH]; cbn [JsMap.set].
  - constructor; [exact Pv|constructor].
  - inversion F as [|? ? P0 F']; subst. destruct (String.eqb k0 k).
    + constructor; assumption.
    + constructor; [exact P0|apply IH; exact F'].
Qed.

Lemma created_columns_empty (a b : time) (tableName : string) (sch : list schema_entry) :
  Forall (fun kv => empty_column (snd kv)) (columns (created_table a b tableName sch)).
Proof.
  unfold created_table. cbn [columns].
  assert (G : forall m : list (string * column),
             Forall (fun kv => empty_column (snd kv)) m ->
             Forall (fun kv => empty_column (snd kv))
               (fold_left (fun cols col => JsMap.set String.eqb cols (s_name col) (new_column col))
                  sch m)).
  { induction sch as [|e sch IH]; intros m F; [exact F|].
    cbn [fold_left]. apply IH. apply set_Forall; [exact F|apply new_column_empty]. }
  apply G. constructor.
Qed.

Lemma empty_columns_sizes (cols : list (string * column)) :
  Forall (fun kv => empty_column (snd kv)) cols ->
  uncompressed_size cols = O /\ compressed_size cols = O.
Proof.
  unfold uncompressed_size, compressed_size.
  induction cols as [|[k c] cols IH]; intros F; [split; reflexivity|].
  inversion F as [|? ? (D & N & Dict) F']; subst. cbn [fold_left snd] in *.
  assert (U : (0 + length (data c) * 8 = 0)%nat) by (rewrite D; reflexivity).
  assert (Z : (0 + column_compressed_size c = 0)%nat).
  { unfold column_compressed_size. rewrite D, N.
    destruct Dict as [-> | ->]; reflexivity. }
  rewrite U, Z. exact (IH F').
Qed.

End EmptySizes.

(** * The rows of a scan *)

Section ScanRows.
Import Js ColumnStore Spec.

(** [scan] on a registered table, whatever the columns asked for: the
    rows that pass the predicate are materialized in order. *)
Lemma scan_shape (clk : clock) (s : store) (tableName : string) (t : table)
    (cols : option (list string)) (pred : option predicate) :
  table_of s tableName = Some t ->
  match pred with Some p => is_Some (column_of t (p_column p)) | None => True end ->
  scan clk tableName cols pred s =
  (obind (omap (materialize t (selected_columns t cols)) (matching_rows t pred))
     (fun results =>
        Return {| scan_data := results;
                  scan_meta :=
                    {| rowsScanned := rowCount t;
                       rowsReturned := length results;
                       scanTime := toFixed2 (clk_scan clk) +:+ "ms";
                       columnsScanned := length (selected_columns t cols) |} |}),
   s).
Proof.
  intros T P. unfold scan, bind at 1, get at 1. unfold table_of in T. rewrite T.
  fold (selected_columns t cols).
  assert (B : match pred with
              | Some p => applyPredicate t p (repeat true (rowCount t))
              | None => Return (repeat true (rowCount t))
              end =
              Return (match pred with
                      | Some p => map (row_matches t p) (seq 0 (rowCount t))
                      | None => repeat true (rowCount t)
                      end)).
  { destruct pred as [p|]; [|reflexivity]. destruct P as [c C].
    apply (applyPredicate_run t p c _ C). apply repeat_length. }
  unfold bind, lift, ret. rewrite B.
  assert (E : List.filter
                (fun i => nth i match pred with
                                | Some p => map (row_matches t p) (seq 0 (rowCount t))
                                | None => repeat true (rowCount t)
                                end false) (seq 0 (rowCount t)) =
              matching_rows t pred).
  { unfold matching_rows. destruct pred as [p|].
    - apply filter_nth_map.
    - rewrite filter_nth_repeat.
      induction (seq 0 (rowCount t)) as [|x l IH]; simpl; [reflexivity|].
      rewrite <- IH. reflexivity. }
  rewrite E.
  destruct (omap _ (matching_rows t pred)); reflexivity.
Qed.

Lemma materialize_thrown (t : table) (selected : list string) (i : nat) (e : error) :
  fold_left
    (fun acc colName =>
       obind acc (fun row =>
         match JsMap.get String.eqb (columns t) colName with
         | None => Throw undefined_read
         | Some c =>
             Return (<[colName := if is_null c i then VNull else cell_value c i]> row)
         end))
    selected (Throw e : outcome (gmap string value)) = Throw e.
Proof. induction selected as [|cn l IH]; [reflexivity|]. cbn [fold_left obind]. exact IH. Qed.

(** A selected column that the table does not have makes a row fail. *)
Lemma materialize_missing (t : table) (selected : list string) (cn : string) (i : nat) :
  In cn selected -> column_of t cn = None ->
  materialize t selected i = Throw undefined_read.
Proof.
  unfold materialize. generalize (∅ : gmap string value) as row.
  induction selected as [|x l IH]; intros row H C; [destruct H|].
  cbn [fold_left obind].
  destruct (JsMap.get String.eqb (columns t) x) as [c|] eqn:G.
  - destruct H as [->|H]; [unfold column_of in C; congruence|].
    apply IH; assumption.
  - apply materialize_thrown.
Qed.

Lemma matching_rows_length (t : table) (pred : option predicate) :
  (length (matching_rows t pred) <= rowCount t)%nat.
Proof.
  unfold matching_rows.
  etransitivity; [apply List.filter_length_le|]. rewrite length_seq. reflexivity.
Qed.

Lemma matching_rows_all (t : table) : matching_rows t None = seq 0 (rowCount t).
Proof.
  unfold matching_rows. apply forallb_filter_id. apply forallb_forall. reflexivity.
Qed.

Lemma row_at_fold (t : table) (selected : list string) (i : nat)
    (row : gmap string value) (k : string) :
  Forall (fun cn => is_Some (column_of t cn)) selected ->
  fold_left
    (fun row colName =>
       match column_of t colName with
       | Some c => <[colName := shown c i]> row
       | None => row
       end) selected row !! k =
  if bool_decide (k ∈ selected) then (fun c => shown c i) <$> column_of t k else row !! k.
Proof.
  revert row. induction selected as [|cn l IH]; intros row F.
  - reflexivity.
  - inversion F as [|? ? [c C] F']; subst. cbn [fold_left]. rewrite C.
    rewrite (IH _ F').
    destruct (bool_decide (k ∈ l)) eqn:Kl.
    + apply bool_decide_eq_true in Kl.
      rewrite bool_decide_eq_true_2 by (apply elem_of_cons; right; exact Kl). reflexivity.
    + apply bool_decide_eq_false in Kl.
      destruct (decide (cn = k)) as [->|N].
      * rewrite lookup_insert_eq, bool_decide_eq_true_2 by (apply elem_of_cons; left; reflexivity). rewrite C. reflexivity.
      * rewrite lookup_insert_ne by exact N.
        rewrite bool_decide_eq_false_2; [reflexivity|].
        intros H. apply elem_of_cons in H. destruct H; [congruence|contradiction].
Qed.

(** A row of a scan has the selected columns and no other; under each it
    has what the column shows for that row. *)
Lemma row_at_lookup (t : table) (selected : list string) (i : nat) (k : string) :
  Forall (fun cn => is_Some (column_of t cn)) selected ->
  row_at t selected i !! k =
  if bool_decide (k ∈ selected) then (fun c => shown c i) <$> column_of t k else None.
Proof. intros F. unfold row_at. rewrite (row_at_fold t selected i ∅ k F). reflexivity. Qed.

End ScanRows.

(** * Predicates *)

Section Predicates.
Import Js ColumnStore Spec.

Lemma test_operator_unknown (operator : string) (colValue v : value) :
  ~ In operator ["="; ">"; "<"; ">="; "<="; "!="] ->
  test_operator operator colValue v = true.
Proof.
  intros N. unfold test_operator.
  repeat match goal with
         | |- context [String.eqb operator ?w] =>
             destruct (String.eqb_spec operator w) as [E|_];
             [exfalso; apply N; rewrite E; cbn; tauto|]
         end.
  reflexivity.
Qed.

Lemma strict_eq_nan (v : value) : strict_eq v (VNum NaN) = false.
Proof. destruct v as [| |b|a|s|h]; try reflexivity. apply num_eqb_nan_r. reflexivity. Qed.

Lemma IsLessThan_nan_r (v : value) : IsLessThan v (VNum NaN) = None.
Proof.
  unfold IsLessThan. destruct v as [| |b|a|s|h]; cbn [ToPrimitive ToNumber]; cbv zeta;
    try reflexivity; rewrite orb_true_r; reflexivity.
Qed.

Lemma IsLessThan_nan_l (v : value) : IsLessThan (VNum NaN) v = None.
Proof. destruct v as [| |b|a|s|h]; reflexivity. Qed.

(** Against [NaN], [!=] holds of every value, and no other of the six
    operators holds of any. *)
Lemma test_operator_nan (operator : string) (colValue : value) :
  In operator ["="; ">"; "<"; ">="; "<="; "!="] ->
  test_operator operator colValue (VNum NaN) = String.eqb operator "!=".
Proof.
  intros H. unfold test_operator, js_gt, js_lt, js_ge, js_le.
  rewrite strict_eq_nan, IsLessThan_nan_l, IsLessThan_nan_r.
  cbn in H. destruct H as [<-|[<-|[<-|[<-|[<-|[<-|[]]]]]]]; reflexivity.
Qed.

Lemma matching_rows_ext (t : table) (p : predicate) (f : nat -> bool) :
  (forall i, row_matches t p i = f i) ->
  matching_rows t (Some p) = List.filter f (seq 0 (rowCount t)).
Proof. intros H. unfold matching_rows. apply List.filter_ext. exact H. Qed.

End Predicates.

(** * Aggregates without groups, and the groups as a partition *)

Section AggregateMore.
Import Js ColumnStore Spec.

Lemma aggregate_run_plain (clk : clock) (s : store) (tableName : string) (t : table)
    (aggregates : list aggregate_spec) (groupBy : option string)
    (pred : option predicate) :
  table_of s tableName = Some t -> grouping groupBy = None ->
  match pred with Some p => is_Some (column_of t (p_column p)) | None => True end ->
  aggregate clk tableName aggregates groupBy pred s =
  (obind (fill_result (∅ : gmap string value) aggregates (scanned_rows t pred))
     (fun r =>
        Return {| agg_data := [r];
                  agg_meta := {| aggregateTime := toFixed2 (clk_aggregate clk) +:+ "ms";
                                 groupCount := 1 |} |}),
   s).
Proof.
  intros T G P. unfold aggregate, bind at 1, get at 1.
  pose proof T as T'. unfold table_of in T'. rewrite T'.
  unfold bind at 1.
  rewrite (scan_run clk s tableName t None pred T (keys_exist t) P).
  cbn [scan_data selected_columns]. fold (scanned_rows t pred).
  rewrite G. unfold bind, lift, ret.
  destruct (fill_result _ aggregates (scanned_rows t pred)); reflexivity.
Qed.

(** [computeAggregate] returns for the five function names, in any
    letter case, and throws for any other. *)
Lemma computeAggregate_known (rows : list object) (column_ func : string) :
  (known_function func -> exists v, computeAggregate rows column_ func = Return v) /\
  (~ known_function func ->
   computeAggregate rows column_ func =
   Throw (Error ("Unknown aggregate function: " +:+ func))).
Proof.
  unfold known_function, computeAggregate. cbv zeta.
  destruct (String.eqb_spec (toUpperCase func) "COUNT") as [E|N1];
    [split; [intros _; eexists; reflexivity|intros H; exfalso; apply H; rewrite E; cbn; tauto]|].
  destruct (String.eqb_spec (toUpperCase func) "SUM") as [E|N2];
    [split; [intros _; eexists; reflexivity|intros H; exfalso; apply H; rewrite E; cbn; tauto]|].
  destruct (String.eqb_spec (toUpperCase func) "AVG") as [E|N3];
    [split; [intros _; eexists; reflexivity|intros H; exfalso; apply H; rewrite E; cbn; tauto]|].
  destruct (String.eqb_spec (toUpperCase func) "MIN") as [E|N4];
    [split; [intros _; eexists; reflexivity|intros H; exfalso; apply H; rewrite E; cbn; tauto]|].
  destruct (String.eqb_spec (toUpperCase func) "MAX") as [E|N5];
    [split; [intros _; eexists; reflexivity|intros H; exfalso; apply H; rewrite E; cbn; tauto]|].
  split; [|reflexivity].
  intros [H|[H|[H|[H|[H|[]]]]]]; congruence.
Qed.

Lemma fill_result_known (aggregates : list aggregate_spec) (rows : list object)
    (init : object) :
  Forall (fun a => known_function (agg_function a)) aggregates ->
  exists r, fill_result init aggregates rows = Return r.
Proof.
  unfold fill_result. revert init.
  induction aggregates as [|a l IH]; intros init F.
  - exists init. reflexivity.
  - inversion F as [|? ? Ka F']; subst. cbn [fold_left obind].
    destruct (proj1 (computeAggregate_known rows (agg_column a) (agg_function a)) Ka)
      as [v ->].
    cbn [obind]. apply IH. exact F'.
Qed.

Lemma fill_result_thrown (aggregates : list aggregate_spec) (rows : list object)
    (e : error) :
  fold_left
    (fun acc agg =>
       obind acc (fun r =>
         obind (computeAggregate rows (agg_column agg) (agg_function agg))
           (fun v => Return (<[result_key agg := v]> r))))
    aggregates (Throw e : outcome (gmap string value)) = Throw e.
Proof. induction aggregates as [|a l IH]; [reflexivity|]. cbn [fold_left obind]. exact IH. Qed.

Lemma fill_result_unknown (agg : aggregate_spec) (aggregates : list aggregate_spec)
    (rows : list object) (init : object) :
  ~ known_function (agg_function agg) ->
  fill_result init (agg :: aggregates) rows =
  Throw (Error ("Unknown aggregate function: " +:+ agg_function agg)).
Proof.
  intros N. unfold fill_result. cbn [fold_left obind].
  rewrite (proj2 (computeAggregate_known rows (agg_column agg) (agg_function agg)) N).
  cbn [obind]. apply fill_result_thrown.
Qed.

Lemma concat_extend {A} (f : value -> list A) (key : value) (r : A) (ks : list value) :
  NoDup (map key_class ks) ->
  existsb (fun k => same_value_zero k key) ks = true ->
  Permutation
    (concat (map (fun k => f k ++ (if same_value_zero k key then [r] else [])) ks))
    (concat (map f ks) ++ [r]).
Proof.
  induction ks as [|k ks IH]; cbn [existsb map concat]; [discriminate|].
  intros ND H. apply NoDup_cons in ND as [Nk ND].
  destruct (same_value_zero k key) eqn:E; cbn [orb] in H.
  - assert (R : map (fun k' => f k' ++ (if same_value_zero k' key then [r] else [])) ks =
                map f ks).
    { apply map_ext_in. intros k' Hk'.
      destruct (same_value_zero k' key) eqn:E'; [|apply app_nil_r].
      exfalso. apply Nk. apply same_value_zero_class in E, E'. rewrite E, <- E'.
      apply list_elem_of_fmap_2, list_elem_of_In. exact Hk'. }
    rewrite R, <- !app_assoc. apply Permutation_app_head. apply Permutation_app_comm.
  - rewrite app_nil_r, <- app_assoc. apply Permutation_app_head. exact (IH ND H).
Qed.

(** The groups of [aggregate], one after the other, are the rows in
    another order: each row is in one group. *)
Lemma group_rows_partition (g : string) (rows : list object) :
  Permutation (concat (map snd (group_rows g rows))) rows.
Proof.
  rewrite group_rows_groups, map_map. cbn [snd].
  induction rows as [|r rows IH] using rev_ind; [constructor|].
  rewrite group_keys_app.
  set (key := prop r g). set (ks := group_keys g rows) in *.
  destruct (existsb (fun k => same_value_zero k key) ks) eqn:E.
  - rewrite (map_ext _ (fun k => group_of g k rows ++
                                 (if same_value_zero k key then [r] else [])))
      by (intros k; apply group_of_app).
    rewrite (concat_extend _ key r ks (group_keys_NoDup g rows) E).
    apply Permutation_app_tail. exact IH.
  - rewrite map_app, concat_app. cbn [map concat].
    rewrite (group_of_class g (map_key key) key (rows ++ [r]) (key_class_map_key key)).
    rewrite group_of_app. fold key.
    rewrite (same_refl same_value_zero key_class same_value_zero_class).
    rewrite (group_of_unseen g key rows E), app_nil_r. cbn [app].
    apply Permutation_app_tail.
    rewrite (map_ext_in _ (fun k => group_of g k rows)); [exact IH|].
    intros k Hk. rewrite group_of_app. fold key.
    rewrite existsb_false in E. rewrite (E k Hk), app_nil_r. reflexivity.
Qed.

End AggregateMore.

(** * The plan, the history and the order *)

Section EngineMore.
Import Js ColumnStore QueryEngine Spec.

Lemma plan_steps (q : query) :
  map step (createExecutionPlan q) = seq 1 (length (createExecutionPlan q)).
Proof.
  unfold createExecutionPlan.
  destruct (q_where q), (q_aggregates q), (q_orderBy q), (q_limit q) as [n|];
    try destruct (ToBoolean (VNum n)); reflexivity.
Qed.

Lemma plan_operations (q : query) :
  map operation (createExecutionPlan q) =
  ["Table Scan"] ++
  (match q_where q with Some _ => ["Filter"] | None => [] end) ++
  (match q_aggregates q with _ :: _ => ["Aggregate"] | [] => [] end) ++
  (match q_orderBy q with Some _ => ["Sort"] | None => [] end) ++
  (match q_limit q with
   | Some n => if ToBoolean (VNum n) then ["Limit"] else []
   | None => []
   end) ++
  ["Projection"].
Proof.
  unfold createExecutionPlan.
  destruct (q_where q), (q_aggregates q), (q_orderBy q), (q_limit q) as [n|];
    try destruct (ToBoolean (VNum n)); reflexivity.
Qed.

Lemma slice_from_positive {A} (n : nat) (l : list A) :
  slice_from (Z.of_nat n) l = skipn n l.
Proof.
  unfold slice_from.
  destruct (Z.ltb_spec (Z.of_nat n) 0) as [H|_]; [lia|].
  destruct (Z.min_spec (Z.of_nat n) (Z.of_nat (length l))) as [[L ->]|[L ->]].
  - rewrite Nat2Z.id. reflexivity.
  - rewrite Nat2Z.id, !skipn_all2 by lia. reflexivity.
Qed.

End EngineMore.

Section SortedInput.
Context {A : Type} (cmp : A -> A -> Z).

(** A list in which no element compares greater than a later one is
    left as it is. *)
Lemma sort_of_sorted (l : list A) :
  StronglySorted (fun a b => (0 <? cmp a b) = false) l -> Js.sort cmp l = l.
Proof.
  induction 1 as [|x l S IH F]; [reflexivity|].
  cbn [Js.sort]. rewrite IH. destruct l as [|y l]; [reflexivity|].
  cbn [Js.sort_insert]. inversion F as [|? ? Hy _]; subst. rewrite Hy. reflexivity.
Qed.

Lemma StronglySorted_weaken (R R' : A -> A -> Prop) (l : list A) :
  (forall a b, R a b -> R' a b) -> StronglySorted R l -> StronglySorted R' l.
Proof.
  intros W. induction 1 as [|x l S IH F]; constructor; [exact IH|].
  eapply List.Forall_impl; [|exact F]. intros b. apply W.
Qed.

End SortedInput.

(** * The captures of a match *)

Section Captures.
Import Js Spec.

Lemma star_loop_captures (P : captures -> Prop)
    (step : list ascii -> captures -> continuation -> option (list ascii * captures))
    (greedy : bool) (k : continuation) :
  P [] -> (forall a b, P a -> P b -> P (a ++ b)) ->
  (forall s cs k' res,
      step s cs k' = Some res ->
      exists s' new, suffix s' s /\ P new /\ k' s' (new ++ cs) = Some res) ->
  forall fuel s cs res,
    star_loop step greedy k fuel s cs = Some res ->
    exists s' new, suffix s' s /\ P new /\ k s' (new ++ cs) = Some res.
Proof.
  intros P0 Papp Step. induction fuel as [|fuel IH]; intros s cs res H; simpl in H.
  - exists s, []. split; [reflexivity|]. split; [exact P0|exact H].
  - assert (More : forall x,
               step s cs
                 (fun s' cs' =>
                    if (length s' <? length s)%nat
                    then star_loop step greedy k fuel s' cs' else None) = Some x ->
               exists s' new, suffix s' s /\ P new /\ k s' (new ++ cs) = Some x).
    { intros x E. destruct (Step _ _ _ _ E) as (s1 & n1 & S1 & P1 & H1).
      destruct (length s1 <? length s)%nat; [|discriminate].
      destruct (IH _ _ _ H1) as (s2 & n2 & S2 & P2 & H2).
      exists s2, (n2 ++ n1). split; [etransitivity; eassumption|].
      split; [apply Papp; assumption|]. rewrite <- app_assoc. exact H2. }
    destruct greedy.
    + destruct (step s cs _) eqn:E.
      * injection H as <-. apply More. reflexivity.
      * exists s, []. split; [reflexivity|]. split; [exact P0|exact H].
    + destruct (k s cs) eqn:K.
      * injection H as <-. exists s, []. split; [reflexivity|]. split; [exact P0|exact K].
      * apply More. exact H.
Qed.

(** Whatever [run] answers was answered by its continuation, on a rest
    of the input and with captures of the groups of the pattern put
    before those that were there. *)
Lemma run_captures (ic : bool) (r : regex) :
  forall s cs k res,
    run ic r s cs k = Some res ->
    exists s' new, suffix s' s /\ from_groups r new /\ k s' (new ++ cs) = Some res.
Proof.
  unfold from_groups.
  induction r as [|p|r1 IH1 r2 IH2|r1 IH1 r2 IH2|g r1 IH1|n r1 IH1|n|];
    intros s cs k res H; cbn [run] in H; cbn [groups_in].
  - exists s, []. split; [reflexivity|]. split; [constructor|exact H].
  - destruct s as [|c s]; [discriminate|]. destruct (p c); [|discriminate].
    exists s, []. split; [apply suffix_cons_r; reflexivity|]. split; [constructor|exact H].
  - destruct (IH1 _ _ _ _ H) as (s1 & n1 & S1 & P1 & H1).
    destruct (IH2 _ _ _ _ H1) as (s2 & n2 & S2 & P2 & H2).
    exists s2, (n2 ++ n1). split; [etransitivity; eassumption|].
    split; [|rewrite <- app_assoc; exact H2].
    apply Forall_app. split.
    + eapply List.Forall_impl; [|exact P2]. intros x Hx. apply in_or_app. right. exact Hx.
    + eapply List.Forall_impl; [|exact P1]. intros x Hx. apply in_or_app. left. exact Hx.
  - destruct (run ic r1 s cs k) eqn:E.
    + injection H as <-. destruct (IH1 _ _ _ _ E) as (s1 & n1 & S1 & P1 & H1).
      exists s1, n1. split; [exact S1|]. split; [|exact H1].
      eapply List.Forall_impl; [|exact P1]. intros x Hx. apply in_or_app. left. exact Hx.
    + destruct (IH2 _ _ _ _ H) as (s1 & n1 & S1 & P1 & H1).
      exists s1, n1. split; [exact S1|]. split; [|exact H1].
      eapply List.Forall_impl; [|exact P1]. intros x Hx. apply in_or_app. right. exact Hx.
  - eapply (star_loop_captures (Forall (fun p => In (fst p) (groups_in r1))));
      [constructor| |exact IH1|exact H].
    intros a b Pa Pb. apply Forall_app. split; assumption.
  - destruct (IH1 _ _ _ _ H) as (s1 & n1 & S1 & P1 & H1).
    eexists s1, (_ :: n1). split; [exact S1|]. split; [|exact H1].
    constructor; [left; reflexivity|].
    eapply List.Forall_impl; [|exact P1]. intros x Hx. right. exact Hx.
  - destruct (capture n cs) as [w|].
    + destruct (strip ic w s) as [s'|] eqn:E; [|discriminate].
      exists s', []. split; [eapply strip_suffix; exact E|]. split; [constructor|exact H].
    + exists s, []. split; [reflexivity|]. split; [constructor|exact H].
  - destruct s; [|discriminate]. exists [], []. split; [reflexivity|].
    split; [constructor|exact H].
Qed.

Lemma capture_app_skip (n : nat) (new cs : captures) :
  Forall (fun p => fst p <> n) new -> capture n (new ++ cs) = capture n cs.
Proof.
  induction new as [|[m w] new IH]; intros F; [reflexivity|].
  inversion F as [|? ? Hm F']; subst. cbn [app capture]. cbn [fst] in Hm.
  destruct (Nat.eqb_spec n m) as [->|_]; [congruence|]. exact (IH F').
Qed.

Lemma run_lit_strip (ic : bool) (w : string) (s s' : list ascii) (cs : captures)
    (k : continuation) :
  strip ic (chars w) s = Some s' -> run ic (lit ic w) s cs k = k s' cs.
Proof.
  unfold lit. revert s. induction (chars w) as [|a l IH]; intros s H; simpl in H |- *.
  - injection H as ->. reflexivity.
  - destruct s as [|b s]; [discriminate|].
    destruct (same_char ic a b); [|discriminate]. apply IH. exact H.
Qed.

Lemma strip_exact (w s s' : list ascii) :
  strip false w s = Some s' -> s = w ++ s'.
Proof.
  revert s. induction w as [|a w IH]; intros s; simpl.
  - intros [= ->]. reflexivity.
  - destruct s as [|b s]; [discriminate|]. unfold same_char.
    destruct (Ascii.eqb_spec a b) as [->|_]; [|discriminate].
    intros H. rewrite (IH _ H). reflexivity.
Qed.

Lemma strip_firstn (w s s' : list ascii) :
  strip false w s = Some s' -> firstn (length s - length s') s = w.
Proof.
  intros H. rewrite (strip_exact w s s' H), length_app.
  replace (length w + length s' - length s')%nat with (length w) by lia.
  rewrite firstn_app, Nat.sub_diag, firstn_all. cbn. apply app_nil_r.
Qed.

End Captures.

(** * The pattern of a condition *)

Section Condition.
Import Js ColumnStore QueryEngine Spec.

Lemma re_condition_parts :
  re_condition =
  Seq (Group 1 (plus re_w)) (Seq (Star true re_s) (Seq (Group 2 re_operator) re_value)).
Proof. reflexivity. Qed.

(** With no quote taken, the value is empty at once. *)
Lemma lazy_value_empty (s : list ascii) (cs : captures) :
  run false (Seq (Group 4 (Star false re_dot)) (Seq (Backref 3) Empty)) s
    ((3%nat, []) :: cs) accept =
  Some (s, (4%nat, []) :: (3%nat, []) :: cs).
Proof.
  cbn [run star_loop]. rewrite Nat.sub_diag. cbn [firstn capture Nat.eqb strip].
  reflexivity.
Qed.

Lemma quote_group (s : list ascii) (cs : captures) :
  run false
    (Seq (Group 3 (opt (Char (fun c => Ascii.eqb c "'" || Ascii.eqb c double_quote))))
       (Seq (Group 4 (Star false re_dot)) (Seq (Backref 3) Empty))) s cs accept =
  match
    match s with
    | c :: s' =>
        if is_quote c
        then run false (Seq (Group 4 (Star false re_dot)) (Seq (Backref 3) Empty)) s'
               ((3%nat, [c]) :: cs) accept
        else None
    | [] => None
    end
  with
  | Some x => Some x
  | None => Some (s, (4%nat, []) :: (3%nat, []) :: cs)
  end.
Proof.
  rewrite <- (lazy_value_empty s cs).
  unfold opt. cbn [run]. rewrite Nat.sub_diag. cbn [firstn].
  destruct s as [|c s']; [reflexivity|].
  unfold is_quote. destruct (Ascii.eqb c "'" || Ascii.eqb c double_quote); [|reflexivity].
  cbn [length]. replace (S (length s') - length s')%nat with 1%nat by lia.
  reflexivity.
Qed.

Lemma quote_group_total (s : list ascii) (cs : captures) :
  is_Some (run false
    (Seq (Group 3 (opt (Char (fun c => Ascii.eqb c "'" || Ascii.eqb c double_quote))))
       (Seq (Group 4 (Star false re_dot)) (Seq (Backref 3) Empty))) s cs accept).
Proof.
  rewrite quote_group.
  destruct (match s with [] => None | c :: s' => _ end); eexists; reflexivity.
Qed.

(** What stands behind the operator never fails. *)
Lemma re_value_total (s : list ascii) (cs : captures) :
  is_Some (run false re_value s cs accept).
Proof.
  unfold re_value, seqs. cbn [fold_right].
  change (run false (Seq (Star true re_s) ?r) s cs accept)
    with (star_loop (run false re_s) true (fun s' cs' => run false r s' cs' accept)
            (S (length s)) s cs).
  cbn [star_loop].
  match goal with |- is_Some (match ?m with Some x => Some x | None => _ end) =>
    destruct m; [eexists; reflexivity|] end.
  apply quote_group_total.
Qed.

Lemma strip_longer (a b : ascii) (s s' : list ascii) :
  strip false [a; b] s = Some s' -> strip false [a] s = Some (b :: s').
Proof.
  destruct s as [|x [|y s]]; cbn [strip]; unfold same_char.
  - discriminate.
  - destruct (Ascii.eqb a x); discriminate.
  - destruct (Ascii.eqb a x); [|discriminate].
    destruct (Ascii.eqb_spec b y) as [->|_]; [|discriminate].
    intros [= ->]. reflexivity.
Qed.

(** With a continuation that never fails, the operator that is matched
    is one of the first three, or the last. *)
Lemma run_operator (s : list ascii) (cs : captures) (k : continuation)
    (res : list ascii * captures) :
  (forall s' cs', is_Some (k s' cs')) ->
  run false re_operator s cs k = Some res ->
  exists op s', In op ["="; ">"; "<"; "!="] /\
    strip false (chars op) s = Some s' /\ k s' cs = Some res.
Proof.
  intros Total. unfold re_operator, alts. cbn [fold_left].
  set (l1 := lit false "="). set (l2 := lit false ">"). set (l3 := lit false "<").
  set (l4 := lit false ">="). set (l5 := lit false "<="). set (l6 := lit false "!=").
  cbn [run].
  assert (Found : forall w x, run false (lit false w) s cs k = Some x ->
                    exists s', strip false (chars w) s = Some s' /\ k s' cs = Some x).
  { intros w x H. exact (run_lit false w _ _ _ _ H). }
  destruct (run false l1 s cs k) eqn:E1.
  { intros [= ->]. destruct (Found "=" _ E1) as (s' & A & B).
    exists "=", s'. cbn. tauto. }
  destruct (run false l2 s cs k) eqn:E2.
  { intros [= ->]. destruct (Found ">" _ E2) as (s' & A & B).
    exists ">", s'. cbn. tauto. }
  destruct (run false l3 s cs k) eqn:E3.
  { intros [= ->]. destruct (Found "<" _ E3) as (s' & A & B).
    exists "<", s'. cbn. tauto. }
  destruct (run false l4 s cs k) eqn:E4.
  { exfalso. destruct (Found ">=" _ E4) as (s' & A & _).
    apply (strip_longer ">" "=") in A.
    unfold l2 in E2. rewrite (run_lit_strip false ">" s _ cs k A) in E2.
    destruct (Total ("="%char :: s') cs) as [x Hx]. congruence. }
  destruct (run false l5 s cs k) eqn:E5.
  { exfalso. destruct (Found "<=" _ E5) as (s' & A & _).
    apply (strip_longer "<" "=") in A.
    unfold l3 in E3. rewrite (run_lit_strip false "<" s _ cs k A) in E3.
    destruct (Total ("="%char :: s') cs) as [x Hx]. congruence. }
  intros H. destruct (Found "!=" _ H) as (s' & A & B).
  exists "!=", s'. cbn. tauto.
Qed.

End Condition.

Section ParseWhere.
Import Js ColumnStore QueryEngine Spec.

Lemma Forall_suffix {A} (P : A -> Prop) (s s' : list A) :
  suffix s' s -> Forall P s -> Forall P s'.
Proof. intros [p ->] F. apply Forall_app in F. apply F. Qed.

(** Without a quote in the text, the value that is matched is empty. *)
Lemma re_value_unquoted (s : list ascii) (cs : captures) (res : list ascii * captures) :
  Forall (fun c => is_quote c = false) s ->
  run false re_value s cs accept = Some res ->
  capture 4 (snd res) = Some [].
Proof.
  intros F. unfold re_value, seqs. cbn [fold_right].
  change (run false (Seq (Star true re_s) ?r) s cs accept)
    with (run false (Star true re_s) s cs (fun s' cs' => run false r s' cs' accept)).
  intros H. destruct (run_captures _ _ _ _ _ _ H) as (s1 & n1 & S1 & _ & H1).
  rewrite quote_group in H1.
  pose proof (Forall_suffix _ _ _ S1 F) as F1.
  destruct s1 as [|c s1].
  - injection H1 as <-. reflexivity.
  - inversion F1 as [|? ? Q _]; subst. rewrite Q in H1. injection H1 as <-. reflexivity.
Qed.

(** A match of the pattern of a condition: the operator that is
    captured is [=], [>], [<] or [!=]; and in a text without a quote the
    value that is captured is empty. *)
Lemma condition_match (s w : list ascii) (cs : captures) :
  search false re_condition s = Some (w, cs) ->
  exists op, In op ["="; ">"; "<"; "!="] /\
    capture 2 cs = Some (chars op) /\
    (Forall (fun c => is_quote c = false) s -> capture 4 cs = Some []).
Proof.
  intros H. destruct (search_suffix _ _ _ _ _ H) as (s0 & s' & S0 & R).
  unfold run_here in R. rewrite re_condition_parts in R.
  change (run false (Seq ?a ?b) s0 [] ?k)
    with (run false a s0 [] (fun s1 cs1 => run false b s1 cs1 k)) in R.
  destruct (run_captures _ _ _ _ _ _ R) as (s1 & n1 & S1 & _ & R1).
  change (run false (Seq ?a ?b) s1 ?c ?k)
    with (run false a s1 c (fun s2 cs2 => run false b s2 cs2 k)) in R1.
  destruct (run_captures _ _ _ _ _ _ R1) as (s2 & n2 & S2 & _ & R2).
  change (run false (Seq (Group 2 re_operator) re_value) s2 ?c ?k)
    with (run false re_operator s2 c
            (fun s3 cs3 =>
               run false re_value s3 ((2%nat, firstn (length s2 - length s3) s2) :: cs3) accept))
    in R2.
  apply run_operator in R2; [|intros s3 cs3; apply re_value_total].
  destruct R2 as (op & s3 & Op & St & R3).
  rewrite (strip_firstn _ _ _ St) in R3.
  exists op. split; [exact Op|].
  split.
  - destruct (run_captures _ _ _ _ _ _ R3) as (s4 & n4 & _ & G & R4).
    unfold accept in R4. injection R4 as _ <-.
    rewrite capture_app_skip; [cbn; reflexivity|].
    eapply List.Forall_impl; [|exact G].
    intros x Hx. cbn in Hx. intros E. rewrite E in Hx. intuition discriminate.
  - intros F.
    assert (S3 : suffix s3 s).
    { etransitivity; [eapply strip_suffix; exact St|].
      etransitivity; [exact S2|]. etransitivity; [exact S1|exact S0]. }
    exact (re_value_unquoted s3 _ _ (Forall_suffix _ _ _ S3 F) R3).
Qed.

(** [parseWhere] never gives [>=] or [<=]; and a clause without a quote
    gets the value [NaN]. *)
Lemma parseWhere_parts (whereClause : string) (p : predicate) :
  parseWhere whereClause = Return p ->
  In (p_operator p) ["="; ">"; "<"; "!="] /\
  (Forall (fun c => is_quote c = false) (chars whereClause) -> p_value p = VNum NaN).
Proof.
  unfold parseWhere, match_.
  destruct (search false re_condition (chars whereClause)) as [[w cs]|] eqn:E;
    [|discriminate].
  destruct (condition_match _ _ _ E) as (op & Op & C2 & C4).
  intros [= <-]. cbn [p_operator p_value]. unfold group_str, group.
  cbn [capture Nat.eqb]. rewrite C2. cbn [fmap option_fmap option_map default].
  split.
  - cbn in Op. destruct Op as [<-|[<-|[<-|[<-|[]]]]]; cbn; tauto.
  - intros F. rewrite (C4 F). reflexivity.
Qed.

End ParseWhere.

(** * [getTableInfo] *)

Section TableInfo.
Import Js ColumnStore Spec.

Lemma getTableInfo_frame (tableName : string) (s : store) :
  snd (getTableInfo tableName s) = s.
Proof.
  unfold getTableInfo, bind at 1, get at 1.
  destruct (JsMap.get String.eqb (tables s) tableName) as [t|]; [|reflexivity].
  unfold bind, lift, ret. destruct (omap _ (columns t)); reflexivity.
Qed.

Lemma getTableInfo_not_found (tableName : string) (s : store) :
  table_of s tableName = None ->
  getTableInfo tableName s = (Throw (table_not_found tableName), s).
Proof. unfold table_of, getTableInfo, bind, get. intros ->. reflexivity. Qed.

(** Two [Map]s with the same keys in the same order, each once, and
    the same value under every key are the same. *)
Lemma assoc_ext {V} (m m' : list (string * V)) :
  map fst m = map fst m' -> NoDup (map fst m) ->
  (forall k, JsMap.get String.eqb m k = JsMap.get String.eqb m' k) ->
  m = m'.
Proof.
  revert m'. induction m as [|[k v] m IH]; intros [|[k' v'] m'] K ND G;
    try discriminate K; [reflexivity|].
  cbn [map fst] in K, ND. injection K as Ek K. subst k'.
  apply NoDup_cons in ND as [Nk ND].
  pose proof (G k) as Gk. cbn [JsMap.get] in Gk. rewrite String.eqb_refl in Gk.
  injection Gk as <-. f_equal. apply IH; [exact K|exact ND|].
  intros x. specialize (G x). cbn [JsMap.get] in G.
  destruct (String.eqb_spec k x) as [Ex|_]; [subst x|exact G].
  assert (A : JsMap.get String.eqb m k = None).
  { destruct (JsMap.get String.eqb m k) eqn:E; [|reflexivity].
    exfalso. apply Nk. apply get_In. rewrite E. eexists; reflexivity. }
  assert (B : JsMap.get String.eqb m' k = None).
  { destruct (JsMap.get String.eqb m' k) eqn:E; [|reflexivity].
    exfalso. apply Nk. rewrite K. apply get_In. rewrite E. eexists; reflexivity. }
  rewrite A, B. reflexivity.
Qed.

Lemma get_schema_map {V} (f : schema_entry -> V) (sch : list schema_entry) (k : string) :
  JsMap.get String.eqb (map (fun e => (s_name e, f e)) sch) k =
  f <$> schema_entry_of sch k.
Proof.
  induction sch as [|e sch IH]; [reflexivity|].
  cbn [map JsMap.get schema_entry_of find].
  destruct (String.eqb (s_name e) k); [reflexivity|exact IH].
Qed.

Lemma created_columns_keys (sch : list schema_entry) (m : list (string * column)) :
  NoDup (map fst m ++ map s_name sch) ->
  map fst (fold_left (fun cols col => JsMap.set String.eqb cols (s_name col) (new_column col))
             sch m) = map fst m ++ map s_name sch.
Proof.
  revert m. induction sch as [|e sch IH]; intros m ND.
  - cbn. rewrite app_nil_r. reflexivity.
  - cbn [fold_left map].
    assert (G : JsMap.get String.eqb m (s_name e) = None).
    { destruct (JsMap.get String.eqb m (s_name e)) eqn:E; [|reflexivity].
      exfalso. apply NoDup_app in ND as (_ & D & _).
      apply (D (s_name e)); [apply get_In; rewrite E; eexists; reflexivity|].
      left. }
    rewrite (set_new String.eqb m (s_name e) (new_column e) G).
    rewrite IH; rewrite map_app; cbn [map fst]; rewrite <- app_assoc; [reflexivity|exact ND].
Qed.

(** The columns after [createTable] and one [insert], for a schema that
    names each column once: one per schema entry, in the order of the
    schema, each holding the fields of its name. *)
Lemma inserted_created_columns (clk : clock) (a b : time) (tableName : string)
    (sch : list schema_entry) (rows : list object) :
  NoDup (map s_name sch) ->
  columns (inserted clk (created_table a b tableName sch) rows) =
  map (fun e => (s_name e,
                 insert_cells (s_type e) (new_column e) (field_values (s_name e) rows)))
    sch.
Proof.
  intros ND.
  assert (K : map fst (columns (created_table a b tableName sch)) = map s_name sch).
  { unfold created_table. cbn [columns]. rewrite created_columns_keys; [reflexivity|].
    exact ND. }
  apply assoc_ext.
  - cbn [inserted columns]. rewrite rows_inserted_keys, K, map_map. reflexivity.
  - cbn [inserted columns]. rewrite rows_inserted_keys, K. exact ND.
  - intros k. rewrite get_schema_map.
    pose proof (inserted_column clk (created_table a b tableName sch) rows k
                  (created_table_well_formed a b tableName sch ND)) as C.
    unfold column_of in C. rewrite C. cbn [schema created_table].
    fold (column_of (created_table a b tableName sch) k).
    rewrite (created_table_column a b tableName sch k ND).
    destruct (schema_entry_of sch k) as [e|] eqn:E; [|reflexivity].
    destruct (schema_entry_of_Some _ _ _ E) as [_ <-]. reflexivity.
Qed.

Lemma insert_value_compression (type : string) (c : column) (v : value) :
  compression (insert_value type c v) = compression c.
Proof.
  unfold insert_value. destruct (strict_eq v VNull || strict_eq v VUndefined); [reflexivity|].
  unfold push_value.
  destruct (dictionary c) as [d|]; [destruct (String.eqb type "string")|]; reflexivity.
Qed.

Lemma insert_cells_compression (type : string) (vs : list value) (c : column) :
  compression (insert_cells type c vs) = compression c.
Proof.
  revert c. induction vs as [|v vs IH]; intros c; [reflexivity|].
  cbn [insert_cells fold_left]. fold (insert_cells type (insert_value type c v) vs).
  rewrite IH. apply insert_value_compression.
Qed.

End TableInfo.

(** * The claims *)

Section Claims.
Import Js ColumnStore QueryEngine Spec Fixtures.




(** C10.  [scan] and [aggregate] leave the store as it was, whatever the
    table name, the selection, the aggregates and the predicate, and
    whether they return or throw; for a name that is not registered they
    throw that the table is not found.  The same holds for the engine
    around them: a query that is executed leaves the store of the engine
    as it was. *)
Theorem read_only_frame :
  forall (clk : clock) (s : ColumnStore.store) (tableName : string)
         (cols : option (list string)) (pred : option predicate)
         (aggregates : list aggregate_spec) (groupBy : option string),
    snd (scan clk tableName cols pred s) = s /\
    snd (aggregate clk tableName aggregates groupBy pred s) = s /\
    (forall (q : query) (h : list execution),
        snd (executeQuery clk q {| store := s; queryHistory := h |}) =
        {| store := s; queryHistory := h |}) /\
    (table_of s tableName = None ->
       scan clk tableName cols pred s = (Throw (table_not_found tableName), s) /\
       aggregate clk tableName aggregates groupBy pred s =
       (Throw (table_not_found tableName), s)).
Proof.
  intros clk s tableName cols pred aggregates groupBy.
  split; [apply scan_frame|]. split; [apply aggregate_frame|].
  split; [intros q h; apply executeQuery_frame|].
  intros T. split.
  - rewrite (surjective_pairing (scan clk tableName cols pred s)).
    rewrite scan_frame, (scan_not_found _ _ _ _ _ T). reflexivity.
  - rewrite (surjective_pairing (aggregate clk tableName aggregates groupBy pred s)).
    rewrite aggregate_frame, (aggregate_not_found _ _ _ _ _ _ T). reflexivity.
Qed.

(** C10 on concrete inputs: the store with the table [t], scanned, and
    asked for a table [u] that it does not have. *)
Lemma read_only_frame_witness :
  table_of dv_store "u" = None /\
  snd (scan clk0 "t" None None dv_store) = dv_store /\
  scan clk0 "u" None None dv_store = (Throw (table_not_found "u"), dv_store) /\
  aggregate clk0 "u" [] None None dv_store = (Throw (table_not_found "u"), dv_store).
Proof.
  assert (T : table_of dv_store "u" = None) by reflexivity.
  split; [exact T|].
  split; [exact (proj1 (read_only_frame clk0 dv_store "t" None None [] None))|].
  exact (proj2 (proj2 (proj2 (read_only_frame clk0 dv_store "u" None None [] None))) T).
Defined.

(** C9.  A statement whose LIMIT clause reads 0 is parsed to a query
    whose limit is the number 0; and a query whose limit is zero is
    executed as the same query without a limit is: the same outcome and
    rows, nothing cut off, and a plan that is the plan without a limit,
    in which no step is a Limit step. *)
Theorem limit_zero_is_no_limit :
  (forall (sql : string) (q : query),
      parse sql = Return q -> limit_text sql = Some "0" ->
      q_limit q = Some (S754_zero false)) /\
  (forall (clk : clock) (q : query) (e : engine) (z : bool),
      q_limit q = Some (S754_zero z) ->
      executeQuery clk q e = executeQuery clk (without_limit q) e /\
      createExecutionPlan q = createExecutionPlan (without_limit q) /\
      Forall (fun st => String.eqb (operation st) "Limit" = false)
        (createExecutionPlan q)).
Proof.
  split.
  - intros sql q P L. rewrite (parse_limit sql q P), L. reflexivity.
  - intros clk q e z L.
    assert (P : createExecutionPlan q = createExecutionPlan (without_limit q)).
    { unfold createExecutionPlan. rewrite L. reflexivity. }
    split; [|split; [exact P|rewrite P; apply plan_without_limit_step]].
    unfold executeQuery. rewrite L. reflexivity.
Qed.

(** C9 on a concrete input: the table with [v] = 3, 1, 2 and a statement
    ending in LIMIT 0, which returns the three rows. *)
Lemma limit_zero_is_no_limit_witness :
  limit_text "SELECT * FROM t LIMIT 0" = Some "0" /\
  returned out_data (fst (execute clk0 "SELECT * FROM t LIMIT 0" v_engine)) =
    Return v_rows /\
  exists q,
    parse "SELECT * FROM t LIMIT 0" = Return q /\
    q_limit q = Some (S754_zero false) /\
    executeQuery clk0 q v_engine = executeQuery clk0 (without_limit q) v_engine /\
    createExecutionPlan q = createExecutionPlan (without_limit q) /\
    Forall (fun st => String.eqb (operation st) "Limit" = false)
      (createExecutionPlan q).
Proof.
  split; [vm_compute; reflexivity|].
  split; [vm_compute; reflexivity|].
  assert (P : parse "SELECT * FROM t LIMIT 0" =
              Return {| q_type := "SELECT"; q_table := "t"; q_columns := ["*"];
                        q_where := None; q_groupBy := None; q_orderBy := None;
                        q_limit := Some (S754_zero false); q_aggregates := [] |})
    by (vm_compute; reflexivity).
  eexists. split; [exact P|].
  split; [apply (proj1 limit_zero_is_no_limit _ _ P); vm_compute; reflexivity|].
  apply (proj2 limit_zero_is_no_limit clk0 _ v_engine false). reflexivity.
Defined.

(** C8: what holds, and the input on which the code departs from it.
    Every call of [execute] appends exactly one record, after those that
    were there, and leaves the store alone; the record of a call that
    returns is the one returned, marked successful; the record of a call
    that throws carries the message of the error, which is the error of
    [parse] or of [executeQuery], thrown again.  [getHistory n] for
    [n >= 1], and [getHistory] without an argument with 10 for [n],
    returns the first [n] records of the history read backwards: at most
    [n], the most recent first.  After [clearHistory] the history is
    empty, so [getHistory] returns none.  But [getHistory 0] returns the
    whole history, read backwards: here, after one query, one record. *)
Theorem history_integrity :
  (forall (clk : clock) (sql : string) (e : engine),
      exists x,
        snd (execute clk sql e) =
          {| store := store e; queryHistory := queryHistory e ++ [x] |} /\
        ex_sql x = sql /\
        match fst (execute clk sql e) with
        | Return r => out_execution r = x /\ success x = true /\ ex_error x = None
        | Throw err =>
            success x = false /\ ex_error x = Some (message err) /\
            (parse sql = Throw err \/
             exists q, parse sql = Return q /\ fst (executeQuery clk q e) = Throw err)
        end) /\
  (forall (e : engine) (n : nat),
      (1 <= n)%nat ->
      getHistory (Some (Z.of_nat n)) e = (Return (firstn n (rev (queryHistory e))), e)) /\
  (forall e : engine,
      getHistory None e = (Return (firstn 10 (rev (queryHistory e))), e)) /\
  (forall (e : engine) (limit : option Z),
      snd (clearHistory e) = {| store := store e; queryHistory := [] |} /\
      fst (getHistory limit (snd (clearHistory e))) = Return []) /\
  (forall e : engine,
      getHistory (Some 0) e = (Return (rev (queryHistory e)), e)) /\
  returned (@length execution)
    (fst (getHistory (Some 0) (snd (execute clk0 "SELECT * FROM t" v_engine)))) =
  Return 1%nat.
Proof.
  split; [|split; [|split; [|split; [|split]]]].
  - intros clk sql e. rewrite (execute_run clk sql e).
    destruct (parse sql) as [q|err] eqn:P.
    + destruct (fst (executeQuery clk q e)) as [r|err] eqn:Q; cbn.
      * eexists. repeat split; reflexivity.
      * eexists. split; [reflexivity|]. split; [reflexivity|].
        split; [reflexivity|]. split; [reflexivity|].
        right. exists q. split; [reflexivity|exact Q].
    + cbn. eexists. split; [reflexivity|]. split; [reflexivity|].
      split; [reflexivity|]. split; [reflexivity|]. left. reflexivity.
  - intros e n H. rewrite getHistory_run. cbn [default].
    rewrite (slice_from_last n _ H). reflexivity.
  - intros e. rewrite getHistory_run. cbn [default].
    change 10 with (Z.of_nat 10). rewrite slice_from_last by lia. reflexivity.
  - intros e limit. split; [reflexivity|].
    rewrite getHistory_run. cbn. unfold slice_from. cbn.
    destruct (- default 10 limit <? 0); rewrite skipn_nil; reflexivity.
  - intros e. rewrite getHistory_run. cbn [default]. change (- 0) with 0.
    rewrite slice_from_zero. reflexivity.
  - vm_compute. reflexivity.
Qed.

(** C8 on a concrete input: the most recent record of an engine that
    has executed one statement. *)
Lemma history_integrity_witness :
  getHistory (Some 1) (snd (execute clk0 "SELECT * FROM t" v_engine)) =
  (Return (firstn 1 (rev (queryHistory (snd (execute clk0 "SELECT * FROM t" v_engine))))),
   snd (execute clk0 "SELECT * FROM t" v_engine)).
Proof.
  apply (proj1 (proj2 history_integrity)
           (snd (execute clk0 "SELECT * FROM t" v_engine)) 1%nat).
  lia.
Defined.

(** C7, as amended.  A statement that, once trimmed and with its white
    space collapsed, does not start with SELECT in any letter case is
    refused as unsupported.  A statement that starts with SELECT and has
    the word FROM nowhere is refused for its SELECT syntax, before the
    FROM clause is looked at: so is SELECT x y.  The parser says that a
    FROM clause is required exactly when the statement starts with
    SELECT and has a SELECT ... FROM span, but no FROM followed by white
    space and a name: so for SELECT x FROM. *)
Theorem parser_rejection :
  (forall sql : string,
      startsWith (toUpperCase (normalize sql)) "SELECT" = false ->
      parse sql = Throw (Error "Only SELECT queries are supported")) /\
  (forall sql : string,
      startsWith (toUpperCase (normalize sql)) "SELECT" = true ->
      occurs true (chars "FROM") (chars (normalize sql)) = false ->
      parse sql = Throw (Error "Invalid SELECT syntax")) /\
  (forall sql : string,
      parse sql = Throw (Error "FROM clause is required") <->
      startsWith (toUpperCase (normalize sql)) "SELECT" = true /\
      is_Some (match_ true re_select (normalize sql)) /\
      match_ true re_from (normalize sql) = None) /\
  parse "DELETE FROM t" = Throw (Error "Only SELECT queries are supported") /\
  parse "SELECT x y" = Throw (Error "Invalid SELECT syntax") /\
  parse "SELECT x FROM" = Throw (Error "FROM clause is required").
Proof.
  split; [|split; [|split; [|split; [|split]]]];
    [| | |vm_compute; reflexivity..].
  - intros sql H. unfold parse. rewrite H. reflexivity.
  - intros sql H O. unfold parse. rewrite H. cbn [negb].
    rewrite (select_needs_from _ O). reflexivity.
  - intros sql. unfold parse.
    destruct (startsWith (toUpperCase (normalize sql)) "SELECT"); cbn [negb].
    + destruct (match_ true re_select (normalize sql)) as [m|].
      * destruct (if String.eqb _ "*" then _ else _) as [cols aggs].
        destruct (match_ true re_from (normalize sql)) as [f|].
        -- split.
           ++ unfold obind.
              destruct (match_ true re_where (normalize sql)) as [w|]; [|discriminate].
              unfold parseWhere.
              destruct (match_ false re_condition _); discriminate.
           ++ intros (_ & _ & H). discriminate H.
        -- split; [intros _|reflexivity].
           split; [reflexivity|]. split; [eexists; reflexivity|reflexivity].
      * split; [discriminate|]. intros (_ & [x H] & _). discriminate H.
    + split; [discriminate|]. intros (H & _). discriminate H.
Qed.

(** C7 on concrete inputs: DELETE FROM t, which does not start with
    SELECT, and SELECT x y, which has no FROM. *)
Lemma parser_rejection_witness :
  startsWith (toUpperCase (normalize "DELETE FROM t")) "SELECT" = false /\
  parse "DELETE FROM t" = Throw (Error "Only SELECT queries are supported") /\
  startsWith (toUpperCase (normalize "SELECT x y")) "SELECT" = true /\
  occurs true (chars "FROM") (chars (normalize "SELECT x y")) = false /\
  parse "SELECT x y" = Throw (Error "Invalid SELECT syntax").
Proof.
  assert (A : startsWith (toUpperCase (normalize "DELETE FROM t")) "SELECT" = false)
    by (vm_compute; reflexivity).
  assert (B : startsWith (toUpperCase (normalize "SELECT x y")) "SELECT" = true)
    by (vm_compute; reflexivity).
  assert (C : occurs true (chars "FROM") (chars (normalize "SELECT x y")) = false)
    by (vm_compute; reflexivity).
  split; [exact A|].
  split; [exact (proj1 parser_rejection "DELETE FROM t" A)|].
  split; [exact B|]. split; [exact C|].
  exact (proj1 (proj2 parser_rejection) "SELECT x y" B C).
Defined.

(** C7 fails on its own example: SELECT x y is refused for its SELECT
    syntax, not for a missing FROM clause. *)
Lemma select_without_from_is_invalid_syntax :
  parse "SELECT x y" = Throw (Error "Invalid SELECT syntax") /\
  String.eqb "Invalid SELECT syntax" "FROM clause is required" = false.
Proof. split; vm_compute; reflexivity. Qed.

(** C5, as amended.  A field that its row does not have reads as
    [undefined] when [Object.prototype] has nothing under its name, and
    as what the prototype has there, which is not null, when it has.  A
    field that is [null] or reads as [undefined]
    makes [insert] count one more null in the column, append a set flag
    and a [null] cell, and leave the smallest and the largest value and
    the dictionary alone.  For a batch inserted into a well-formed table,
    each column gets one flag per row, set exactly for the rows whose
    field is null or reads as [undefined], its null count grows by the
    number of those rows, and its smallest and largest value are what the other rows
    alone would give.  A scan with a predicate returns the rows that
    pass it, and a row whose flag is set in the column of the predicate
    is not among them, whatever the operator, also one that the code
    does not know. *)
Theorem null_handling :
  (forall (row : gmap string value) (name : string),
      row !! name = None ->
      (inherited name = None -> is_null_value (prop row name) = true) /\
      (forall v, inherited name = Some v ->
         prop row name = v /\ is_null_value (prop row name) = false)) /\
  (forall (type : string) (c : column) (v : value),
      is_null_value v = true ->
      nullCount (stats (insert_value type c v)) = S (nullCount (stats c)) /\
      nullBitmap (insert_value type c v) = nullBitmap c ++ [true] /\
      data (insert_value type c v) = data c ++ [VNull] /\
      stats_min (stats (insert_value type c v)) = stats_min (stats c) /\
      stats_max (stats (insert_value type c v)) = stats_max (stats c) /\
      dictionary (insert_value type c v) = dictionary c) /\
  (forall (clk : clock) (s : ColumnStore.store) (tableName : string) (t : table)
          (rows : list object) (name : string) (c : column),
      table_of s tableName = Some t -> well_formed t ->
      column_of t name = Some c ->
      exists r s' t' c' e,
        insert clk tableName rows s = (Return r, s') /\
        table_of s' tableName = Some t' /\
        column_of t' name = Some c' /\
        schema_entry_of (schema t) name = Some e /\
        nullBitmap c' = nullBitmap c ++ map is_null_value (field_values name rows) /\
        nullCount (stats c') =
          (nullCount (stats c) +
           length (List.filter is_null_value (field_values name rows)))%nat /\
        stats_min (stats c') =
          stats_min (stats (insert_cells (s_type e) c
                              (List.filter (fun v => negb (is_null_value v))
                                 (field_values name rows)))) /\
        stats_max (stats c') =
          stats_max (stats (insert_cells (s_type e) c
                              (List.filter (fun v => negb (is_null_value v))
                                 (field_values name rows))))) /\
  (forall (clk : clock) (s : ColumnStore.store) (tableName : string) (t : table)
          (cols : option (list string)) (p : predicate) (c : column) (i : nat),
      table_of s tableName = Some t ->
      Forall (fun cn => is_Some (column_of t cn)) (selected_columns t cols) ->
      column_of t (p_column p) = Some c ->
      is_null c i = true ->
      returned scan_data (fst (scan clk tableName cols (Some p) s)) =
        Return (map (row_at t (selected_columns t cols)) (matching_rows t (Some p))) /\
      row_matches t p i = false /\
      ~ In i (matching_rows t (Some p))).
Proof.
  split; [|split; [|split]].
  - intros row name H. rewrite (prop_absent row name H). split.
    + intros ->. reflexivity.
    + intros v I. rewrite I. split; [reflexivity|exact (inherited_not_null name v I)].
  - intros type c v N. rewrite (insert_value_null type c v N).
    repeat split; reflexivity.
  - intros clk s tableName t rows name c T WF C.
    destruct (inserted_column_Some clk t rows name c WF C) as (e & E & C').
    eexists _, _, (inserted clk t rows), _, e.
    split; [apply (insert_run clk s tableName t rows T (well_formed_all_columns t WF))|].
    split; [apply table_of_set|]. split; [exact C'|]. split; [exact E|].
    destruct (insert_cells_flags (s_type e) (field_values name rows) c) as (F & N & _).
    destruct (insert_cells_stats (s_type e) (field_values name rows) c) as (Mn & Mx).
    repeat split; assumption.
  - intros clk s tableName t cols p c i T F C N.
    rewrite (scan_run clk s tableName t cols (Some p) T F)
      by (rewrite C; eexists; reflexivity).
    split; [reflexivity|]. apply (null_row_never_matches t p c i C N).
Qed.

(** C5 on concrete inputs: a row without an age inserted after five
    rows with one, and a scan for the ages above 30 afterwards. *)
Lemma null_handling_witness :
  is_null_value (prop (<["name" := VStr "Fay"]> ∅) "age") = true /\
  (exists c,
      table_of people_store "people" = Some people_filled /\
      well_formed people_filled /\
      column_of people_filled "age" = Some c /\
      exists r s' t' c' e,
        insert clk0 "people" ageless_rows people_store = (Return r, s') /\
        table_of s' "people" = Some t' /\
        column_of t' "age" = Some c' /\
        schema_entry_of (schema people_filled) "age" = Some e /\
        nullBitmap c' = nullBitmap c ++ map is_null_value (field_values "age" ageless_rows) /\
        nullCount (stats c') =
          (nullCount (stats c) +
           length (List.filter is_null_value (field_values "age" ageless_rows)))%nat /\
        stats_min (stats c') =
          stats_min (stats (insert_cells (s_type e) c
                              (List.filter (fun v => negb (is_null_value v))
                                 (field_values "age" ageless_rows)))) /\
        stats_max (stats c') =
          stats_max (stats (insert_cells (s_type e) c
                              (List.filter (fun v => negb (is_null_value v))
                                 (field_values "age" ageless_rows))))) /\
  (exists c,
      table_of ageless_store "people" = Some people_ageless /\
      column_of people_ageless "age" = Some c /\
      is_null c 5 = true /\
      returned scan_data
        (fst (scan clk0 "people" None (Some (age_above (num 30))) ageless_store)) =
        Return (map (row_at people_ageless (selected_columns people_ageless None))
                  (matching_rows people_ageless (Some (age_above (num 30))))) /\
      row_matches people_ageless (age_above (num 30)) 5 = false /\
      ~ In 5%nat (matching_rows people_ageless (Some (age_above (num 30))))).
Proof.
  assert (ND : NoDup (map s_name people_schema)).
  { apply (bool_decide_unpack _). vm_compute. exact I. }
  assert (W0 : well_formed people_table)
    by apply (created_table_well_formed 0 0 "people" people_schema ND).
  assert (W1 : well_formed people_filled) by (apply inserted_well_formed; exact W0).
  split; [apply (proj1 null_handling (<["name" := VStr "Fay"]> ∅) "age");
          reflexivity|]. split.
  - assert (T : table_of people_store "people" = Some people_filled)
      by (vm_compute; reflexivity).
    eexists. split; [exact T|]. split; [exact W1|].
    assert (C : column_of people_filled "age" = Some _) by (vm_compute; reflexivity).
    split; [exact C|].
    exact (proj1 (proj2 (proj2 null_handling)) clk0 people_store "people"
             people_filled ageless_rows "age" _ T W1 C).
  - assert (T : table_of ageless_store "people" = Some people_ageless)
      by (vm_compute; reflexivity).
    assert (C : column_of people_ageless "age" = Some _) by (vm_compute; reflexivity).
    match type of C with _ = Some ?c =>
      exists c; assert (N : is_null c 5 = true) by reflexivity
    end.
    split; [exact T|]. split; [exact C|]. split; [exact N|].
    refine (proj2 (proj2 (proj2 null_handling)) clk0 ageless_store "people"
              people_ageless None (age_above (num 30)) _ 5%nat T _ C N).
    apply (bool_decide_unpack _). vm_compute. exact I.
Defined.

(** C5 fails for a field that is absent under a name that
    [Object.prototype] defines: a row without a field [constructor],
    inserted into a table with a column of that name, leaves no null
    counted and no flag set, and the function [Object] in the cell. *)
Lemma absent_constructor_field_is_not_null :
  (({[ "id" := num 1 ]} : gmap string value) !! "constructor") = None /\
  ((fun c => (nullCount (stats c), nullBitmap c, data c)) <$>
     (table_of ctor_created "t" ≫= fun t => column_of t "constructor")) =
    Some (O, [], []) /\
  ((fun c => (nullCount (stats c), nullBitmap c, data c)) <$>
     (table_of ctor_store "t" ≫= fun t => column_of t "constructor")) =
    Some (O, [false], [VObj (Builtin "Object")]).
Proof. repeat split; vm_compute; reflexivity. Qed.

(** C3: what holds, and the inputs on which the code departs from it.
    A scan with a predicate whose column exists returns exactly the rows
    that pass it, in the order of the table: on the ages 20 to 60 and
    the predicate age > 30, those of 40, 50 and 60.  A quoted value is
    parsed as written, a number when it reads as one.  But the pattern of
    a condition tries [>] before [>=] and [<] before [<=], and ends its
    value as early as it can: [age >= 30] is parsed with the operator [>]
    and, as every value without quotes, with the value [NaN], so that a
    statement with WHERE age > 30 returns no row. *)
Theorem where_clause_divergence :
  (forall (clk : clock) (s : ColumnStore.store) (tableName : string) (t : table)
          (cols : option (list string)) (p : predicate),
      table_of s tableName = Some t ->
      Forall (fun cn => is_Some (column_of t cn)) (selected_columns t cols) ->
      is_Some (column_of t (p_column p)) ->
      returned scan_data (fst (scan clk tableName cols (Some p) s)) =
      Return (map (row_at t (selected_columns t cols)) (matching_rows t (Some p)))) /\
  returned (fun r => field_values "age" (scan_data r))
    (fst (scan clk0 "people" None (Some (age_above (num 30))) people_store)) =
    Return [num 40; num 50; num 60] /\
  parseWhere "name = 'Ann'" =
    Return {| p_column := "name"; p_operator := "="; p_value := VStr "Ann" |} /\
  parseWhere "age > '30'" =
    Return {| p_column := "age"; p_operator := ">"; p_value := num 30 |} /\
  parseWhere "age >= 30" =
    Return {| p_column := "age"; p_operator := ">"; p_value := VNum NaN |} /\
  parseWhere "age <= 30" =
    Return {| p_column := "age"; p_operator := "<"; p_value := VNum NaN |} /\
  parseWhere "age > 30" =
    Return {| p_column := "age"; p_operator := ">"; p_value := VNum NaN |} /\
  returned out_data
    (fst (execute clk0 "SELECT age FROM people WHERE age > 30" people_engine)) =
    Return [] /\
  returned (fun r => field_values "age" (out_data r))
    (fst (execute clk0 "SELECT age FROM people WHERE age > '30'" people_engine)) =
    Return [num 40; num 50; num 60].
Proof.
  split.
  - intros clk s tableName t cols p T F P.
    rewrite (scan_run clk s tableName t cols (Some p) T F P). reflexivity.
  - repeat split; vm_compute; reflexivity.
Qed.

(** C3 on a concrete input: the scan of [people] for the ages above 30. *)
Lemma where_clause_divergence_witness :
  table_of people_store "people" = Some people_filled /\
  returned scan_data
    (fst (scan clk0 "people" None (Some (age_above (num 30))) people_store)) =
  Return (map (row_at people_filled (selected_columns people_filled None))
            (matching_rows people_filled (Some (age_above (num 30))))).
Proof.
  assert (T : table_of people_store "people" = Some people_filled)
    by (vm_compute; reflexivity).
  split; [exact T|].
  apply (proj1 where_clause_divergence clk0 people_store "people" people_filled None
           (age_above (num 30)) T).
  - apply (bool_decide_unpack _). vm_compute. exact I.
  - vm_compute. eexists. reflexivity.
Defined.

(** C6, as amended.  For a query with an ORDER BY and a LIMIT [k],
    [1 <= k < 2^53], whose rows the store returns: the result is the
    first [k] of the ordered rows.  The ordered rows are a permutation of
    the rows; when their keys compare consistently (all strings, or all
    compared as numbers and none [NaN]) no row stands before one that the
    order puts strictly before it (ascending for ASC, descending
    otherwise), and rows that tie keep the order they came in.  On the
    rows with [v] = 3, 1, 2, ORDER BY v DESC LIMIT 2 returns the row with
    3, then the row with 2. *)
Theorem order_by_then_limit :
  (forall (clk : clock) (q : query) (e e' : engine) (o : order_by) (k : nat)
          (result : query_result),
      q_orderBy q = Some o ->
      q_limit q = Some (num_of_nat k) ->
      (1 <= k)%nat -> Z.of_nat k < 2 ^ 53 ->
      fetch clk q e = (Return result, e') ->
      executeQuery clk q e =
        (Return {| res_data := firstn k (applyOrderBy (res_data result) o);
                   res_metadata := res_metadata result |}, e') /\
      Permutation (applyOrderBy (res_data result) o) (res_data result) /\
      (comparable_keys (ob_column o) (res_data result) ->
       StronglySorted (fun a b => out_of_order o a b = false)
         (applyOrderBy (res_data result) o) /\
       forall z, In z (res_data result) ->
         List.filter (tie o z) (applyOrderBy (res_data result) o) =
         List.filter (tie o z) (res_data result))) /\
  returned out_data
    (fst (execute clk0 "SELECT * FROM t ORDER BY v DESC LIMIT 2" v_engine)) =
  Return [ {[ "v" := num 3 ]}; {[ "v" := num 2 ]} ].
Proof.
  split; [|vm_compute; reflexivity].
  intros clk q e e' o k result O L K B F.
  destruct (limit_number k K B) as [T S].
  split; [|split].
  - unfold executeQuery, bind. rewrite F, O, L, T, S. reflexivity.
  - apply applyOrderBy_perm.
  - apply applyOrderBy_sorted.
Qed.

(** C6 on a concrete input: the query of ORDER BY v DESC LIMIT 2 on the
    table with [v] = 3, 1, 2. *)
Lemma order_by_then_limit_witness :
  exists q result,
    parse "SELECT * FROM t ORDER BY v DESC LIMIT 2" = Return q /\
    q_orderBy q = Some {| ob_column := "v"; ob_direction := "DESC" |} /\
    q_limit q = Some (num_of_nat 2) /\
    fetch clk0 q v_engine = (Return result, v_engine) /\
    res_data result = v_rows /\
    comparable_keys "v" (res_data result) /\
    executeQuery clk0 q v_engine =
      (Return {| res_data :=
                   firstn 2 (applyOrderBy (res_data result)
                               {| ob_column := "v"; ob_direction := "DESC" |});
                 res_metadata := res_metadata result |}, v_engine) /\
    Permutation
      (applyOrderBy (res_data result) {| ob_column := "v"; ob_direction := "DESC" |})
      (res_data result) /\
    StronglySorted
      (fun a b => out_of_order {| ob_column := "v"; ob_direction := "DESC" |} a b = false)
      (applyOrderBy (res_data result) {| ob_column := "v"; ob_direction := "DESC" |}).
Proof.
  pose (q := {| q_type := "SELECT"; q_table := "t"; q_columns := ["*"];
                q_where := None; q_groupBy := None;
                q_orderBy := Some {| ob_column := "v"; ob_direction := "DESC" |};
                q_limit := Some (num_of_nat 2); q_aggregates := [] |}).
  assert (F : { r | fetch clk0 q v_engine = (Return r, v_engine) /\
                    res_data r = v_rows }).
  { eexists. split; vm_compute; reflexivity. }
  destruct F as [r [F D]]. exists q, r.
  split; [vm_compute; reflexivity|].
  split; [reflexivity|]. split; [reflexivity|].
  split; [exact F|]. split; [exact D|].
  assert (C : comparable_keys "v" (res_data r)).
  { rewrite D. left. repeat constructor. }
  split; [exact C|].
  destruct (proj1 order_by_then_limit clk0 q v_engine v_engine
              {| ob_column := "v"; ob_direction := "DESC" |} 2%nat r
              eq_refl eq_refl ltac:(lia) ltac:(lia) F) as (X & Y & Z).
  split; [exact X|]. split; [exact Y|]. exact (proj1 (Z C)).
Defined.

(** C6 fails in two ways.  The comparison is no total order on keys
    that do not compare consistently: under ORDER BY name the name b
    ties with null and null ties with a, yet b stands after a; the rows
    b, null, a stay as they are, b before a.  And LIMIT 0 cuts nothing
    off: the three rows come back. *)
Lemma order_by_limit_zero_and_null_keys :
  compare_rows {| ob_column := "name"; ob_direction := "ASC" |}
    {[ "name" := VStr "b" ]} {[ "name" := VNull ]} = 0 /\
  compare_rows {| ob_column := "name"; ob_direction := "ASC" |}
    {[ "name" := VNull ]} {[ "name" := VStr "a" ]} = 0 /\
  compare_rows {| ob_column := "name"; ob_direction := "ASC" |}
    {[ "name" := VStr "b" ]} {[ "name" := VStr "a" ]} = 1 /\
  returned (fun r => field_values "name" (out_data r))
    (fst (execute clk0 "SELECT * FROM n ORDER BY name ASC" names_engine)) =
    Return [VStr "b"; VNull; VStr "a"] /\
  js_lt (VStr "a") (VStr "b") = true /\
  returned (fun r => field_values "v" (out_data r))
    (fst (execute clk0 "SELECT * FROM t ORDER BY v DESC LIMIT 0" v_engine)) =
    Return [num 3; num 2; num 1].
Proof. repeat split; vm_compute; reflexivity. Qed.

(** C1.  A new string column takes a sequence of strings and nulls,
    fewer than [2^53] of them.  Its dictionary then gives the distinct
    strings, in the order they were first seen, the codes 0, 1, 2, ...;
    each cell holds the code of its string, [null] for a null; and
    decoding the cells through the dictionary, as [scan] does, gives the
    sequence back.  The same through the store: after [createTable] and
    [insert], [scan] of the string column returns the inserted fields in
    order.  Inserting b, a, b gives the dictionary b: 0, a: 1 and the
    cells 0, 1, 0. *)
Theorem dictionary_round_trip :
  (forall (e : schema_entry) (vs : list (option string)),
      s_type e = "string" -> Z.of_nat (length vs) < 2 ^ 53 ->
      dictionary (insert_cells (s_type e) (new_column e) (map cell_of vs)) =
        Some (codes (first_seen vs)) /\
      NoDup (first_seen vs) /\
      data (insert_cells (s_type e) (new_column e) (map cell_of vs)) =
        map (coded_cell (first_seen vs)) vs /\
      map (shown (insert_cells (s_type e) (new_column e) (map cell_of vs)))
        (seq 0 (length vs)) = map cell_of vs) /\
  (forall (clk : clock) (a b : time) (tableName name : string)
          (sch : list schema_entry) (e : schema_entry) (rows : list object)
          (vs : list (option string)) (s : ColumnStore.store),
      NoDup (map s_name sch) ->
      schema_entry_of sch name = Some e -> s_type e = "string" ->
      field_values name rows = map cell_of vs ->
      Z.of_nat (length vs) < 2 ^ 53 ->
      returned scan_data
        (fst ((createTable a b tableName sch;;
               insert clk tableName rows;;
               scan clk tableName (Some [name]) None)%js s)) =
      Return (map (fun o => {[ name := cell_of o ]}) vs)) /\
  dictionary (insert_cells "string" (new_column (column_def "s" "string"))
                [VStr "b"; VStr "a"; VStr "b"]) =
    Some [(VStr "b", num_of_nat 0); (VStr "a", num_of_nat 1)] /\
  data (insert_cells "string" (new_column (column_def "s" "string"))
          [VStr "b"; VStr "a"; VStr "b"]) =
    [VNum (num_of_nat 0); VNum (num_of_nat 1); VNum (num_of_nat 0)].
Proof.
  split; [|split; [|split; vm_compute; reflexivity]].
  - intros e vs T B.
    assert (D0 : dictionary (new_column e) = Some [])
      by (unfold new_column; cbn [dictionary]; rewrite T; reflexivity).
    pose proof (shown_inserted e vs T B) as S. rewrite T in S |- *.
    destruct (insert_cells_coded (new_column e) vs D0 eq_refl eq_refl) as (D & A & _).
    split; [exact D|]. split; [apply first_seen_NoDup|]. split; [exact A|exact S].
  - intros clk a b tableName name sch e rows vs s.
    apply scan_inserted_strings.
Qed.

(** C1 on the strings b, a, b, and on the column [d] of the table with
    the rows X, X, Y. *)
Lemma dictionary_round_trip_witness :
  map (shown (insert_cells "string" (new_column (column_def "s" "string"))
                (map cell_of [Some "b"; Some "a"; Some "b"])))
    (seq 0 3) = [VStr "b"; VStr "a"; VStr "b"] /\
  returned scan_data
    (fst ((createTable 0 0 "t" dv_schema;;
           insert clk0 "t" dv_rows;;
           scan clk0 "t" (Some ["d"]) None)%js ColumnStore.constructor)) =
  Return [ {[ "d" := VStr "X" ]}; {[ "d" := VStr "X" ]}; {[ "d" := VStr "Y" ]} ].
Proof.
  destruct dictionary_round_trip as (Col & Tab & _).
  split.
  - apply (Col (column_def "s" "string") [Some "b"; Some "a"; Some "b"]);
      [reflexivity|vm_compute; reflexivity].
  - apply (Tab clk0 0 0 "t" "d" dv_schema (column_def "d" "string") dv_rows
             [Some "X"; Some "X"; Some "Y"] ColumnStore.constructor).
    + apply (bool_decide_unpack _). vm_compute. exact I.
    + reflexivity.
    + reflexivity.
    + vm_compute. reflexivity.
    + vm_compute. reflexivity.
Defined.

(** C4, as amended.  [aggregate] with a GROUP BY column on a registered
    table gives one result per group key, the keys in the order of their
    first occurrence among the scanned rows, each result filled from the
    rows of that key; with one aggregate the result row holds the key and
    the value of the aggregate.  COUNT over [*] is the number of rows,
    over a column the number of its values that are not null; no
    aggregate over a column changes when the rows with a null there are
    left out.  When the values that are not null are numbers, SUM is
    their sum from 0, AVG that sum divided by their number, [NaN] when
    there is none, and MIN and MAX, when there is at least one and none is
    [NaN], are the least and the greatest of them.  When one of the
    values that are not null does not read as a number, MIN and MAX are
    [NaN]; when there is no such value at all, MIN is [Infinity] and MAX
    is [-Infinity].  On the rows (X, 10),
    (X, 20), (Y, 5), SUM(v) by [d] gives X with 30, then Y with 5; and
    rows with the keys [-0] and [+0] are one group, whose key is [+0]. *)
Theorem aggregate_by_group :
  (forall (clk : clock) (s : ColumnStore.store) (tableName : string) (t : table)
          (aggregates : list aggregate_spec) (g : string) (pred : option predicate),
      table_of s tableName = Some t -> g <> "" ->
      match pred with Some p => is_Some (column_of t (p_column p)) | None => True end ->
      aggregate clk tableName aggregates (Some g) pred s =
      (obind
         (omap (fun k => fill_result (<[g := k]> (∅ : gmap string value)) aggregates
                           (group_of g k (scanned_rows t pred)))
            (group_keys g (scanned_rows t pred)))
         (fun results =>
            Return {| agg_data := results;
                      agg_meta :=
                        {| aggregateTime := toFixed2 (clk_aggregate clk) +:+ "ms";
                           groupCount := length results |} |}),
       s)) /\
  (forall (g : string) (k : value) (agg : aggregate_spec) (rows : list object),
      fill_result (<[g := k]> (∅ : gmap string value)) [agg] rows =
      returned (group_result g k agg)
        (computeAggregate rows (agg_column agg) (agg_function agg))) /\
  (forall (rows : list object) (column_ func : string) (nums : list number),
      (toUpperCase func = "COUNT" ->
       computeAggregate rows "*" func = Return (VNum (num_of_nat (length rows)))) /\
      (toUpperCase func = "COUNT" -> column_ <> "*" ->
       computeAggregate rows column_ func =
       Return (VNum (num_of_nat (length (non_null column_ rows))))) /\
      (column_ <> "*" ->
       computeAggregate (with_value column_ rows) column_ func =
       computeAggregate rows column_ func) /\
      (Exists (fun v => num_is_nan (ToNumber v) = true) (non_null column_ rows) ->
       (toUpperCase func = "MIN" ->
        computeAggregate rows column_ func = Return (VNum NaN)) /\
       (toUpperCase func = "MAX" ->
        computeAggregate rows column_ func = Return (VNum NaN))) /\
      (non_null column_ rows = [] ->
       (toUpperCase func = "MIN" ->
        computeAggregate rows column_ func = Return (VNum Infinity)) /\
       (toUpperCase func = "MAX" ->
        computeAggregate rows column_ func = Return (VNum NegInfinity))) /\
      (non_null column_ rows = map VNum nums ->
       (toUpperCase func = "SUM" ->
        computeAggregate rows column_ func =
        Return (VNum (fold_left num_add nums (S754_zero false)))) /\
       (toUpperCase func = "AVG" ->
        computeAggregate rows column_ func =
        Return (VNum (num_div (fold_left num_add nums (S754_zero false))
                        (num_of_nat (length nums))))) /\
       (toUpperCase func = "AVG" -> nums = [] ->
        computeAggregate rows column_ func = Return (VNum NaN)) /\
       (toUpperCase func = "MIN" -> nums <> [] ->
        Forall (fun x => num_is_nan x = false) nums ->
        exists m, computeAggregate rows column_ func = Return (VNum m) /\
                  is_minimum m nums) /\
       (toUpperCase func = "MAX" -> nums <> [] ->
        Forall (fun x => num_is_nan x = false) nums ->
        exists m, computeAggregate rows column_ func = Return (VNum m) /\
                  is_maximum m nums))) /\
  returned agg_data
    (fst (aggregate clk0 "t"
            [ {| agg_function := "SUM"; agg_column := "v"; agg_alias := None |} ]
            (Some "d") None dv_store)) =
  Return [ {[ "d" := VStr "X"; "SUM" := num 30 ]};
           {[ "d" := VStr "Y"; "SUM" := num 5 ]} ] /\
  map fst (group_rows "d" [ {[ "d" := VNum (S754_zero true) ]};
                            {[ "d" := VNum (S754_zero false) ]} ]) =
  [VNum (S754_zero false)].
Proof.
  split; [|split; [|split; [|split; vm_compute; reflexivity]]].
  - intros clk s tableName t aggregates g pred. apply aggregate_run.
  - intros g k agg rows. unfold fill_result, returned, group_result.
    cbn [fold_left obind].
    destruct (computeAggregate rows (agg_column agg) (agg_function agg)); reflexivity.
  - intros rows column_ func nums.
    split; [apply computeAggregate_count_all|].
    split; [apply computeAggregate_count|].
    split.
    { intros N. apply computeAggregate_values; [exact N|apply non_null_with_value]. }
    split.
    { intros X. destruct (Math_min_max_nan _ X) as [Mn Mx].
      split; intros U; unfold computeAggregate; rewrite U; cbn [String.eqb Ascii.eqb Bool.eqb];
        fold (field_values column_ rows); fold (non_null column_ rows);
        [rewrite Mn|rewrite Mx]; reflexivity. }
    split.
    { intros Z.
      split; intros U; unfold computeAggregate; rewrite U; cbn [String.eqb Ascii.eqb Bool.eqb];
        fold (field_values column_ rows); fold (non_null column_ rows);
        rewrite Z; reflexivity. }
    intros E.
    split; [intros U; exact (computeAggregate_sum rows column_ func nums U E)|].
    split; [intros U; exact (computeAggregate_avg rows column_ func nums U E)|].
    split.
    { intros U ->. rewrite (computeAggregate_avg rows column_ func [] U E). reflexivity. }
    split.
    + intros U N F. eexists. split; [exact (computeAggregate_min rows column_ func nums U E)|].
      apply Math_min_minimum; assumption.
    + intros U N F. eexists. split; [exact (computeAggregate_max rows column_ func nums U E)|].
      apply Math_max_maximum; assumption.
Qed.

(** C4 on the table with the rows (X, 10), (X, 20), (Y, 5): the groups of
    [d], and the least value of [v]. *)
Lemma aggregate_by_group_witness :
  aggregate clk0 "t"
    [ {| agg_function := "COUNT"; agg_column := "*"; agg_alias := None |} ]
    (Some "d") None dv_store =
  (obind
     (omap (fun k => fill_result (<["d" := k]> (∅ : gmap string value))
                       [ {| agg_function := "COUNT"; agg_column := "*";
                            agg_alias := None |} ]
                       (group_of "d" k (scanned_rows (inserted clk0 dv_table dv_rows) None)))
        (group_keys "d" (scanned_rows (inserted clk0 dv_table dv_rows) None)))
     (fun results =>
        Return {| agg_data := results;
                  agg_meta :=
                    {| aggregateTime := toFixed2 (clk_aggregate clk0) +:+ "ms";
                       groupCount := length results |} |}),
   dv_store) /\
  exists m, computeAggregate dv_rows "v" "min" = Return (VNum m) /\
            is_minimum m [num_of_Z 10; num_of_Z 20; num_of_Z 5].
Proof.
  destruct aggregate_by_group as (Run & _ & Fun & _).
  split.
  - apply (Run clk0 dv_store "t" (inserted clk0 dv_table dv_rows)).
    + vm_compute. reflexivity.
    + discriminate.
    + exact I.
  - destruct (Fun dv_rows "v" "min" [num_of_Z 10; num_of_Z 20; num_of_Z 5])
      as (_ & _ & _ & _ & _ & Num).
    destruct (Num ltac:(vm_compute; reflexivity)) as (_ & _ & _ & Min & _).
    apply Min.
    + reflexivity.
    + discriminate.
    + repeat constructor.
Defined.

(** C4 fails for MIN and MAX where the values are strings, and where
    there is no value: over the column [d] with X, X, Y, where X is below
    Y, MIN and MAX are [NaN]; over no rows MIN is [Infinity] and MAX is
    [-Infinity]. *)
Lemma aggregate_min_max_of_strings :
  non_null "d" dv_rows = [VStr "X"; VStr "X"; VStr "Y"] /\
  js_lt (VStr "X") (VStr "Y") = true /\
  computeAggregate dv_rows "d" "MIN" = Return (VNum NaN) /\
  computeAggregate dv_rows "d" "MAX" = Return (VNum NaN) /\
  returned agg_data
    (fst (aggregate clk0 "t"
            [ {| agg_function := "MIN"; agg_column := "d"; agg_alias := None |} ]
            (Some "d") None dv_store)) =
  Return [ {[ "d" := VStr "X"; "MIN" := VNum NaN ]};
           {[ "d" := VStr "Y"; "MIN" := VNum NaN ]} ] /\
  computeAggregate [] "v" "MIN" = Return (VNum Infinity) /\
  computeAggregate [] "v" "MAX" = Return (VNum NegInfinity).
Proof. repeat split; vm_compute; reflexivity. Qed.

End Claims.

(** * More of the store *)

Section StoreCoverage.
Import Js ColumnStore Spec Fixtures.

(** [createTable] never fails.  It registers an empty table under the
    name: no rows, every column empty.  A table that was registered
    under the name is replaced, its rows are gone; the tables of other
    names stay as they were. *)
Theorem createTable_replaces_table (a b : time) (tableName : string)
    (sch : list schema_entry) (s : store) :
  fst (createTable a b tableName sch s) = Return (created_table a b tableName sch) /\
  table_of (snd (createTable a b tableName sch s)) tableName =
    Some (created_table a b tableName sch) /\
  rowCount (created_table a b tableName sch) = O /\
  Forall (fun kv => empty_column (snd kv)) (columns (created_table a b tableName sch)) /\
  forall other, other <> tableName ->
    table_of (snd (createTable a b tableName sch s)) other = table_of s other.
Proof.
  rewrite createTable_run. cbn [fst snd].
  split; [reflexivity|]. split; [apply table_of_set|]. split; [reflexivity|].
  split; [apply created_columns_empty|].
  intros other N. unfold table_of. cbn [tables]. rewrite get_set.
  destruct (String.eqb_spec tableName other); [congruence|reflexivity].
Qed.

(** On the store whose table [t] has three rows: created again, [t] has
    none, and a table [u] is as absent as before. *)
Lemma createTable_replaces_table_witness :
  (rowCount <$> table_of dv_store "t") = Some 3%nat /\
  (rowCount <$> table_of (snd (createTable 0 0 "t" dv_schema dv_store)) "t") = Some O /\
  table_of (snd (createTable 0 0 "t" dv_schema dv_store)) "u" = table_of dv_store "u".
Proof.
  destruct (createTable_replaces_table 0 0 "t" dv_schema dv_store) as (_ & T & _ & _ & O).
  split; [reflexivity|]. split; [rewrite T; reflexivity|].
  apply O. discriminate.
Defined.

(** [insert] into a name that is not registered throws that the table
    is not found and leaves the store as it was; and whatever it does,
    [insert] leaves the tables of other names as they were. *)
Theorem insert_touches_one_table (clk : clock) (s : store) (tableName : string)
    (rows : list object) :
  (table_of s tableName = None ->
   insert clk tableName rows s = (Throw (table_not_found tableName), s)) /\
  (forall other, other <> tableName ->
     table_of (snd (insert clk tableName rows s)) other = table_of s other).
Proof.
  split; [apply insert_not_found|]. intros other N. apply insert_other. exact N.
Qed.

Lemma insert_touches_one_table_witness :
  insert clk0 "u" dv_rows dv_store = (Throw (table_not_found "u"), dv_store) /\
  table_of (snd (insert clk0 "u" dv_rows dv_store)) "t" = table_of dv_store "t".
Proof.
  destruct (insert_touches_one_table clk0 dv_store "u" dv_rows) as [A B].
  split; [apply A; reflexivity|apply B; discriminate].
Defined.



(** The count of distinct values in the statistics of a column is never
    updated: it is 0 whatever has been inserted. *)
Theorem distinct_count_stays_zero (e : schema_entry) (vs : list value) :
  distinctCount (stats (insert_cells (s_type e) (new_column e) vs)) = O.
Proof. rewrite insert_cells_distinctCount. reflexivity. Qed.

(** When the fields inserted into a new column that are not null are
    numbers, none [NaN], the smallest and the largest value of its
    statistics are the least and the greatest of them; while only nulls
    have been inserted, both are [null]. *)
Theorem column_statistics_extrema (e : schema_entry) (vs : list value)
    (nums : list number) :
  List.filter (fun v => negb (is_null_value v)) vs = map VNum nums ->
  Forall (fun x => num_is_nan x = false) nums ->
  (nums = [] ->
   stats_min (stats (insert_cells (s_type e) (new_column e) vs)) = VNull /\
   stats_max (stats (insert_cells (s_type e) (new_column e) vs)) = VNull) /\
  (nums <> [] ->
   exists mn mx,
     stats_min (stats (insert_cells (s_type e) (new_column e) vs)) = VNum mn /\
     stats_max (stats (insert_cells (s_type e) (new_column e) vs)) = VNum mx /\
     is_minimum mn nums /\ is_maximum mx nums).
Proof.
  intros E F.
  destruct (insert_cells_stats (s_type e) vs (new_column e)) as [Mn Mx].
  rewrite E in Mn, Mx. rewrite Mn, Mx. split.
  - intros ->. split; reflexivity.
  - intros N. apply new_column_numbers_stats; assumption.
Qed.

Lemma column_statistics_extrema_witness :
  exists mn mx,
    stats_min (stats (insert_cells "integer" (new_column (column_def "v" "integer"))
                        [num 10; VNull; num 20; num 5])) = VNum mn /\
    stats_max (stats (insert_cells "integer" (new_column (column_def "v" "integer"))
                        [num 10; VNull; num 20; num 5])) = VNum mx /\
    is_minimum mn [num_of_Z 10; num_of_Z 20; num_of_Z 5] /\
    is_maximum mx [num_of_Z 10; num_of_Z 20; num_of_Z 5].
Proof.
  apply (column_statistics_extrema (column_def "v" "integer")
           [num 10; VNull; num 20; num 5] [num_of_Z 10; num_of_Z 20; num_of_Z 5]).
  - reflexivity.
  - repeat constructor.
  - discriminate.
Defined.

(** The dictionary of a string column only grows: after more
    insertions it is the dictionary as it was, followed by new entries;
    its codes are 0, 1, 2, ... in the order of the entries, and it has
    no more entries than there were insertions. *)
Theorem dictionary_only_grows (e : schema_entry) (vs ws : list (option string)) :
  s_type e = "string" ->
  exists d more,
    dictionary (insert_cells (s_type e) (new_column e) (map cell_of vs)) = Some d /\
    dictionary (insert_cells (s_type e) (new_column e) (map cell_of (vs ++ ws))) =
      Some (d ++ more) /\
    map snd (d ++ more) = map num_of_nat (seq 0 (length (d ++ more))) /\
    (JsMap.size d <= length vs)%nat.
Proof.
  intros T. rewrite T.
  assert (D0 : dictionary (new_column e) = Some [])
    by (unfold new_column; cbn [dictionary]; rewrite T; reflexivity).
  destruct (insert_cells_coded (new_column e) vs D0 eq_refl eq_refl) as (D1 & _ & _).
  destruct (insert_cells_coded (new_column e) (vs ++ ws) D0 eq_refl eq_refl) as (D2 & _ & _).
  destruct (first_seen_extends vs ws) as [more M].
  exists (codes (first_seen vs)), (codes_from (length (first_seen vs)) more).
  split; [exact D1|].
  assert (C : codes (first_seen vs) ++ codes_from (length (first_seen vs)) more =
              codes (first_seen (vs ++ ws))).
  { rewrite M. unfold codes. rewrite codes_from_app. reflexivity. }
  rewrite C. split; [exact D2|]. split.
  - unfold codes. rewrite codes_from_snd, codes_from_length. reflexivity.
  - unfold JsMap.size, codes. rewrite codes_from_length. apply first_seen_length.
Qed.

Lemma dictionary_only_grows_witness :
  exists d more,
    dictionary (insert_cells "string" (new_column (column_def "s" "string"))
                  (map cell_of [Some "b"; Some "a"])) = Some d /\
    dictionary (insert_cells "string" (new_column (column_def "s" "string"))
                  (map cell_of ([Some "b"; Some "a"] ++ [Some "c"; Some "b"]))) =
      Some (d ++ more) /\
    map snd (d ++ more) = map num_of_nat (seq 0 (length (d ++ more))) /\
    (JsMap.size d <= 2)%nat.
Proof.
  exact (dictionary_only_grows (column_def "s" "string") [Some "b"; Some "a"]
           [Some "c"; Some "b"] eq_refl).
Defined.

(** A column that is not a string column gives back what [insert]
    read: after [createTable] with a schema that names each column once
    and an [insert], [scan] of the column, when it is not named
    [__proto__], returns for each row in order what the field reads as,
    whatever that is: the field of the row, or for a row without it
    what [Object.prototype] has under the name, such as the function
    [Object] under [constructor]; a field that is null or reads as
    [undefined] comes back as [null]. *)
Theorem plain_column_round_trip (clk : clock) (a b : time) (tableName name : string)
    (sch : list schema_entry) (e : schema_entry) (rows : list object) (s : store) :
  NoDup (map s_name sch) ->
  schema_entry_of sch name = Some e -> s_type e <> "string" ->
  name <> "__proto__" ->
  returned scan_data
    (fst ((createTable a b tableName sch;;
           insert clk tableName rows;;
           scan clk tableName (Some [name]) None)%js s)) =
  Return (map (fun r => {[ name := if is_null_value (prop r name) then VNull
                                   else prop r name ]}) rows).
Proof.
  intros ND E T _. exact (scan_inserted_plain clk a b tableName name sch e rows s ND E T).
Qed.

(** On the table with the rows (X, 10), (X, 20), (Y, 5), and on the table
    with a column [constructor] and a row without such a field. *)
Lemma plain_column_round_trip_witness :
  returned scan_data
    (fst ((createTable 0 0 "t" dv_schema;;
           insert clk0 "t" dv_rows;;
           scan clk0 "t" (Some ["v"]) None)%js constructor)) =
  Return [ {[ "v" := num 10 ]}; {[ "v" := num 20 ]}; {[ "v" := num 5 ]} ] /\
  returned scan_data
    (fst ((createTable 0 0 "t" ctor_schema;;
           insert clk0 "t" ctor_rows;;
           scan clk0 "t" (Some ["constructor"]) None)%js constructor)) =
  Return [ {[ "constructor" := VObj (Builtin "Object") ]} ].
Proof.
  split.
  - rewrite (plain_column_round_trip clk0 0 0 "t" "v" dv_schema
               (column_def "v" "integer") dv_rows constructor
               ltac:(apply (bool_decide_unpack _); vm_compute; exact I)
               eq_refl ltac:(discriminate) ltac:(discriminate)).
    vm_compute. reflexivity.
  - rewrite (plain_column_round_trip clk0 0 0 "t" "constructor" ctor_schema
               (column_def "constructor" "integer") ctor_rows constructor
               ltac:(apply (bool_decide_unpack _); vm_compute; exact I)
               eq_refl ltac:(discriminate) ltac:(discriminate)).
    vm_compute. reflexivity.
Defined.

(** A table without rows has no size: [insert] of an empty batch into a
    table that was just created reports the compression ratio ["NaN"],
    whatever the schema. *)
Theorem empty_insert_ratio (clk : clock) (a b : time) (tableName : string)
    (sch : list schema_entry) (s : store) :
  fst (insert clk tableName [] (snd (createTable a b tableName sch s))) =
  Return {| rowsInserted := 0;
            insertTime := toFixed2 (clk_insert clk) +:+ "ms";
            ins_compressionRatio := "NaN" |}.
Proof.
  rewrite createTable_run. cbn [snd].
  rewrite (insert_run clk _ tableName (created_table a b tableName sch) []
             (table_of_set _ _ _) (created_columns_exist a b tableName sch)).
  cbn [fst length rows_inserted fold_left]. f_equal. f_equal.
  unfold compression_ratio.
  destruct (empty_columns_sizes _ (created_columns_empty a b tableName sch)) as [-> ->].
  reflexivity.
Qed.

End StoreCoverage.

(** * More of the scan *)

Section ScanCoverage.
Import Js ColumnStore Spec Fixtures.

(** [scan] of a registered table whose selected columns and predicate
    column exist returns, and leaves the store alone.  It reports as
    many rows returned as it returns, never more than the rows of the
    table, which it reports as scanned; without a predicate it returns
    them all.  Every row returned has the selected columns for its keys
    and no other. *)
Theorem scan_result_shape (clk : clock) (s : store) (tableName : string) (t : table)
    (cols : option (list string)) (pred : option predicate) :
  table_of s tableName = Some t ->
  Forall (fun cn => is_Some (column_of t cn)) (selected_columns t cols) ->
  match pred with Some p => is_Some (column_of t (p_column p)) | None => True end ->
  exists r,
    scan clk tableName cols pred s = (Return r, s) /\
    rowsReturned (scan_meta r) = length (scan_data r) /\
    (rowsReturned (scan_meta r) <= rowsScanned (scan_meta r))%nat /\
    rowsScanned (scan_meta r) = rowCount t /\
    columnsScanned (scan_meta r) = length (selected_columns t cols) /\
    (pred = None -> length (scan_data r) = rowCount t) /\
    Forall (fun row : gmap string value =>
              forall k, is_Some (row !! k) <-> k ∈ selected_columns t cols)
      (scan_data r).
Proof.
  intros T F P. eexists. split; [apply (scan_run clk s tableName t cols pred T F P)|].
  cbn [scan_meta scan_data rowsReturned rowsScanned columnsScanned].
  split; [rewrite length_map; reflexivity|].
  split; [apply matching_rows_length|].
  split; [reflexivity|]. split; [reflexivity|]. split.
  - intros ->. rewrite length_map, matching_rows_all, length_seq. reflexivity.
  - apply List.Forall_forall. intros row Hr. apply in_map_iff in Hr as (i & <- & _).
    cbv beta. intros k.
    pose proof (row_at_lookup t _ i k F) as L. cbv delta [object] in L. rewrite L.
    destruct (bool_decide (k ∈ selected_columns t cols)) eqn:B.
    + apply bool_decide_eq_true in B. split; [intros _; exact B|intros _].
      rewrite List.Forall_forall in F.
      destruct (F k (proj1 (list_elem_of_In _ _) B)) as [c ->]. eexists; reflexivity.
    + apply bool_decide_eq_false in B. split; [intros [x Hx]; discriminate|contradiction].
Qed.

Lemma scan_result_shape_witness :
  exists r,
    scan clk0 "t" (Some ["v"]) None dv_store = (Return r, dv_store) /\
    rowsReturned (scan_meta r) = length (scan_data r) /\
    (rowsReturned (scan_meta r) <= rowsScanned (scan_meta r))%nat /\
    rowsScanned (scan_meta r) = 3%nat.
Proof.
  destruct (scan_result_shape clk0 dv_store "t" (inserted clk0 dv_table dv_rows)
              (Some ["v"]) None)
    as (r & R & A & B & C & _).
  - vm_compute. reflexivity.
  - apply (bool_decide_unpack _). vm_compute. exact I.
  - exact I.
  - exists r. split; [exact R|]. split; [exact A|]. split; [exact B|exact C].
Defined.

(** A selected column that the table does not have is noticed only when
    a row is built: [scan] throws a type error when some row passes the
    predicate, and returns no rows, without an error, when none does. *)
Theorem scan_unknown_column (clk : clock) (s : store) (tableName : string) (t : table)
    (selected : list string) (pred : option predicate) (cn : string) :
  table_of s tableName = Some t ->
  match pred with Some p => is_Some (column_of t (p_column p)) | None => True end ->
  In cn selected -> column_of t cn = None ->
  scan clk tableName (Some selected) pred s =
  match matching_rows t pred with
  | [] =>
      (Return {| scan_data := [];
                 scan_meta := {| rowsScanned := rowCount t; rowsReturned := 0;
                                 scanTime := toFixed2 (clk_scan clk) +:+ "ms";
                                 columnsScanned := length selected |} |}, s)
  | _ :: _ => (Throw undefined_read, s)
  end.
Proof.
  intros T P H C. rewrite (scan_shape clk s tableName t (Some selected) pred T P).
  cbn [selected_columns].
  destruct (matching_rows t pred) as [|i l]; [reflexivity|].
  cbn [omap]. rewrite (materialize_missing t selected cn i H C). reflexivity.
Qed.

Lemma scan_unknown_column_witness :
  scan clk0 "t" (Some ["w"]) None dv_store = (Throw undefined_read, dv_store) /\
  returned scan_data (fst (scan clk0 "t" (Some ["w"]) None dv_created)) = Return [].
Proof.
  split.
  - apply (scan_unknown_column clk0 dv_store "t" (inserted clk0 dv_table dv_rows)
             ["w"] None "w").
    + vm_compute. reflexivity.
    + exact I.
    + left. reflexivity.
    + reflexivity.
  - rewrite (scan_unknown_column clk0 dv_created "t" dv_table ["w"] None "w");
      [reflexivity|reflexivity|exact I|left; reflexivity|reflexivity].
Defined.

(** A predicate whose operator is none of the six filters by presence
    alone: the rows that pass are the rows whose value in its column is
    not null. *)
Theorem unknown_operator_keeps_present_rows (t : table) (p : predicate) (c : column) :
  column_of t (p_column p) = Some c ->
  ~ In (p_operator p) ["="; ">"; "<"; ">="; "<="; "!="] ->
  matching_rows t (Some p) =
  List.filter (fun i => negb (is_null c i)) (seq 0 (rowCount t)).
Proof.
  intros C N. apply matching_rows_ext. intros i. unfold row_matches. rewrite C.
  rewrite (test_operator_unknown _ _ _ N). apply andb_true_r.
Qed.

Lemma unknown_operator_keeps_present_rows_witness :
  exists c,
    column_of people_ageless "age" = Some c /\
    matching_rows people_ageless
      (Some {| p_column := "age"; p_operator := "LIKE"; p_value := VStr "3" |}) =
    List.filter (fun i => negb (is_null c i)) (seq 0 (rowCount people_ageless)).
Proof.
  assert (C : column_of people_ageless "age" = Some _) by (vm_compute; reflexivity).
  eexists. split; [exact C|].
  apply (unknown_operator_keeps_present_rows people_ageless
           {| p_column := "age"; p_operator := "LIKE"; p_value := VStr "3" |} _ C).
  cbn. intuition discriminate.
Defined.

(** Against the value [NaN] no row passes [=], [>], [<], [>=] or [<=],
    and every row whose value is not null passes [!=]. *)
Theorem nan_predicate_rows (t : table) (p : predicate) (c : column) :
  column_of t (p_column p) = Some c ->
  p_value p = VNum NaN ->
  In (p_operator p) ["="; ">"; "<"; ">="; "<="; "!="] ->
  matching_rows t (Some p) =
  if String.eqb (p_operator p) "!="
  then List.filter (fun i => negb (is_null c i)) (seq 0 (rowCount t))
  else [].
Proof.
  intros C V O.
  rewrite (matching_rows_ext t p
             (fun i => negb (is_null c i) && String.eqb (p_operator p) "!=")).
  - destruct (String.eqb (p_operator p) "!=").
    + apply List.filter_ext. intros i. apply andb_true_r.
    + apply filter_none. intros i _. apply andb_false_r.
  - intros i. unfold row_matches. rewrite C, V, (test_operator_nan _ _ O). reflexivity.
Qed.

Lemma nan_predicate_rows_witness :
  matching_rows people_filled (Some (age_above (VNum NaN))) = [].
Proof.
  assert (C : column_of people_filled "age" = Some _) by (vm_compute; reflexivity).
  rewrite (nan_predicate_rows people_filled (age_above (VNum NaN)) _ C eq_refl).
  - reflexivity.
  - cbn. tauto.
Defined.

End ScanCoverage.

(** * More of the parser and the engine *)

Section EngineCoverage.
Import Js ColumnStore QueryEngine Spec Fixtures.

(** The operator of a condition that [parseWhere] returns is [=], [>],
    [<] or [!=], never [>=] or [<=]; and so is the operator of the
    predicate of every query that [parse] returns. *)
Theorem parseWhere_operators :
  (forall (whereClause : string) (p : predicate),
      parseWhere whereClause = Return p ->
      In (p_operator p) ["="; ">"; "<"; "!="]) /\
  (forall (sql : string) (q : query) (p : predicate),
      parse sql = Return q -> q_where q = Some p ->
      In (p_operator p) ["="; ">"; "<"; "!="]).
Proof.
  split.
  - intros whereClause p H. apply (parseWhere_parts whereClause p H).
  - intros sql q p. unfold parse.
    destruct (startsWith (toUpperCase (normalize sql)) "SELECT"); cbn [negb];
      [|discriminate].
    destruct (match_ true re_select (normalize sql)) as [m|]; [|discriminate].
    destruct (if String.eqb _ "*" then _ else _) as [cols aggs].
    destruct (match_ true re_from (normalize sql)) as [f|]; [|discriminate].
    destruct (match_ true re_where (normalize sql)) as [w|].
    + destruct (parseWhere (trim (group_str w 1))) as [p'|] eqn:PW; cbn [obind];
        [|discriminate].
      intros [= <-]. cbn [q_where]. intros [= <-].
      apply (parseWhere_parts _ _ PW).
    + cbn [obind]. intros [= <-]. discriminate.
Qed.

Lemma parseWhere_operators_witness :
  exists p q,
    parseWhere "salary <= 50000" = Return p /\
    In (p_operator p) ["="; ">"; "<"; "!="] /\
    parse "SELECT name FROM people WHERE age >= 30" = Return q /\
    (forall p', q_where q = Some p' -> In (p_operator p') ["="; ">"; "<"; "!="]).
Proof.
  destruct parseWhere_operators as [A B].
  assert (P : parseWhere "salary <= 50000" =
              Return {| p_column := "salary"; p_operator := "<"; p_value := VNum NaN |})
    by (vm_compute; reflexivity).
  assert (Q : { q | parse "SELECT name FROM people WHERE age >= 30" = Return q }).
  { eexists. vm_compute. reflexivity. }
  destruct Q as [q Q].
  eexists _, q. split; [exact P|]. split; [exact (A _ _ P)|].
  split; [exact Q|]. intros p' W. exact (B _ q p' Q W).
Defined.

(** A condition in which no quote occurs gets no value: whatever stands
    behind the operator, the predicate that [parseWhere] returns has the
    value [NaN]. *)
Theorem parseWhere_unquoted_value (whereClause : string) (p : predicate) :
  Forall (fun c => is_quote c = false) (chars whereClause) ->
  parseWhere whereClause = Return p ->
  p_value p = VNum NaN.
Proof. intros F H. apply (parseWhere_parts whereClause p H). exact F. Qed.

Lemma parseWhere_unquoted_value_witness :
  exists p,
    parseWhere "salary > 50000" = Return p /\ p_value p = VNum NaN.
Proof.
  assert (P : parseWhere "salary > 50000" =
              Return {| p_column := "salary"; p_operator := ">"; p_value := VNum NaN |})
    by (vm_compute; reflexivity).
  eexists. split; [exact P|].
  apply (parseWhere_unquoted_value "salary > 50000" _); [|exact P].
  apply (bool_decide_unpack _). vm_compute. exact I.
Defined.

(** The steps of a plan are numbered 1, 2, 3, ... without a gap, and
    stand in one order: the table scan, then the filter, the aggregate,
    the sort and the limit, each when the query has it, then the
    projection. *)
Theorem plan_steps_in_order (q : query) :
  map step (createExecutionPlan q) = seq 1 (length (createExecutionPlan q)) /\
  map operation (createExecutionPlan q) =
  ["Table Scan"] ++
  (match q_where q with Some _ => ["Filter"] | None => [] end) ++
  (match q_aggregates q with _ :: _ => ["Aggregate"] | [] => [] end) ++
  (match q_orderBy q with Some _ => ["Sort"] | None => [] end) ++
  (match q_limit q with
   | Some n => if ToBoolean (VNum n) then ["Limit"] else []
   | None => []
   end) ++
  ["Projection"].
Proof. split; [apply plan_steps|apply plan_operations]. Qed.

(** [getHistory] with a negative limit [-n] leaves out the [n] oldest
    records and returns all the others, the most recent first. *)
Theorem getHistory_negative_limit (e : engine) (n : nat) :
  (1 <= n)%nat ->
  getHistory (Some (- Z.of_nat n)) e = (Return (rev (skipn n (queryHistory e))), e).
Proof.
  intros _. rewrite getHistory_run. cbn [default]. unfold id. rewrite Z.opp_involutive.
  rewrite slice_from_positive. reflexivity.
Qed.

Lemma getHistory_negative_limit_witness :
  getHistory (Some (-1)) (snd (execute clk0 "SELECT * FROM t" v_engine)) =
  (Return (rev (skipn 1 (queryHistory (snd (execute clk0 "SELECT * FROM t" v_engine))))),
   snd (execute clk0 "SELECT * FROM t" v_engine)).
Proof.
  apply (getHistory_negative_limit (snd (execute clk0 "SELECT * FROM t" v_engine)) 1).
  lia.
Defined.

(** The record of a statement that was executed: it counts the rows
    that were returned, after ORDER BY and LIMIT, and carries the plan
    of the query that was parsed. *)
Theorem execute_success_record (clk : clock) (sql : string) (e : engine) (q : query)
    (result : query_result) :
  parse sql = Return q ->
  fst (executeQuery clk q e) = Return result ->
  exists r,
    fst (execute clk sql e) = Return r /\
    out_data r = res_data result /\
    rowsAffected (out_execution r) = Some (length (out_data r)) /\
    executionPlan (out_execution r) = Some (createExecutionPlan q) /\
    queryHistory (snd (execute clk sql e)) = queryHistory e ++ [out_execution r].
Proof.
  intros P Q. rewrite (execute_run clk sql e), P, Q. cbn.
  eexists. repeat split; reflexivity.
Qed.

Lemma execute_success_record_witness :
  exists r,
    fst (execute clk0 "SELECT * FROM t LIMIT 2" v_engine) = Return r /\
    rowsAffected (out_execution r) = Some (length (out_data r)) /\
    length (out_data r) = 2%nat.
Proof.
  assert (P : { q | parse "SELECT * FROM t LIMIT 2" = Return q }).
  { eexists. vm_compute. reflexivity. }
  destruct P as [q P].
  assert (Q : { x | fst (executeQuery clk0 q v_engine) = Return x /\
                    length (res_data x) = 2%nat }).
  { assert (P' := P). vm_compute in P'. injection P' as <-.
    eexists. split; vm_compute; reflexivity. }
  destruct Q as [x [Q L]].
  destruct (execute_success_record clk0 _ v_engine q x P Q) as (r & R & D & A & _).
  exists r. split; [exact R|]. split; [exact A|]. rewrite D. exact L.
Defined.

(** Rows that are in order stay as they are: ordering the ordered rows
    again changes nothing, when the keys compare consistently. *)
Theorem ordered_rows_stay_ordered (rows : list object) (o : order_by) :
  comparable_keys (ob_column o) rows ->
  applyOrderBy (applyOrderBy rows o) o = applyOrderBy rows o.
Proof.
  intros C. destruct (applyOrderBy_sorted rows o C) as [S _].
  unfold applyOrderBy at 1. apply sort_of_sorted.
  eapply StronglySorted_weaken; [|exact S].
  intros a b H. rewrite compare_rows_out_of_order. exact H.
Qed.

Lemma ordered_rows_stay_ordered_witness :
  applyOrderBy (applyOrderBy v_rows {| ob_column := "v"; ob_direction := "DESC" |})
    {| ob_column := "v"; ob_direction := "DESC" |} =
  applyOrderBy v_rows {| ob_column := "v"; ob_direction := "DESC" |}.
Proof.
  apply ordered_rows_stay_ordered. left. repeat constructor.
Defined.

End EngineCoverage.

(** * More of the aggregates and of the table information *)

Section AggregateCoverage.
Import Js ColumnStore Spec Fixtures.

(** [computeAggregate] returns for COUNT, SUM, AVG, MIN and MAX, in any
    letter case, and for any other function name it throws that the
    aggregate function is unknown, naming it as it was given. *)
Theorem computeAggregate_function_names (rows : list object) (column_ func : string) :
  (known_function func -> exists v, computeAggregate rows column_ func = Return v) /\
  (~ known_function func ->
   computeAggregate rows column_ func =
   Throw (Error ("Unknown aggregate function: " +:+ func))).
Proof. apply computeAggregate_known. Qed.

Lemma computeAggregate_function_names_witness :
  (exists v, computeAggregate dv_rows "v" "Sum" = Return v) /\
  computeAggregate dv_rows "v" "median" =
  Throw (Error "Unknown aggregate function: median").
Proof.
  split.
  - apply (proj1 (computeAggregate_function_names dv_rows "v" "Sum")).
    vm_compute. tauto.
  - apply (proj2 (computeAggregate_function_names dv_rows "v" "median")).
    vm_compute. intuition discriminate.
Defined.

(** Without a GROUP BY, [aggregate] on a registered table returns
    exactly one row when every function is known, also when no row
    passes the predicate; and it throws when the first function is
    unknown. *)
Theorem aggregate_without_groups (clk : clock) (s : store) (tableName : string)
    (t : table) (aggregates : list aggregate_spec) (groupBy : option string)
    (pred : option predicate) :
  table_of s tableName = Some t -> grouping groupBy = None ->
  match pred with Some p => is_Some (column_of t (p_column p)) | None => True end ->
  (Forall (fun a => known_function (agg_function a)) aggregates ->
   exists r,
     aggregate clk tableName aggregates groupBy pred s =
     (Return {| agg_data := [r];
                agg_meta := {| aggregateTime := toFixed2 (clk_aggregate clk) +:+ "ms";
                               groupCount := 1 |} |}, s)) /\
  (forall agg rest, aggregates = agg :: rest -> ~ known_function (agg_function agg) ->
     aggregate clk tableName aggregates groupBy pred s =
     (Throw (Error ("Unknown aggregate function: " +:+ agg_function agg)), s)).
Proof.
  intros T G P.
  rewrite (aggregate_run_plain clk s tableName t aggregates groupBy pred T G P).
  split.
  - intros F.
    destruct (fill_result_known aggregates (scanned_rows t pred)
                (∅ : gmap string value) F) as [r ->].
    exists r. reflexivity.
  - intros agg rest -> N.
    rewrite (fill_result_unknown agg rest (scanned_rows t pred) (∅ : gmap string value) N).
    reflexivity.
Qed.

Lemma aggregate_without_groups_witness :
  exists r,
    aggregate clk0 "t"
      [ {| agg_function := "COUNT"; agg_column := "*"; agg_alias := None |} ] None
      (Some {| p_column := "v"; p_operator := ">"; p_value := num 100 |}) dv_store =
    (Return {| agg_data := [r];
               agg_meta := {| aggregateTime := toFixed2 (clk_aggregate clk0) +:+ "ms";
                              groupCount := 1 |} |}, dv_store).
Proof.
  apply (proj1 (aggregate_without_groups clk0 dv_store "t" (inserted clk0 dv_table dv_rows)
                  [ {| agg_function := "COUNT"; agg_column := "*"; agg_alias := None |} ]
                  None
                  (Some {| p_column := "v"; p_operator := ">"; p_value := num 100 |})
                  ltac:(vm_compute; reflexivity) eq_refl
                  ltac:(vm_compute; eexists; reflexivity))).
  repeat constructor.
Defined.

(** With a GROUP BY and no row that passes the predicate there is no
    group: [aggregate] returns no rows and counts no group, and it does
    so whatever the functions, known or not. *)
Theorem grouped_aggregate_of_no_rows (clk : clock) (s : store) (tableName : string)
    (t : table) (aggregates : list aggregate_spec) (g : string)
    (pred : option predicate) :
  table_of s tableName = Some t -> g <> "" ->
  match pred with Some p => is_Some (column_of t (p_column p)) | None => True end ->
  matching_rows t pred = [] ->
  aggregate clk tableName aggregates (Some g) pred s =
  (Return {| agg_data := [];
             agg_meta := {| aggregateTime := toFixed2 (clk_aggregate clk) +:+ "ms";
                            groupCount := 0 |} |}, s).
Proof.
  intros T G P E.
  rewrite (aggregate_run clk s tableName t aggregates g pred T G P).
  unfold scanned_rows. rewrite E. reflexivity.
Qed.

Lemma grouped_aggregate_of_no_rows_witness :
  aggregate clk0 "t"
    [ {| agg_function := "median"; agg_column := "v"; agg_alias := None |} ]
    (Some "d") None dv_created =
  (Return {| agg_data := [];
             agg_meta := {| aggregateTime := toFixed2 (clk_aggregate clk0) +:+ "ms";
                            groupCount := 0 |} |}, dv_created).
Proof.
  apply (grouped_aggregate_of_no_rows clk0 dv_created "t" dv_table).
  - reflexivity.
  - discriminate.
  - exact I.
  - reflexivity.
Defined.

(** The groups that [aggregate] forms are a partition of the rows: put
    one after the other they are the rows in another order, and no two
    groups have the same key. *)
Theorem groups_partition_rows (g : string) (rows : list object) :
  Permutation (concat (map snd (group_rows g rows))) rows /\
  NoDup (map key_class (map fst (group_rows g rows))).
Proof.
  split; [apply group_rows_partition|].
  rewrite group_rows_groups, !map_map. cbn [fst].
  exact (group_keys_NoDup g rows).
Qed.

(** [getTableInfo] leaves the store as it was, whether it returns or
    throws, and for a name that is not registered it throws that the
    table is not found. *)
Theorem getTableInfo_read_only (tableName : string) (s : store) :
  snd (getTableInfo tableName s) = s /\
  (table_of s tableName = None ->
   getTableInfo tableName s = (Throw (table_not_found tableName), s)).
Proof. split; [apply getTableInfo_frame|apply getTableInfo_not_found]. Qed.

Lemma getTableInfo_read_only_witness :
  snd (getTableInfo "t" dv_store) = dv_store /\
  getTableInfo "u" dv_store = (Throw (table_not_found "u"), dv_store).
Proof.
  split.
  - apply (getTableInfo_read_only "t" dv_store).
  - apply (getTableInfo_read_only "u" dv_store). reflexivity.
Defined.

(** After [createTable] with a schema that names each column once and
    an [insert], [getTableInfo] reports the rows of the batch, one entry
    per column of the schema in the order of the schema, and for each
    its name, its type, the compression chosen for the type, the rows
    of the batch as its row count, and as its null count the number of
    rows whose field is null or reads as [undefined]; a field that a row
    does not have reads as [undefined] unless [Object.prototype] has
    something under the name, as it has under [constructor], and is then
    not counted. *)
Theorem getTableInfo_after_insert (clk : clock) (a b : time) (tableName : string)
    (sch : list schema_entry) (rows : list object) (s : store) :
  NoDup (map s_name sch) ->
  returned
    (fun i =>
       (ti_rowCount i, columnCount i,
        map (fun c => (info_name c, info_type c, info_compression c,
                       info_rowCount c, info_nullCount c)) (ti_columns i)))
    (fst ((createTable a b tableName sch;;
           insert clk tableName rows;;
           getTableInfo tableName)%js s)) =
  Return
    (length rows, length sch,
     map (fun e => (s_name e, s_type e, selectCompression (s_type e), length rows,
                    length (List.filter is_null_value (field_values (s_name e) rows))))
       sch).
Proof.
  intros ND.
  pose proof (created_table_well_formed a b tableName sch ND) as WF.
  set (t0 := created_table a b tableName sch) in *.
  unfold bind. rewrite createTable_run. fold t0.
  rewrite (insert_run clk _ tableName t0 rows (table_of_set _ _ _)
             (well_formed_all_columns t0 WF)).
  unfold getTableInfo, bind at 1, get at 1.
  pose proof (table_of_set
                {| tables := JsMap.set String.eqb (tables s) tableName t0 |}
                tableName (inserted clk t0 rows)) as T.
  unfold table_of in T. rewrite T.
  pose proof (inserted_created_columns clk a b tableName sch rows ND) as C.
  fold t0 in C. rewrite C. rewrite omap_map.
  rewrite (omap_Return _
             (fun e =>
                {| info_name := s_name e; info_type := s_type e;
                   info_compression := selectCompression (s_type e);
                   info_rowCount := length rows;
                   info_nullCount :=
                     length (List.filter is_null_value (field_values (s_name e) rows));
                   distinctValues :=
                     match dictionary (insert_cells (s_type e) (new_column e)
                                         (field_values (s_name e) rows)) with
                     | Some d => VNum (num_of_nat (JsMap.size d))
                     | None => VStr "N/A"
                     end;
                   info_min := stats_min (stats (insert_cells (s_type e) (new_column e)
                                                   (field_values (s_name e) rows)));
                   info_max := stats_max (stats (insert_cells (s_type e) (new_column e)
                                                   (field_values (s_name e) rows))) |})).
  - unfold bind, lift, ret, returned. cbn [fst obind ti_rowCount columnCount ti_columns].
    unfold JsMap.size. rewrite !length_map, map_map. cbn [inserted rowCount].
    change (rowCount t0) with O. rewrite Nat.add_0_r. reflexivity.
  - intros e He. unfold column_info_of. cbn [fst snd inserted schema].
    change (schema t0) with sch.
    fold (schema_entry_of sch (s_name e)).
    rewrite (schema_entry_of_unique sch e ND (proj2 (list_elem_of_In _ _) He)).
    destruct (insert_cells_flags (s_type e) (field_values (s_name e) rows) (new_column e))
      as (_ & N & D).
    rewrite insert_cells_compression, N, D.
    cbn [new_column compression data stats nullCount length Nat.add].
    unfold field_values. rewrite length_map. reflexivity.
Qed.

Lemma getTableInfo_after_insert_witness :
  returned
    (fun i =>
       (ti_rowCount i, columnCount i,
        map (fun c => (info_name c, info_type c, info_compression c,
                       info_rowCount c, info_nullCount c)) (ti_columns i)))
    (fst ((createTable 0 0 "t" dv_schema;;
           insert clk0 "t" dv_rows;;
           getTableInfo "t")%js constructor)) =
  Return
    (3%nat, 2%nat,
     [("d", "string", "dictionary", 3%nat, O); ("v", "integer", "rle", 3%nat, O)]) /\
  returned
    (fun i =>
       (ti_rowCount i, columnCount i,
        map (fun c => (info_name c, info_type c, info_compression c,
                       info_rowCount c, info_nullCount c)) (ti_columns i)))
    (fst ((createTable 0 0 "t" (column_def "w" "integer" :: ctor_schema);;
           insert clk0 "t" ctor_rows;;
           getTableInfo "t")%js constructor)) =
  Return
    (1%nat, 2%nat,
     [("w", "integer", "rle", 1%nat, 1%nat); ("constructor", "integer", "rle", 1%nat, O)]).
Proof.
  split.
  - apply (getTableInfo_after_insert clk0 0 0 "t" dv_schema dv_rows constructor).
    apply (bool_decide_unpack _). vm_compute. exact I.
  - apply (getTableInfo_after_insert clk0 0 0 "t"
             (column_def "w" "integer" :: ctor_schema) ctor_rows constructor).
    apply (bool_decide_unpack _). vm_compute. exact I.
Defined.

End AggregateCoverage.

(** * Errors and limits through the engine *)

Section ErrorCoverage.
Import Js ColumnStore QueryEngine Spec Fixtures.

Lemma fetch_not_found (clk : clock) (q : query) (e : engine) :
  table_of (store e) (q_table q) = None ->
  fst (fetch clk q e) = Throw (table_not_found (q_table q)).
Proof.
  intros T. unfold fetch.
  destruct (q_aggregates q) as [|agg aggs]; unfold bind, on_store.
  - match goal with |- context [ColumnStore.scan ?c ?n ?cols ?p ?s] =>
      pose proof (scan_not_found c n cols p s T) as H;
      destruct (ColumnStore.scan c n cols p s) as [o s']
    end.
    cbn [fst] in H. subst o. reflexivity.
  - match goal with |- context [ColumnStore.aggregate ?c ?n ?a ?g ?p ?s] =>
      pose proof (aggregate_not_found c n a g p s T) as H;
      destruct (ColumnStore.aggregate c n a g p s) as [o s']
    end.
    cbn [fst] in H. subst o. reflexivity.
Qed.

(** A statement that parses and names a table that is not registered
    fails when it is executed: [execute] throws that the table is not
    found, and the record it appends carries that message. *)
Theorem execute_unknown_table (clk : clock) (sql : string) (e : engine) (q : query) :
  parse sql = Return q ->
  table_of (store e) (q_table q) = None ->
  fst (execute clk sql e) = Throw (table_not_found (q_table q)) /\
  exists x,
    snd (execute clk sql e) =
      {| store := store e; queryHistory := queryHistory e ++ [x] |} /\
    success x = false /\
    ex_error x = Some ("Table " +:+ q_table q +:+ " not found").
Proof.
  intros P T. rewrite (execute_run clk sql e), P.
  rewrite (executeQuery_run clk q e), (fetch_not_found clk q e T).
  cbn [fst snd]. split; [reflexivity|].
  eexists. split; [reflexivity|]. split; reflexivity.
Qed.

Lemma execute_unknown_table_witness :
  fst (execute clk0 "SELECT * FROM u" v_engine) = Throw (table_not_found "u").
Proof.
  assert (P : parse "SELECT * FROM u" =
              Return {| q_type := "SELECT"; q_table := "u"; q_columns := ["*"];
                        q_where := None; q_groupBy := None; q_orderBy := None;
                        q_limit := None; q_aggregates := [] |})
    by (vm_compute; reflexivity).
  exact (proj1 (execute_unknown_table clk0 "SELECT * FROM u" v_engine _ P eq_refl)).
Defined.

(** A LIMIT [k] of at least 1 never lets more than [k] rows through:
    the query returns [k] rows when the store gives at least [k], and
    all of them when it gives fewer, with or without an ORDER BY. *)
Theorem limit_bounds_rows (clk : clock) (q : query) (e : engine) (k : nat)
    (result : query_result) :
  q_limit q = Some (num_of_nat k) ->
  (1 <= k)%nat -> Z.of_nat k < 2 ^ 53 ->
  fst (fetch clk q e) = Return result ->
  exists r,
    fst (executeQuery clk q e) = Return r /\
    length (res_data r) = Nat.min k (length (res_data result)).
Proof.
  intros L K B F. rewrite (executeQuery_run clk q e), F, L.
  destruct (limit_number k K B) as [T S]. rewrite T.
  eexists. split; [reflexivity|]. cbn [res_data]. rewrite S, length_firstn.
  destruct (q_orderBy q) as [o|]; [|reflexivity].
  rewrite (Permutation_length (applyOrderBy_perm (res_data result) o)). reflexivity.
Qed.

Lemma limit_bounds_rows_witness :
  exists r,
    fst (executeQuery clk0
           {| q_type := "SELECT"; q_table := "t"; q_columns := ["*"];
              q_where := None; q_groupBy := None; q_orderBy := None;
              q_limit := Some (num_of_nat 5); q_aggregates := [] |} v_engine) = Return r /\
    length (res_data r) = 3%nat.
Proof.
  pose (q := {| q_type := "SELECT"; q_table := "t"; q_columns := ["*"];
                q_where := None; q_groupBy := None; q_orderBy := None;
                q_limit := Some (num_of_nat 5); q_aggregates := [] |}).
  assert (F : { x | fst (fetch clk0 q v_engine) = Return x /\
                    length (res_data x) = 3%nat }).
  { eexists. split; vm_compute; reflexivity. }
  destruct F as [x [F Len]].
  destruct (limit_bounds_rows clk0 q v_engine 5 x eq_refl ltac:(lia) ltac:(lia) F)
    as (r & R & N).
  exists r. split; [exact R|]. rewrite N, Len. reflexivity.
Defined.

(** A predicate on a column that the table does not have is noticed
    only when there is a row to test: [scan] throws a type error on a
    table with rows, and returns no rows, without an error, on a table
    without. *)
Theorem predicate_unknown_column (clk : clock) (s : ColumnStore.store)
    (tableName : string) (t : table) (cols : option (list string)) (p : predicate) :
  table_of s tableName = Some t ->
  column_of t (p_column p) = None ->
  scan clk tableName cols (Some p) s =
  match rowCount t with
  | O =>
      (Return {| scan_data := [];
                 scan_meta := {| rowsScanned := 0; rowsReturned := 0;
                                 scanTime := toFixed2 (clk_scan clk) +:+ "ms";
                                 columnsScanned := length (selected_columns t cols) |} |},
       s)
  | S _ => (Throw undefined_read, s)
  end.
Proof.
  intros T C. unfold scan, bind at 1, get at 1. unfold table_of in T. rewrite T.
  fold (selected_columns t cols). unfold applyPredicate, bind, lift, ret.
  unfold column_of in C. rewrite C.
  destruct (rowCount t); reflexivity.
Qed.

Lemma predicate_unknown_column_witness :
  scan clk0 "t" None (Some {| p_column := "w"; p_operator := "="; p_value := num 1 |})
    dv_store = (Throw undefined_read, dv_store) /\
  returned scan_data
    (fst (scan clk0 "t" None
            (Some {| p_column := "w"; p_operator := "="; p_value := num 1 |})
            dv_created)) = Return [].
Proof.
  split.
  - apply (predicate_unknown_column clk0 dv_store "t" (inserted clk0 dv_table dv_rows) None
             {| p_column := "w"; p_operator := "="; p_value := num 1 |}).
    + vm_compute. reflexivity.
    + reflexivity.
  - rewrite (predicate_unknown_column clk0 dv_created "t" dv_table None
               {| p_column := "w"; p_operator := "="; p_value := num 1 |}
               eq_refl eq_refl).
    reflexivity.
Defined.

End ErrorCoverage.
